(** * Windsurf bridge for OpenCode: a shallow embedding

    The development follows the TypeScript sources:
    - [auth.ts]   credential discovery (process table, listening ports,
                  API key);
    - [plugin.ts] tool planner, argument normalisation, OpenAI-compatible
                  responses and SSE streams;
    - [grpc-client.ts] the text item sent to Cascade;
    - [server.ts] the HTTP surface.

    Conventions.  A JavaScript string is a [string]; every [ascii] stands for
    one UTF-16 code unit below 256.  Numbers that the code parses out of
    digit runs are integers ([Z]); numbers inside JSON values are IEEE
    doubles ([float]).  A call that may throw returns a [Result]. *)

From Stdlib Require Import String Ascii List ZArith Lia Bool Arith.
From Stdlib Require Import PrimFloat FloatOps SpecFloat Uint63 DecimalString.
Import ListNotations.
Open Scope string_scope.

Set Implicit Arguments.

(* ================================================================== *)
(** ** JavaScript strings *)
(* ================================================================== *)

Module Js.

Definition code (c : ascii) : N := N_of_ascii c.

(** [\s] of a regular expression, and the characters [trim] strips
    (WhiteSpace and LineTerminator), below code unit 256. *)
Definition is_space (c : ascii) : bool :=
  let n := code c in
  ((9 <=? n) && (n <=? 13) || (n =? 32) || (n =? 160))%N.

(** [\d] *)
Definition is_digit (c : ascii) : bool :=
  let n := code c in ((48 <=? n) && (n <=? 57))%N.

Definition is_lower (c : ascii) : bool :=
  let n := code c in ((97 <=? n) && (n <=? 122))%N.

Definition is_upper (c : ascii) : bool :=
  let n := code c in ((65 <=? n) && (n <=? 90))%N.

(** [\w] *)
Definition is_word (c : ascii) : bool :=
  is_digit c || is_lower c || is_upper c || Ascii.eqb c "_".

Definition LF : ascii := ascii_of_N 10.

Fixpoint take_while (p : ascii -> bool) (s : string) : string :=
  match s with
  | EmptyString => EmptyString
  | String c s' => if p c then String c (take_while p s') else EmptyString
  end.

Fixpoint drop_while (p : ascii -> bool) (s : string) : string :=
  match s with
  | EmptyString => EmptyString
  | String c s' => if p c then drop_while p s' else s
  end.

Fixpoint drop (n : nat) (s : string) : string :=
  match n, s with
  | O, _ => s
  | S _, EmptyString => EmptyString
  | S n', String _ s' => drop n' s'
  end.

Fixpoint take (n : nat) (s : string) : string :=
  match n, s with
  | O, _ => EmptyString
  | S _, EmptyString => EmptyString
  | S n', String c s' => String c (take n' s')
  end.

Definition is_empty (s : string) : bool :=
  match s with EmptyString => true | _ => false end.

Fixpoint rev_onto (s acc : string) : string :=
  match s with
  | EmptyString => acc
  | String c s' => rev_onto s' (String c acc)
  end.

Definition rev (s : string) : string := rev_onto s EmptyString.

(** [s.startsWith(p)] *)
Definition startsWith (s p : string) : bool := String.prefix p s.

(** [s.endsWith(p)] *)
Definition endsWith (s p : string) : bool := String.prefix (rev p) (rev s).

(** [s.includes(p)] *)
Fixpoint includes (s p : string) : bool :=
  String.prefix p s ||
  match s with
  | EmptyString => false
  | String _ s' => includes s' p
  end.

(** [s.trim()] *)
Definition trim (s : string) : string :=
  rev (drop_while is_space (rev (drop_while is_space s))).

(** [s.split(sep)] for a one-character separator: never empty. *)
Fixpoint split (sep : ascii) (s : string) : list string :=
  match s with
  | EmptyString => [EmptyString]
  | String c s' =>
      if Ascii.eqb c sep then EmptyString :: split sep s'
      else match split sep s' with
           | [] => [String c EmptyString]
           | h :: t => String c h :: t
           end
  end.

(** [parts.join(sep)] *)
Definition join (sep : string) (parts : list string) : string :=
  String.concat sep parts.

(** [s.indexOf(c)] for a one-character needle; [None] stands for -1. *)
Fixpoint indexOf (c : ascii) (s : string) : option nat :=
  match s with
  | EmptyString => None
  | String d s' =>
      if Ascii.eqb d c then Some O
      else match indexOf c s' with
           | Some i => Some (S i)
           | None => None
           end
  end.

(** [s.lastIndexOf(c)] for a one-character needle. *)
Fixpoint lastIndexOf (c : ascii) (s : string) : option nat :=
  match s with
  | EmptyString => None
  | String d s' =>
      match lastIndexOf c s' with
      | Some i => Some (S i)
      | None => if Ascii.eqb d c then Some O else None
      end
  end.

(** [s.slice(i, j)] for [0 <= i], [0 <= j]. *)
Definition slice (i j : nat) (s : string) : string :=
  take (j - i) (drop i s).

Definition digit_val (c : ascii) : Z := Z.of_N (code c) - 48.

Fixpoint parse_digits (acc : Z) (s : string) : Z :=
  match s with
  | EmptyString => acc
  | String c s' => parse_digits (10 * acc + digit_val c) s'
  end.

(** [parseInt(s, 10)] for [s] a non-empty run of decimal digits. *)
Definition parseInt10 (s : string) : Z := parse_digits 0 s.

(** Template-literal rendering of an integer. *)
Definition of_Z (z : Z) : string := NilZero.string_of_int (Z.to_int z).

(** A string literal in which every backquote stands for a double
    quote. *)
Fixpoint quoted (s : string) : string :=
  match s with
  | EmptyString => EmptyString
  | String c s' =>
      String (if Ascii.eqb c "`" then ascii_of_N 34 else c) (quoted s')
  end.

End Js.

(* ================================================================== *)
(** ** Regular expressions *)
(* ================================================================== *)

(** The constructs the regular expressions of the sources are made of,
    matched by backtracking as [RegExp] does: alternatives are tried in the
    order the expression gives them, a greedy quantifier tries the longest
    repetition first, a lazy one the shortest. *)
Module Re.

Inductive Regex :=
| Eps                               (** the empty expression *)
| Lit (text : string)               (** literal text *)
| Star (cls : ascii -> bool)        (** [c*] for a character class [c] *)
| Plus (cls : ascii -> bool)        (** [c+] *)
| LazyStar (cls : ascii -> bool)    (** [c*?] *)
| Group (r : Regex)                 (** [(r)], capturing *)
| Seq (r1 r2 : Regex)               (** [r1 r2] *)
| Alt (r1 r2 : Regex)               (** [r1|r2] *)
| Ahead (r : Regex)                 (** [(?=r)] *)
| End.                              (** [$], without the [m] flag *)

(** [r1 r2 ... rn] *)
Fixpoint Cat (rs : list Regex) : Regex :=
  match rs with
  | [] => Eps
  | [r] => r
  | r :: rest => Seq r (Cat rest)
  end.

(** [[\s\S]] *)
Definition any (c : ascii) : bool := true.

(** [\S], [[^\s]] *)
Definition non_space (c : ascii) : bool := negb (Js.is_space c).

(** [c*] before the continuation [k]: the longest run first, then shorter
    ones. *)
Fixpoint star {R : Type} (cls : ascii -> bool) (k : string -> option R) (s : string)
  : option R :=
  match s with
  | String c s' =>
      if cls c then
        match star cls k s' with
        | Some x => Some x
        | None => k s
        end
      else k s
  | EmptyString => k s
  end.

(** [c*?] before the continuation [k]: the shortest run first. *)
Fixpoint lazy_star {R : Type} (cls : ascii -> bool) (k : string -> option R)
         (s : string) : option R :=
  match k s with
  | Some x => Some x
  | None =>
      match s with
      | String c s' => if cls c then lazy_star cls k s' else None
      | EmptyString => None
      end
  end.

(** [run r s caps k]: match [r] at the head of [s], with the captures made
    so far, then go on with [k] on the rest of the text; when [k] fails, the
    next way of matching [r] is tried. *)
Fixpoint run (r : Regex) (R : Type) (s : string) (caps : list string)
         (k : string -> list string -> option R) : option R :=
  match r with
  | Eps => k s caps
  | Lit text =>
      if String.prefix text s then k (Js.drop (String.length text) s) caps else None
  | Star cls => star cls (fun s' => k s' caps) s
  | Plus cls =>
      match s with
      | String c s' => if cls c then star cls (fun t => k t caps) s' else None
      | EmptyString => None
      end
  | LazyStar cls => lazy_star cls (fun s' => k s' caps) s
  | Group r1 =>
      run r1 s caps
          (fun s' caps' =>
             k s' (caps' ++ [Js.take (String.length s - String.length s') s])%list)
  | Seq r1 r2 => run r1 s caps (fun s' caps' => run r2 s' caps' k)
  | Alt r1 r2 =>
      match run r1 s caps k with
      | Some x => Some x
      | None => run r2 s caps k
      end
  | Ahead r1 =>
      match run r1 s caps (fun _ caps' => Some caps') with
      | Some caps' => k s caps'
      | None => None
      end
  | End => if Js.is_empty s then k s caps else None
  end.

(** A match: the captured groups, in order, and the text after the match. *)
Definition Match : Type := list string * string.

(** A match that starts at the head of [s]: how an expression that begins
    with [^] is matched. *)
Definition match_start (r : Regex) (s : string) : option Match :=
  run r s [] (fun s' caps => Some (caps, s')).

(** The leftmost match: the start positions are tried from left to right. *)
Fixpoint search (r : Regex) (s : string) : option Match :=
  match match_start r s with
  | Some m => Some m
  | None =>
      match s with
      | String _ s' => search r s'
      | EmptyString => None
      end
  end.

(** [match[1]] *)
Definition group1 (m : option Match) : option string :=
  match m with
  | Some (g :: _, _) => Some g
  | _ => None
  end.

(** [[...s.matchAll(r)]] for an expression that matches no empty text: the
    search resumes where the last match ended.  [fuel] bounds the number of
    matches. *)
Fixpoint matchAll_within (fuel : nat) (r : Regex) (s : string) : list (list string) :=
  match fuel with
  | O => []
  | S n =>
      match search r s with
      | Some (caps, rest) => caps :: matchAll_within n r rest
      | None => []
      end
  end.

Definition matchAll (r : Regex) (s : string) : list (list string) :=
  matchAll_within (String.length s) r s.

(** The least number of characters a match of [r] takes. *)
Fixpoint min_len (r : Regex) : nat :=
  match r with
  | Lit text => String.length text
  | Plus _ => 1
  | Group r1 => min_len r1
  | Seq r1 r2 => min_len r1 + min_len r2
  | Alt r1 r2 => Nat.min (min_len r1) (min_len r2)
  | _ => 0
  end.

End Re.

(* ================================================================== *)
(** ** Errors and results *)
(* ================================================================== *)

Inductive WindsurfErrorCode :=
| NOT_RUNNING
| CSRF_MISSING
| API_KEY_MISSING
| CONNECTION_FAILED
| AUTH_FAILED
| STREAM_ERROR.

(** What a [catch] clause can receive: a [WindsurfError] with its message and
    code, or any other JavaScript [Error] with its message. *)
Inductive Exn :=
| WindsurfError (message : string) (code : WindsurfErrorCode)
| JsError (message : string).

Definition exn_message (e : Exn) : string :=
  match e with
  | WindsurfError m _ => m
  | JsError m => m
  end.

Inductive Result (A : Type) :=
| Ok (a : A)
| Throw (e : Exn).
Arguments Ok {A} a.
Arguments Throw {A} e.

Definition bind {A B : Type} (r : Result A) (k : A -> Result B) : Result B :=
  match r with
  | Ok a => k a
  | Throw e => Throw e
  end.

Notation "x <- r ;; k" := (bind r (fun x => k))
  (at level 61, r at next level, right associativity).

(** [try { r } catch { h }] *)
Definition try_catch {A : Type} (r : Result A) (h : Exn -> Result A) : Result A :=
  match r with
  | Ok a => Ok a
  | Throw e => h e
  end.

(* ================================================================== *)
(** ** JSON values *)
(* ================================================================== *)

(** The values [JSON.parse] produces, and [undefined] for an absent
    property.  An object lists its own enumerable properties in
    [Object.entries] order. *)
#[warning="-register-all"]
Inductive JValue :=
| JUndefined
| JNull
| JBool (b : bool)
| JNumber (x : float)
| JString (s : string)
| JArray (items : list JValue)
| JObject (props : list (string * JValue)).

Module Json.

Fixpoint lookup (key : string) (props : list (string * JValue)) : JValue :=
  match props with
  | [] => JUndefined
  | (k, v) :: rest => if String.eqb k key then v else lookup key rest
  end.

(** [v.key] where [v] is neither [null] nor [undefined] (reading a property
    of those throws).  Primitives and arrays carry none of the property
    names the bridge reads. *)
Definition get (v : JValue) (key : string) : JValue :=
  match v with
  | JObject props => lookup key props
  | _ => JUndefined
  end.

(** [v.key] as an expression that may throw a [TypeError]. *)
Definition get_or_throw (v : JValue) (key : string) : Result JValue :=
  match v with
  | JUndefined | JNull => Throw (JsError "TypeError")
  | _ => Ok (get v key)
  end.

(** JavaScript truthiness. *)
Definition truthy (v : JValue) : bool :=
  match v with
  | JUndefined | JNull => false
  | JBool b => b
  | JNumber x => negb (PrimFloat.is_zero x || PrimFloat.is_nan x)
  | JString s => negb (Js.is_empty s)
  | JArray _ | JObject _ => true
  end.

Definition is_string (v : JValue) : bool :=
  match v with JString _ => true | _ => false end.

Definition num (z : Z) : JValue := JNumber (PrimFloat.of_uint63 (Uint63.of_Z z)).

End Json.

(* ================================================================== *)
(** ** The host system seen by [auth.ts] *)
(* ================================================================== *)

(** [process.platform], of type [NodeJS.Platform]. *)
Inductive Platform :=
| aix
| android
| darwin
| freebsd
| haiku
| linux
| openbsd
| sunos
| win32
| cygwin
| netbsd.

Definition platform_name (p : Platform) : string :=
  match p with
  | aix => "aix"
  | android => "android"
  | darwin => "darwin"
  | freebsd => "freebsd"
  | haiku => "haiku"
  | linux => "linux"
  | openbsd => "openbsd"
  | sunos => "sunos"
  | win32 => "win32"
  | cygwin => "cygwin"
  | netbsd => "netbsd"
  end.

(** What the port probes of [getPortForPid] collect for one PID, after their
    parsing loops: [listeningPorts] from /proc/net/tcp and tcp6, [ports] from
    [ss], [ports] from [lsof], each holding the numbers [parseInt] returned in
    the order the rows were read.  A probe whose command fails, or is
    skipped, contributes the empty list. *)
Record PortProbes := {
  proc_listening : list Z;
  ss_listening : list Z;
  lsof_listening : list Z
}.

(** One snapshot of the system, read by every command a request runs.  An
    [option string] is the standard output of [execSync] (or the content
    [readFileSync] returns); [None] when the call throws. *)
Record World := {
  platform : Platform;
  ps_output : option string;
  port_probes : string -> PortProbes;
  state_db_exists : bool;
  state_db_value : option string;
  legacy_exists : bool;
  legacy_content : option string
}.

(* ================================================================== *)
(** ** auth.ts: process discovery *)
(* ================================================================== *)

Definition getLanguageServerPattern (p : Platform) : string :=
  match p with
  | darwin => "language_server_macos"
  | linux => "language_server_linux_x64"
  | win32 => "language_server_windows"
  | _ => "language_server"
  end.

Record LanguageServerProcess := {
  pid : string;
  csrfToken : string;
  extensionServerPort : option Z;
  line : string
}.

(** [/^\s*\S+\s+(\d+)/] *)
Definition PID_RE : Re.Regex :=
  Re.Cat [ Re.Star Js.is_space; Re.Plus Re.non_space; Re.Plus Js.is_space;
           Re.Group (Re.Plus Js.is_digit) ].

(** [line.match(/^\s*\S+\s+(\d+)/)], capture group 1. *)
Definition pidMatch (l : string) : option string :=
  Re.group1 (Re.match_start PID_RE l).

(** [[a-f0-9-]] *)
Definition is_csrf_char (c : ascii) : bool :=
  let n := Js.code c in
  (Js.is_digit c || ((97 <=? n) && (n <=? 102)) || (n =? 45))%N.

(** [/--csrf_token\s+([a-f0-9-]+)/] *)
Definition CSRF_RE : Re.Regex :=
  Re.Cat [ Re.Lit "--csrf_token"; Re.Plus Js.is_space;
           Re.Group (Re.Plus is_csrf_char) ].

(** [line.match(/--csrf_token\s+([a-f0-9-]+)/)], capture group 1. *)
Definition csrfMatch (l : string) : option string :=
  Re.group1 (Re.search CSRF_RE l).

(** [/--extension_server_port\s+(\d+)/] *)
Definition PORT_RE : Re.Regex :=
  Re.Cat [ Re.Lit "--extension_server_port"; Re.Plus Js.is_space;
           Re.Group (Re.Plus Js.is_digit) ].

(** [line.match(/--extension_server_port\s+(\d+)/)], capture group 1. *)
Definition portMatch (l : string) : option string :=
  Re.group1 (Re.search PORT_RE l).

(** The body of the loop over the lines of the process listing. *)
Definition parse_process_line (pattern l : string) : option LanguageServerProcess :=
  if negb (Js.includes l pattern) || Js.includes l "grep" then None
  else
    match pidMatch l, csrfMatch l with
    | Some p, Some c =>
        Some {| pid := p;
                csrfToken := c;
                extensionServerPort := option_map Js.parseInt10 (portMatch l);
                line := l |}
    | _, _ => None
    end.

Fixpoint filter_map {A B : Type} (f : A -> option B) (l : list A) : list B :=
  match l with
  | [] => []
  | a :: rest =>
      match f a with
      | Some b => b :: filter_map f rest
      | None => filter_map f rest
      end
  end.

Definition getLanguageServerProcesses (w : World) : list LanguageServerProcess :=
  match ps_output w with
  | None => []
  | Some output =>
      filter_map (parse_process_line (getLanguageServerPattern (platform w)))
                 (Js.split Js.LF output)
  end.

(* ================================================================== *)
(** ** auth.ts: the gRPC port of a PID *)
(* ================================================================== *)

(** [xs.sort((a, b) => a - b)] *)
Fixpoint insert_asc (x : Z) (l : list Z) : list Z :=
  match l with
  | [] => [x]
  | y :: rest => if (x <=? y)%Z then x :: l else y :: insert_asc x rest
  end.

Fixpoint sort_asc (l : list Z) : list Z :=
  match l with
  | [] => []
  | x :: rest => insert_asc x (sort_asc rest)
  end.

(** [if (extPort) { const after = ports.filter(p => p > extPort).sort(...);
    if (after.length > 0) return after[0]; }]: [None] when control falls
    out of the block.  [extPort] is falsy when [null] or [0]. *)
Definition first_after (ports : list Z) (extPort : option Z) : option Z :=
  match extPort with
  | Some e =>
      if (e =? 0)%Z then None
      else hd_error (sort_asc (filter (fun p => (e <? p)%Z) ports))
  | None => None
  end.

(** The Linux blocks: [after[0]], else [ports.sort(...)[0]]. *)
Definition select_sorted (ports : list Z) (extPort : option Z) : option Z :=
  match ports with
  | [] => None
  | _ :: _ =>
      match first_after ports extPort with
      | Some p => Some p
      | None => hd_error (sort_asc ports)
      end
  end.

(** The macOS block: [after[0]], else [ports[0]]. *)
Definition select_first (ports : list Z) (extPort : option Z) : option Z :=
  match ports with
  | [] => None
  | p0 :: _ =>
      match first_after ports extPort with
      | Some p => Some p
      | None => Some p0
      end
  end.

(** [if (extPort) return extPort + 3; return null;] *)
Definition offset_fallback (extPort : option Z) : option Z :=
  match extPort with
  | Some e => if (e =? 0)%Z then None else Some (e + 3)%Z
  | None => None
  end.

Definition getPortForPid (p : Platform) (probes : PortProbes) (extPort : option Z)
  : option Z :=
  let discovered :=
    match p with
    | linux =>
        match select_sorted (proc_listening probes) extPort with
        | Some port => Some port
        | None => select_sorted (ss_listening probes) extPort
        end
    | darwin => select_first (lsof_listening probes) extPort
    | _ => None
    end in
  match discovered with
  | Some port => Some port
  | None => offset_fallback extPort
  end.

(* ================================================================== *)
(** ** auth.ts: credentials *)
(* ================================================================== *)

Definition not_found_error : Exn :=
  WindsurfError "Windsurf language server not found. Is Windsurf running?" NOT_RUNNING.

Definition getCSRFToken (w : World) : Result string :=
  match getLanguageServerProcesses w with
  | [] => Throw not_found_error
  | proc :: _ => Ok (csrfToken proc)
  end.

Definition getPort (w : World) : Result Z :=
  match getLanguageServerProcesses w with
  | [] => Throw not_found_error
  | proc :: _ =>
      match getPortForPid (platform w) (port_probes w (pid proc))
                          (extensionServerPort proc) with
      | Some port => Ok port
      | None =>
          Throw (WindsurfError
                   "Windsurf language server port not found. Is Windsurf running?"
                   NOT_RUNNING)
      end
  end.

(** [/--windsurf_version\s+([^\s]+)/] *)
Definition VERSION_RE : Re.Regex :=
  Re.Cat [ Re.Lit "--windsurf_version"; Re.Plus Js.is_space;
           Re.Group (Re.Plus Re.non_space) ].

Definition getWindsurfVersion (w : World) : string :=
  match getLanguageServerProcesses w with
  | proc :: _ =>
      match Re.group1 (Re.search VERSION_RE (line proc)) with
      | Some v => hd EmptyString (Js.split "+" v)
      | None => "1.13.104"
      end
  | [] => "1.13.104"
  end.

(** [VSCODE_STATE_PATHS[platform]] is defined: the table has three keys. *)
Definition has_state_path (p : Platform) : bool :=
  match p with
  | darwin | linux | win32 => true
  | _ => false
  end.

Definition api_key_missing : Exn :=
  WindsurfError "API key not found. Please login to Windsurf first." API_KEY_MISSING.

Definition isWindsurfRunning (w : World) : bool :=
  match (_ <- getCSRFToken w ;; _ <- getPort w ;; Ok tt) with
  | Ok _ => true
  | Throw _ => false
  end.

Record WindsurfCredentials := {
  cred_csrfToken : string;
  cred_port : Z;
  cred_apiKey : JValue;
  cred_version : string
}.

(* ================================================================== *)
(** ** Requests and the Cascade client's interface *)
(* ================================================================== *)

(** [{ type: string; text?: string }] *)
Record TextPart := {
  part_type : string;
  part_text : option string
}.

(** [string | Array<{ type: string; text?: string }>] *)
Inductive Content :=
| ContentString (s : string)
| ContentParts (parts : list TextPart).

(** An element of [ChatCompletionRequest.messages], with the three
    properties the code reads through [any]. *)
Record RequestMessage := {
  role : string;
  content : Content;
  name : option string;
  tool_call_id : option string;
  tool_calls : option (list JValue)
}.

Record ToolFunction := {
  fn_name : option string;
  fn_description : option string;
  fn_parameters : JValue
}.

Record ToolDef := {
  tool_type : option string;
  tool_function : option ToolFunction
}.

(** The body of a chat request as the handlers read it.  The server hands
    them what [req.json()] returned without validating it, so [messages]
    may be missing: [None] stands for a body with no [messages] property.
    The properties that are present have their declared types. *)
Record ChatCompletionRequest := {
  model : option string;
  messages : option (list RequestMessage);
  stream : bool;
  tools : option (list ToolDef);
  providerOptions : JValue
}.

(** [{}], which [req.json().catch(() => ({}))] gives for a body that is
    not JSON. *)
Definition empty_body : ChatCompletionRequest :=
  {| model := None; messages := None; stream := false; tools := None;
     providerOptions := JUndefined |}.

(** [ChatMessage] of grpc-client.ts. *)
Record ChatMessage := {
  chat_role : string;
  chat_content : string
}.

(** One run of the async generator [streamChatGenerator]: the chunks it
    yields, in order, and the error it then throws, if any. *)
Record GeneratorRun := {
  yielded : list string;
  thrown : option Exn
}.

(** The two non-deterministic readings a response takes: the clock and
    [crypto.randomUUID()].  [date_now k] is what the call of [Date.now()]
    number [k] returns, counting from 0 the calls made while one response
    is built, in the order the code makes them. *)
Record Entropy := {
  date_now : nat -> Z;
  random_uuid : string
}.

(** One server-sent event: [data: <JSON.stringify(payload)>] followed by a
    blank line, or the terminator [data: [DONE]]. *)
Inductive SseEvent :=
| SseData (payload : JValue)
| SseDone.

(** [ToolCallPlan].  JavaScript does not check the declared [name: string]
    and [content: string]: a field holds whatever value the parser put
    there. *)
Record ToolCall := {
  tc_name : JValue;
  tc_arguments : JValue
}.

Inductive ToolCallPlan :=
| PlanFinal (content : JValue)
| PlanToolCall (calls : list ToolCall).

Inductive ResponseBody :=
| JsonBody (value : JValue)
| EventStream (events : list SseEvent).

Record Response := {
  status : Z;
  content_type : string;
  body : ResponseBody
}.

(** The part of a [Request] that [fetch] reads: the path, and the body as
    [req.json()] decodes it, a JSON object read as a
    [ChatCompletionRequest]; [None] when the body is not JSON and
    [req.json()] rejects. *)
Record HttpRequest := {
  pathname : string;
  json : option ChatCompletionRequest
}.

(* ------------------------------------------------------------------ *)
(** *** Model registry records (models.ts) *)

(** Modelled from the spec: [VariantSpec] of section 3, "{enum_value:
    uint32 | none, model_uid: string | none, description: string}";
    models.ts is missing. *)
Record VariantSpec := {
  vs_enum_value : option Z;
  vs_model_uid : option string;
  vs_description : string
}.

(** Modelled from the spec: an entry of [VARIANT_CATALOG], the variants of
    a canonical ID with the catalog's [default_variant] (sections 3 and
    4.4); models.ts is missing. *)
Record CatalogEntry := {
  default_variant : option string;
  variants : list (string * VariantSpec)
}.

(** Modelled from the spec: [ResolvedModel] of section 3, under the field
    names plugin.ts and variant.test.ts read ([modelId], [variant],
    [enumValue], [modelUid]); models.ts is missing. *)
Record ResolvedModel := {
  modelId : string;
  variant : option string;
  enumValue : Z;
  modelUid : option string
}.

(** Size of a JSON value: one per node, plus the length of a string. *)
Fixpoint jsize (v : JValue) : nat :=
  match v with
  | JString s => S (String.length s)
  | JArray items => S (list_sum (map jsize items))
  | JObject props =>
      S (list_sum (map (fun kv => match kv with (_, x) => jsize x end) props))
  | _ => 1
  end.

(* ================================================================== *)
(** ** The bridge, over the JavaScript runtime and the registry tables *)
(* ================================================================== *)

Section Bridge.

(** [JSON.parse]: [None] when it throws a [SyntaxError]. *)
Variable JSON_parse : string -> option JValue.

(** [JSON.stringify(v)] and [JSON.stringify(v, null, 2)]. *)
Variable JSON_stringify : JValue -> string.
Variable JSON_stringify_pretty : JValue -> string.

(** [String.prototype.toUpperCase]. *)
Variable toUpperCase : string -> string.

(** The language server behind the three Cascade RPCs: given the
    credentials, the model string and the text item, the chunks the
    generator yields and the error it ends with, if any. *)
Variable cascade : WindsurfCredentials -> string -> string -> GeneratorRun.

(** Modelled from the spec: the maps of section 4.4 ([ALIAS_TO_CANONICAL],
    [VARIANT_CATALOG], the flat [NAME_TO_ENUM]), the set of canonical IDs,
    and the three accessors plugin.ts and server.ts import; models.ts is
    missing, so its tables are parameters. *)
Variable ALIAS_TO_CANONICAL : string -> option string.
Variable VARIANT_CATALOG : string -> option CatalogEntry.
Variable NAME_TO_ENUM : string -> option Z.
Variable is_canonical : string -> bool.
Variable getDefaultModel : string.
Variable getCanonicalModels : list string.
Variable getModelVariants : string -> option (list (string * string)).

(* ---------------------------------------------------------------- *)
(** *** auth.ts: the API key *)

(** [const parsed = JSON.parse(text); if (parsed.apiKey) return
    parsed.apiKey;]: [Ok (Some k)] when the block returns [k], [Ok None]
    when control leaves it, [Throw] when it throws. *)
Definition read_apiKey (text : string) : Result (option JValue) :=
  match JSON_parse text with
  | None => Throw (JsError "SyntaxError")
  | Some parsed =>
      k <- Json.get_or_throw parsed "apiKey" ;;
      Ok (if Json.truthy k then Some k else None)
  end.

(** A [try { ... } catch { }] block whose handler falls through. *)
Definition or_fall_through (r : Result (option JValue)) : option JValue :=
  match r with
  | Ok o => o
  | Throw _ => None
  end.

(** The block guarded by [fs.existsSync(statePath)]. *)
Definition apiKey_from_state (w : World) : option JValue :=
  if state_db_exists w then
    or_fall_through
      match state_db_value w with
      | None => Throw (JsError "execSync")
      | Some out =>
          let result := Js.trim out in
          if Js.is_empty result then Ok None else read_apiKey result
      end
  else None.

(** The block guarded by [fs.existsSync(LEGACY_CONFIG_PATH)]. *)
Definition apiKey_from_legacy (w : World) : option JValue :=
  if legacy_exists w then
    or_fall_through
      match legacy_content w with
      | None => Throw (JsError "readFileSync")
      | Some config => read_apiKey config
      end
  else None.

Definition getApiKey (w : World) : Result JValue :=
  if negb (has_state_path (platform w)) then
    Throw (WindsurfError ("Unsupported platform: " ++ platform_name (platform w))
                         API_KEY_MISSING)
  else
    match apiKey_from_state w with
    | Some k => Ok k
    | None =>
        match apiKey_from_legacy w with
        | Some k => Ok k
        | None => Throw api_key_missing
        end
    end.

Definition getCredentials (w : World) : Result WindsurfCredentials :=
  csrf <- getCSRFToken w ;;
  port <- getPort w ;;
  key <- getApiKey w ;;
  Ok {| cred_csrfToken := csrf;
        cred_port := port;
        cred_apiKey := key;
        cred_version := getWindsurfVersion w |}.

(* ---------------------------------------------------------------- *)
(** *** models.ts: the resolver *)

(** Modelled from the spec: the variant names of the catalog, in the
    order section 4.4 lists them ("low, medium, high, xhigh, thinking,
    fast, slow, 1m, minimal"); models.ts is missing. *)
Definition KNOWN_VARIANTS : list string :=
  ["low"; "medium"; "high"; "xhigh"; "thinking"; "fast"; "slow"; "1m"; "minimal"].

(** Modelled from the spec: step 1, suffix detection, "if id_part ends in
    -<known_variant> and the stripped prefix is a canonical ID or alias,
    treat the tail as the variant"; models.ts is missing.  The first
    known variant that fits is taken. *)
Definition strip_suffix (input v : string) : option string :=
  let tail := "-" ++ v in
  if Js.endsWith input tail then
    let stem := Js.take (String.length input - String.length tail) input in
    if is_canonical stem then Some stem
    else match ALIAS_TO_CANONICAL stem with
         | Some _ => Some stem
         | None => None
         end
  else None.

Fixpoint detect_suffix (input : string) (vs : list string)
  : string * option string :=
  match vs with
  | [] => (input, None)
  | v :: rest =>
      match strip_suffix input v with
      | Some stem => (stem, Some v)
      | None => detect_suffix input rest
      end
  end.

(** Modelled from the spec: step 1, "Split input on the first : into
    (id_part, variant_part). If no colon, attempt suffix detection";
    models.ts is missing. *)
Definition split_model (input : string) : string * option string :=
  match Js.indexOf ":" input with
  | Some i => (Js.take i input, Some (Js.drop (S i) input))
  | None => detect_suffix input KNOWN_VARIANTS
  end.

(** Modelled from the spec: step 3 with the tie-break "canonical lookup
    beats alias"; models.ts is missing. *)
Definition canonical_of (id_part : string) : string :=
  if is_canonical id_part then id_part
  else match ALIAS_TO_CANONICAL id_part with
       | Some c => c
       | None => id_part
       end.

Fixpoint find_variant (v : string) (l : list (string * VariantSpec))
  : option VariantSpec :=
  match l with
  | [] => None
  | (k, spec) :: rest => if String.eqb k v then Some spec else find_variant v rest
  end.

(** Modelled from the spec: step 5, "consult NAME_TO_ENUM[input]; if
    missing, fall back to a default canonical (e.g. claude-3.5-sonnet,
    enum 166)"; models.ts is missing.  The spec does not say which variant
    the result of this step carries: the model keeps the one chosen in
    step 2. *)
Definition resolve_legacy (input canonical : string) (v : option string)
  : ResolvedModel :=
  match NAME_TO_ENUM input with
  | Some e =>
      {| modelId := canonical; variant := v; enumValue := e; modelUid := None |}
  | None =>
      {| modelId := "claude-3.5-sonnet"; variant := v; enumValue := 166;
         modelUid := None |}
  end.

(** Modelled from the spec: the resolver algorithm of section 4.4, steps
    1 to 5; models.ts is missing.  Where the spec is silent (no variant
    selected, a variant the model's catalog lacks, a variant with neither
    UID nor enum) the resolver goes on to step 5. *)
Definition resolveModel (input : string) (override_variant : option string)
  : ResolvedModel :=
  let (id_part, parsed) := split_model input in
  let variant_part :=
    match override_variant with
    | Some o => Some o
    | None => parsed
    end in
  let canonical := canonical_of id_part in
  match VARIANT_CATALOG canonical with
  | Some entry =>
      let chosen :=
        match variant_part with
        | Some v => Some v
        | None => default_variant entry
        end in
      match chosen with
      | Some v =>
          match find_variant v (variants entry) with
          | Some spec =>
              match vs_model_uid spec, vs_enum_value spec with
              | Some uid, _ =>
                  {| modelId := canonical; variant := Some v;
                     enumValue := 0; modelUid := Some uid |}
              | None, Some e =>
                  {| modelId := canonical; variant := Some v;
                     enumValue := e; modelUid := None |}
              | None, None => resolve_legacy input canonical chosen
              end
          | None => resolve_legacy input canonical chosen
          end
      | None => resolve_legacy input canonical chosen
      end
  | None => resolve_legacy input canonical variant_part
  end.

(* ---------------------------------------------------------------- *)
(** *** grpc-client.ts: the text item

    From the listing of grpc-client.ts in docs/REVERSE_ENGINEERING.md. *)

Definition contents_with_role (r : string) (msgs : list ChatMessage) : list string :=
  map chat_content (filter (fun m => String.eqb (chat_role m) r) msgs).

(** The text computed by [buildSendUserCascadeMessageRequest]:
    [[...systemParts, ...userParts].join('\n\n') || 'Hello']. *)
Definition cascade_text (msgs : list ChatMessage) : string :=
  let sep := String Js.LF (String Js.LF EmptyString) in
  let text := Js.join sep (contents_with_role "system" msgs
                           ++ contents_with_role "user" msgs) in
  if Js.is_empty text then "Hello" else text.

Definition streamChatGenerator (credentials : WindsurfCredentials)
           (model_name : string) (msgs : list ChatMessage) : GeneratorRun :=
  cascade credentials model_name (cascade_text msgs).

(* ---------------------------------------------------------------- *)
(** *** plugin.ts: request helpers *)

(** [a ?? b] *)
Definition nullish (a b : JValue) : JValue :=
  match a with
  | JUndefined | JNull => b
  | _ => a
  end.

(** [v?.key] *)
Definition opt_get (v : JValue) (key : string) : JValue :=
  match v with
  | JUndefined | JNull => JUndefined
  | _ => Json.get v key
  end.

Definition extractVariantFromProviderOptions (po : JValue) : option string :=
  if negb (Json.truthy po) then None
  else
    let windsurf := Json.get po "windsurf" in
    let candidate :=
      nullish (opt_get windsurf "variant")
     (nullish (opt_get windsurf "variantID")
     (nullish (opt_get windsurf "variantId")
     (nullish (Json.get po "variant")
     (nullish (Json.get po "variantID")
              (Json.get po "variantId"))))) in
    match candidate with
    | JString s => if Js.is_empty s then None else Some s
    | _ => None
    end.

(** [x || d] on an optional string. *)
Definition or_default (x : option string) (d : string) : string :=
  match x with
  | Some s => if Js.is_empty s then d else s
  | None => d
  end.

Definition requested_model (request : ChatCompletionRequest) : string :=
  or_default (model request) getDefaultModel.

(** [resolved.variant ? `${resolved.modelId}:${resolved.variant}` :
    resolved.modelId] *)
Definition effective_model (request : ChatCompletionRequest) : string :=
  let resolved := resolveModel (requested_model request)
                    (extractVariantFromProviderOptions (providerOptions request)) in
  match variant resolved with
  | Some v => if Js.is_empty v then modelId resolved
              else modelId resolved ++ ":" ++ v
  | None => modelId resolved
  end.

Definition nonempty (s : string) : bool := negb (Js.is_empty s).

Definition extractTextParts (c : Content) : string :=
  match c with
  | ContentString s => s
  | ContentParts parts =>
      Js.join (String Js.LF EmptyString)
        (filter nonempty
           (map (fun p => if String.eqb (part_type p) "text"
                          then or_default (part_text p) ""
                          else "") parts))
  end.

Definition summarizeTool (tool : ToolDef) : string :=
  let fn_field (A : Type) (f : ToolFunction -> option A) : option A :=
    match tool_function tool with
    | Some fn => f fn
    | None => None
    end in
  let name := or_default (fn_field _ fn_name) "unknown" in
  let description := or_default (fn_field _ fn_description) "" in
  let params :=
    match tool_function tool with
    | Some fn => fn_parameters fn
    | None => JUndefined
    end in
  let paramsSummary :=
    match params with
    | JObject _ | JArray _ =>
        "schema:" ++ String Js.LF (JSON_stringify_pretty params)
    | _ => ""
    end in
  let head := "- " ++ name
              ++ (if Js.is_empty description then "" else ": " ++ description) in
  Js.join (String Js.LF EmptyString)
          (head :: (if Js.is_empty paramsSummary then [] else [paramsSummary])).

(** The body of the loop of [buildToolPrompt] over the messages: the line
    it pushes, if any. *)
Definition conversation_line (message : RequestMessage) : option string :=
  let r := if Js.is_empty (role message) then "user" else role message in
  if String.eqb r "system" then None
  else if String.eqb r "tool" then
    let c := extractTextParts (content message) in
    let n := or_default (name message) "tool" in
    let id := or_default (tool_call_id message) "" in
    Some ("TOOL RESULT (" ++ n
          ++ (if Js.is_empty id then "" else ", id=" ++ id)
          ++ "): " ++ c)
  else
    match (if String.eqb r "assistant" then tool_calls message else None) with
    | Some tcs => Some ("ASSISTANT TOOL_CALLS: " ++ JSON_stringify (JArray tcs))
    | None =>
        let c := extractTextParts (content message) in
        if Js.is_empty c then None
        else Some (toUpperCase r ++ ": " ++ c)
    end.

(** [request.messages] where the code calls a method of it or iterates
    over it: a [TypeError] when the property is missing.  The message of
    the error is the runtime's; the model carries its name. *)
Definition messages_or_throw (request : ChatCompletionRequest)
  : Result (list RequestMessage) :=
  match messages request with
  | Some msgs => Ok msgs
  | None => Throw (JsError "TypeError")
  end.

(** The prompt of [buildToolPrompt] for the tools of the request and the
    messages [msgs]. *)
Definition tool_prompt (request : ChatCompletionRequest) (msgs : list RequestMessage)
  : string :=
  let LF1 := String Js.LF EmptyString in
  let LF2 := String Js.LF LF1 in
  let tool_list := match tools request with Some l => l | None => [] end in
  let toolList :=
    match tool_list with
    | [] => "(none)"
    | _ => Js.join LF1 (map summarizeTool tool_list)
    end in
  let systemMessages :=
    filter (fun m => String.eqb (role m) "system") msgs in
  let systemText :=
    Js.join LF2 (filter nonempty
                   (map (fun m => extractTextParts (content m)) systemMessages)) in
  let conversationLines := filter_map conversation_line msgs in
  Js.join LF1
    (filter nonempty
       [ "You are a tool-calling assistant running inside OpenCode.";
         (if Js.is_empty systemText then "" else "System: " ++ systemText);
         "";
         "Available tools:";
         toolList;
         "";
         "STRICT OUTPUT:";
         "- Output MUST be exactly one JSON object and nothing else.";
         "- If you output anything outside JSON, your answer is discarded.";
         "- DO NOT emit <tool_call> tags or prose. Only JSON.";
         "- Arguments MUST follow each tool's JSON schema exactly (types, nesting, required fields).";
         "";
         "RESPONSE FORMAT:";
         "- Call tool(s):";
         Js.quoted "{`action`:`tool_call`,`tool_calls`:[{`name`:`tool_name`,`arguments`:{`arg`:`value`}}]}";
         "- Final answer:";
         Js.quoted "{`action`:`final`,`content`:`...`}";
         "";
         "Conversation:";
         Js.join LF2 conversationLines ]).

(** [buildToolPrompt]: the first read of [request.messages], by
    [request.messages.filter], throws when the property is missing. *)
Definition buildToolPrompt (request : ChatCompletionRequest) : Result string :=
  msgs <- messages_or_throw request ;;
  Ok (tool_prompt request msgs).

(* ---------------------------------------------------------------- *)
(** *** plugin.ts: tool arguments and the plan parser *)

(** [(trimmed.startsWith('{') && trimmed.endsWith('}')) ||
    (trimmed.startsWith('[') && trimmed.endsWith(']'))] *)
Definition looksJson (trimmed : string) : bool :=
  (Js.startsWith trimmed "{" && Js.endsWith trimmed "}")
  || (Js.startsWith trimmed "[" && Js.endsWith trimmed "]").

(** [result[key] = value] on an object built from [{}].  Assigning to
    [__proto__] runs the inherited setter and creates no own property. *)
Fixpoint set_existing (key : string) (value : JValue) (props : list (string * JValue))
  : option (list (string * JValue)) :=
  match props with
  | [] => None
  | (k, v) :: rest =>
      if String.eqb k key then Some ((k, value) :: rest)
      else match set_existing key value rest with
           | Some rest' => Some ((k, v) :: rest')
           | None => None
           end
  end.

Definition assign (props : list (string * JValue)) (key : string) (value : JValue)
  : list (string * JValue) :=
  if String.eqb key "__proto__" then props
  else match set_existing key value props with
       | Some props' => props'
       | None => props ++ [(key, value)]
       end.

(** [normalizeToolArguments], by recursion on a bound for the nesting of
    the calls: [normalizeToolArguments] below starts it at the size of its
    argument, which the calls never exhaust when a parsed value is no larger
    than its text. *)
Fixpoint normalize_within (fuel : nat) (raw : JValue) : JValue :=
  match fuel with
  | O => raw
  | S n =>
      match raw with
      | JUndefined | JNull => JObject []
      | JString s =>
          let trimmed := Js.trim s in
          if looksJson trimmed then
            match JSON_parse trimmed with
            | Some parsed => normalize_within n parsed
            | None => raw
            end
          else raw
      | JArray items => JArray (map (normalize_within n) items)
      | JObject props =>
          JObject (fold_left
                     (fun result kv => assign result (fst kv) (normalize_within n (snd kv)))
                     props [])
      | _ => raw
      end
  end.

Definition normalizeToolArguments (raw : JValue) : JValue :=
  normalize_within (jsize raw) raw.

(** [[\w.-]] *)
Definition is_name_char (c : ascii) : bool :=
  Js.is_word c || Ascii.eqb c "." || Ascii.eqb c "-".

(** [/<tool_call>\s*([\w.-]+)\s*(\{[\s\S]*?\})(?=\s*(?:<tool_call>|$))/g] *)
Definition TOOL_CALL_RE : Re.Regex :=
  Re.Cat [ Re.Lit "<tool_call>"; Re.Star Js.is_space;
           Re.Group (Re.Plus is_name_char); Re.Star Js.is_space;
           Re.Group (Re.Cat [Re.Lit "{"; Re.LazyStar Re.any; Re.Lit "}"]);
           Re.Ahead (Re.Cat [ Re.Star Js.is_space;
                              Re.Alt (Re.Lit "<tool_call>") Re.End ]) ].

(** [[...output.matchAll(/.../g)]], each match with its groups 1 and 2. *)
Definition tool_call_matches (output : string) : list (string * string) :=
  map (fun caps => (nth 0 caps EmptyString, nth 1 caps EmptyString))
      (Re.matchAll TOOL_CALL_RE output).

(** [JSON.parse(text)] as an expression that may throw. *)
Definition JSON_parse_or_throw (text : string) : Result JValue :=
  match JSON_parse text with
  | Some v => Ok v
  | None => Throw (JsError "SyntaxError")
  end.

(** The callback of [matches.map]: [try { ... } catch { return null; }]. *)
Definition tagged_call (m : string * string) : option ToolCall :=
  match (args <- JSON_parse_or_throw (snd m) ;;
         Ok {| tc_name := JString (fst m);
               tc_arguments := normalizeToolArguments args |}) with
  | Ok tc => Some tc
  | Throw _ => None
  end.

(** The [catch] branch of [parseToolCallPlan]. *)
Definition parse_tagged_calls (output : string) : Result (option ToolCallPlan) :=
  match tool_call_matches output with
  | [] => Ok None
  | matches =>
      match filter_map tagged_call matches with
      | [] => Ok None
      | tool_calls => Ok (Some (PlanToolCall tool_calls))
      end
  end.

Fixpoint filterM {A : Type} (f : A -> Result bool) (l : list A) : Result (list A) :=
  match l with
  | [] => Ok []
  | a :: rest =>
      keep <- f a ;;
      rest' <- filterM f rest ;;
      Ok (if keep then a :: rest' else rest')
  end.

Fixpoint mapM {A B : Type} (f : A -> Result B) (l : list A) : Result (list B) :=
  match l with
  | [] => Ok []
  | a :: rest =>
      b <- f a ;;
      rest' <- mapM f rest ;;
      Ok (b :: rest')
  end.

(** [v === s] for a string literal [s]. *)
Definition is_the_string (v : JValue) (s : string) : bool :=
  match v with
  | JString x => String.eqb x s
  | _ => false
  end.

(** [parsed && parsed.action === a] *)
Definition has_action (parsed : JValue) (a : string) : Result bool :=
  if Json.truthy parsed then
    v <- Json.get_or_throw parsed "action" ;;
    Ok (is_the_string v a)
  else Ok false.

(** [t && typeof t.name === 'string'] *)
Definition has_string_name (t : JValue) : Result bool :=
  if Json.truthy t then
    n <- Json.get_or_throw t "name" ;;
    Ok (Json.is_string n)
  else Ok false.

(** [{ name: t.name, arguments: normalizeToolArguments(t.arguments) }] *)
Definition call_of (t : JValue) : Result ToolCall :=
  n <- Json.get_or_throw t "name" ;;
  a <- Json.get_or_throw t "arguments" ;;
  Ok {| tc_name := n; tc_arguments := normalizeToolArguments a |}.

(** The [try] branch of [parseToolCallPlan] once [JSON.parse] has returned. *)
Definition plan_of_parsed (parsed : JValue) : Result (option ToolCallPlan) :=
  final <- has_action parsed "final" ;;
  final_ok <- (if final then
                 c <- Json.get_or_throw parsed "content" ;; Ok (Json.is_string c)
               else Ok false) ;;
  if final_ok then
    c <- Json.get_or_throw parsed "content" ;;
    Ok (Some (PlanFinal c))
  else
    call <- has_action parsed "tool_call" ;;
    ts <- (if call then Json.get_or_throw parsed "tool_calls" else Ok JUndefined) ;;
    match ts with
    | JArray items =>
        kept <- filterM has_string_name items ;;
        calls <- mapM call_of kept ;;
        Ok (Some (PlanToolCall calls))
    | _ => Ok None
    end.

Definition parseToolCallPlan (output : string) : Result (option ToolCallPlan) :=
  match Js.indexOf "{" output, Js.lastIndexOf "}" output with
  | Some start, Some stop =>
      if Nat.leb stop start then Ok None
      else
        try_catch
          (parsed <- JSON_parse_or_throw (Js.slice start (S stop) output) ;;
           plan_of_parsed parsed)
          (fun _ => parse_tagged_calls output)
  | _, _ => Ok None
  end.

(* ---------------------------------------------------------------- *)
(** *** plugin.ts: responses *)

Definition opt_string (o : option string) : JValue :=
  match o with
  | Some s => JString s
  | None => JNull
  end.

(** [Math.floor(Date.now() / 1000)], for the clock read number [k]. *)
Definition created_at (ent : Entropy) (k : nat) : JValue :=
  Json.num (date_now ent k / 1000).

(** [array.map((a, i) => f(a, i))], the indices starting at [i]. *)
Fixpoint map_indexed {A B : Type} (f : A -> nat -> B) (i : nat) (l : list A) : list B :=
  match l with
  | [] => []
  | a :: rest => f a i :: map_indexed f (S i) rest
  end.

(** [createOpenAICompatibleResponse], which reads the clock once: [k] is
    the number of that read. *)
Definition createOpenAICompatibleResponse (ent : Entropy) (k : nat)
           (id model_echo text : string)
           (isStreaming : bool) (finishReason : option string) : JValue :=
  if isStreaming then
    JObject
      [ ("id", JString id);
        ("object", JString "chat.completion.chunk");
        ("created", created_at ent k);
        ("model", JString model_echo);
        ("choices",
         JArray [ JObject [ ("index", Json.num 0);
                            ("delta", JObject [("content", JString text)]);
                            ("finish_reason", opt_string finishReason) ] ]) ]
  else
    JObject
      [ ("id", JString id);
        ("object", JString "chat.completion");
        ("created", created_at ent k);
        ("model", JString model_echo);
        ("choices",
         JArray [ JObject [ ("index", Json.num 0);
                            ("message", JObject [ ("role", JString "assistant");
                                                  ("content", JString text) ]);
                            ("finish_reason",
                             JString (or_default finishReason "stop")) ] ]) ].

(** [{ error: { message } }], the payload both streams send on failure. *)
Definition stream_error (e : Exn) : JValue :=
  JObject [("error", JObject [("message", JString (exn_message e))])].

(** The [filter] and [map] that turn the request's messages into the
    generator's: the same expression in [createStreamingResponse] and
    [createNonStreamingResponse]. *)
Definition convert_messages (msgs : list RequestMessage) : list ChatMessage :=
  map (fun m =>
         {| chat_role := role m;
            chat_content :=
              match content m with
              | ContentString s => s
              | ContentParts parts =>
                  Js.join EmptyString (map (fun p => or_default (part_text p) "") parts)
              end |})
      (filter (fun m => negb (String.eqb (role m) "assistant")
                        && negb (String.eqb (role m) "tool"))
              msgs).

Definition response_id (ent : Entropy) : string := "chatcmpl-" ++ random_uuid ent.

(** The events the stream enqueues.  Everything happens inside the [try]
    of [start]: a missing [messages] throws there, before the generator is
    created, and the [catch] sends the error event. *)
Definition createStreamingResponse (ent : Entropy) (credentials : WindsurfCredentials)
           (request : ChatCompletionRequest) : list SseEvent :=
  let requestedModel := requested_model request in
  match messages_or_throw request with
  | Throw e => [ SseData (stream_error e) ]
  | Ok msgs =>
      let run := streamChatGenerator credentials (effective_model request)
                                     (convert_messages msgs) in
      map_indexed (fun chunk i =>
                     SseData (createOpenAICompatibleResponse ent i (response_id ent)
                                                             requestedModel chunk true None))
                  0 (yielded run)
      ++ match thrown run with
         | None =>
             [ SseData (createOpenAICompatibleResponse ent (length (yielded run))
                                                       (response_id ent) requestedModel
                                                       "" true (Some "stop"));
               SseDone ]
         | Some e => [ SseData (stream_error e) ]
         end
  end.

Definition createNonStreamingResponse (ent : Entropy) (credentials : WindsurfCredentials)
           (request : ChatCompletionRequest) : Result JValue :=
  msgs <- messages_or_throw request ;;
  let run := streamChatGenerator credentials (effective_model request)
                                 (convert_messages msgs) in
  match thrown run with
  | Some e => Throw e
  | None =>
      Ok (createOpenAICompatibleResponse ent 0 (response_id ent) (requested_model request)
                                         (Js.join EmptyString (yielded run))
                                         false (Some "stop"))
  end.

(* ---------------------------------------------------------------- *)
(** *** plugin.ts: the tool planner *)

(** The single message [runWindsurfOnce] hands to the generator. *)
Definition planner_messages (prompt : string) : list ChatMessage :=
  [ {| chat_role := "user"; chat_content := prompt |} ].

Definition runWindsurfOnce (credentials : WindsurfCredentials) (model_name : string)
           (msgs : list ChatMessage) : Result string :=
  let run := streamChatGenerator credentials model_name msgs in
  match thrown run with
  | Some e => Throw e
  | None => Ok (Js.join EmptyString (yielded run))
  end.

(** [planToolCall]: the plan, the raw content and the model. *)
Definition planToolCall (credentials : WindsurfCredentials)
           (request : ChatCompletionRequest)
  : Result (option ToolCallPlan * string * string) :=
  let model_name := requested_model request in
  prompt <- buildToolPrompt request ;;
  text <- runWindsurfOnce credentials model_name (planner_messages prompt) ;;
  plan <- parseToolCallPlan text ;;
  Ok (plan, text, model_name).

(** [`call_${Date.now()}_${i}`], for the clock read number [k]. *)
Definition call_id (ent : Entropy) (k i : nat) : string :=
  "call_" ++ Js.of_Z (date_now ent k) ++ "_" ++ Js.of_Z (Z.of_nat i).

(** [{ name: tc.name, arguments: JSON.stringify(tc.arguments ?? {}) }] *)
Definition function_of (tc : ToolCall) : JValue :=
  JObject [ ("name", tc_name tc);
            ("arguments",
             JString (JSON_stringify (nullish (tc_arguments tc) (JObject [])))) ].

(** [`windsurf-tools-${Date.now()}`], for the clock read number [k]. *)
Definition tools_id (ent : Entropy) (k : nat) : string :=
  "windsurf-tools-" ++ Js.of_Z (date_now ent k).

(** The callback of [map] reads the clock once per tool call, before the
    two reads of the object literal. *)
Definition buildToolCallPayload (ent : Entropy) (model_name : string)
           (toolCalls : list ToolCall) : JValue :=
  let mapped :=
    map_indexed (fun tc i => JObject [ ("id", JString (call_id ent i i));
                                       ("type", JString "function");
                                       ("function", function_of tc) ])
                0 toolCalls in
  JObject
    [ ("id", JString (tools_id ent (length toolCalls)));
      ("object", JString "chat.completion");
      ("created", created_at ent (S (length toolCalls)));
      ("model", JString model_name);
      ("choices",
       JArray [ JObject [ ("index", Json.num 0);
                          ("message", JObject [ ("role", JString "assistant");
                                                ("content", JString "");
                                                ("tool_calls", JArray mapped) ]);
                          ("finish_reason", JString "tool_calls") ] ]) ].

(** [plan?.action === 'final' ? plan.content : content] *)
Definition final_content (plan : option ToolCallPlan) (text : string) : JValue :=
  match plan with
  | Some (PlanFinal c) => c
  | _ => JString text
  end.

Definition handleToolPlanning (ent : Entropy) (credentials : WindsurfCredentials)
           (request : ChatCompletionRequest) : Result Response :=
  r <- planToolCall credentials request ;;
  let '(plan, text, model_name) := r in
  let payload :=
    match plan with
    | Some (PlanToolCall tcs) => buildToolCallPayload ent model_name tcs
    | _ =>
        JObject
          [ ("id", JString (tools_id ent 0));
            ("object", JString "chat.completion");
            ("created", created_at ent 1);
            ("model", JString model_name);
            ("choices",
             JArray [ JObject [ ("index", Json.num 0);
                                ("message",
                                 JObject [ ("role", JString "assistant");
                                           ("content", final_content plan text) ]);
                                ("finish_reason", JString "stop") ] ]) ]
    end in
  Ok {| status := 200; content_type := "application/json"; body := JsonBody payload |}.

(** The chunk of [handleToolPlanningStream], with its [delta] and
    [finish_reason]; [id] and [created] take the first two reads of the
    clock. *)
Definition planning_chunk (ent : Entropy) (model_name : string) (delta : JValue)
           (finish : string) : JValue :=
  JObject
    [ ("id", JString (tools_id ent 0));
      ("object", JString "chat.completion.chunk");
      ("created", created_at ent 1);
      ("model", JString model_name);
      ("choices",
       JArray [ JObject [ ("index", Json.num 0);
                          ("delta", delta);
                          ("finish_reason", JString finish) ] ]) ].

Definition handleToolPlanningStream (ent : Entropy) (credentials : WindsurfCredentials)
           (request : ChatCompletionRequest) : list SseEvent :=
  match planToolCall credentials request with
  | Ok (plan, text, model_name) =>
      match plan with
      | Some (PlanToolCall tcs) =>
          let mapped :=
            map_indexed (fun tc i => JObject [ ("index", Json.num (Z.of_nat i));
                                               ("id", JString (call_id ent (2 + i) i));
                                               ("type", JString "function");
                                               ("function", function_of tc) ])
                        0 tcs in
          [ SseData (planning_chunk ent model_name
                       (JObject [ ("role", JString "assistant");
                                  ("tool_calls", JArray mapped) ])
                       "tool_calls");
            SseDone ]
      | _ =>
          [ SseData (planning_chunk ent model_name
                       (JObject [("content", final_content plan text)])
                       "stop");
            SseDone ]
      end
  | Throw e => [ SseData (stream_error e); SseDone ]
  end.

Definition openAIError (code : Z) (message : string) (details : option string)
  : Response :=
  {| status := code;
     content_type := "application/json";
     body :=
       JsonBody
         (JObject
            [("error",
              JObject [ ("message",
                         JString (match details with
                                  | Some d =>
                                      if Js.is_empty d then message
                                      else message ++ String Js.LF d
                                  | None => message
                                  end));
                        ("type", JString "windsurf_error");
                        ("param", JNull);
                        ("code", JNull) ])]) |}.

(* ---------------------------------------------------------------- *)
(** *** server.ts *)

(** [hasToolsField || hasToolMessages] *)
Definition uses_tool_planner (request : ChatCompletionRequest) : bool :=
  let hasToolsField :=
    match tools request with
    | Some (_ :: _) => true
    | _ => false
    end in
  let hasToolMessages :=
    match messages request with
    | Some msgs =>
        existsb (fun m => String.eqb (role m) "tool"
                          || (String.eqb (role m) "assistant"
                              && match tool_calls m with
                                 | Some (_ :: _) => true
                                 | _ => false
                                 end))
                msgs
    | None => false
    end in
  hasToolsField || hasToolMessages.

Definition event_stream (events : list SseEvent) : Response :=
  {| status := 200; content_type := "text/event-stream"; body := EventStream events |}.

(** [await req.json().catch(() => ({}))] *)
Definition body_of (req : HttpRequest) : ChatCompletionRequest :=
  match json req with
  | Some requestBody => requestBody
  | None => empty_body
  end.

(** The [try] block of the chat completions route; [w] is the system as
    [getCredentials()] finds it. *)
Definition serve_chat (w : World) (ent : Entropy) (req : HttpRequest) : Result Response :=
  credentials <- getCredentials w ;;
  let requestBody := body_of req in
  if uses_tool_planner requestBody then
    if stream requestBody
    then Ok (event_stream (handleToolPlanningStream ent credentials requestBody))
    else handleToolPlanning ent credentials requestBody
  else if stream requestBody
  then Ok (event_stream (createStreamingResponse ent credentials requestBody))
  else
    responseData <- createNonStreamingResponse ent credentials requestBody ;;
    Ok {| status := 200; content_type := "application/json";
          body := JsonBody responseData |}.

(** The chat completions route.  [isWindsurfRunning()] and
    [getCredentials()] each list the processes anew: [gate] is the system
    as the first finds it, [w] as the second does. *)
Definition chat_completions (gate w : World) (ent : Entropy) (req : HttpRequest)
  : Response :=
  if negb (isWindsurfRunning gate) then
    openAIError 503 "Windsurf is not running. Please launch Windsurf first." None
  else
    match serve_chat w ent req with
    | Ok response => response
    | Throw err => openAIError 500 "Chat completion failed" (Some (exn_message err))
    end.

Definition models_listing (ent : Entropy) : JValue :=
  JObject
    [ ("object", JString "list");
      ("data",
       JArray
         (map_indexed
              (fun id i =>
                 JObject
                   ([ ("id", JString id);
                      ("object", JString "model");
                      ("created", created_at ent i);
                      ("owned_by", JString "windsurf") ]
                    ++ match getModelVariants id with
                       | Some vs =>
                           [("variants",
                             JArray (map (fun v : string * string =>
                                            JObject [ ("id", JString (fst v));
                                                      ("description", JString (snd v)) ])
                                         vs))]
                       | None => []
                       end))
              0 getCanonicalModels)) ].

(** [fetch]; [gate] is the system as the call of [isWindsurfRunning()]
    finds it, [w] as [getCredentials()] finds it afterwards. *)
Definition fetch (gate w : World) (ent : Entropy) (req : HttpRequest) : Response :=
  let path := pathname req in
  if String.eqb path "/health" then
    {| status := 200; content_type := "application/json";
       body := JsonBody (JObject [ ("ok", JBool true);
                                   ("windsurf", JBool (isWindsurfRunning gate)) ]) |}
  else if String.eqb path "/v1/models" || String.eqb path "/models" then
    {| status := 200; content_type := "application/json";
       body := JsonBody (models_listing ent) |}
  else if String.eqb path "/v1/chat/completions" || String.eqb path "/chat/completions"
  then chat_completions gate w ent req
  else openAIError 404 ("Unsupported path: " ++ path) None.

(** The messages a request hands to the generator, and the model string
    that goes with them, read off the dispatch of [serve_chat]; a request
    without messages throws before the generator is created. *)
Definition forwarded_messages (request : ChatCompletionRequest)
  : Result (list ChatMessage) :=
  msgs <- messages_or_throw request ;;
  Ok (if uses_tool_planner request then planner_messages (tool_prompt request msgs)
      else convert_messages msgs).


End Bridge.

(* ================================================================== *)
(** ** A reference runtime *)
(* ================================================================== *)

(** [JSON.parse] on a fragment of JSON: objects whose keys are not digit
    runs (JavaScript lists such keys first), arrays, strings with the short
    escapes and [\u00XX], integer literals of at most fifteen digits, [true],
    [false], [null].  Texts outside the fragment are rejected.  It
    instantiates the runtime where a theorem is applied to concrete input. *)
Module RefJson.

Definition DQ : ascii := ascii_of_N 34.
Definition BACKSLASH : ascii := ascii_of_N 92.

(** JSON white space: space, tab, line feed, carriage return. *)
Definition is_ws (c : ascii) : bool :=
  let n := Js.code c in ((n =? 32) || (n =? 9) || (n =? 10) || (n =? 13))%N.

Definition skip_ws (s : string) : string := Js.drop_while is_ws s.

Definition unescape (c : ascii) : option ascii :=
  let n := Js.code c in
  if (n =? 34)%N then Some DQ
  else if (n =? 92)%N then Some BACKSLASH
  else if (n =? 47)%N then Some "/"%char
  else if (n =? 98)%N then Some (ascii_of_N 8)
  else if (n =? 102)%N then Some (ascii_of_N 12)
  else if (n =? 110)%N then Some (ascii_of_N 10)
  else if (n =? 114)%N then Some (ascii_of_N 13)
  else if (n =? 116)%N then Some (ascii_of_N 9)
  else None.

Definition hex_val (c : ascii) : option N :=
  let n := Js.code c in
  if Js.is_digit c then Some (n - 48)%N
  else if ((97 <=? n) && (n <=? 102))%N then Some (n - 87)%N
  else if ((65 <=? n) && (n <=? 70))%N then Some (n - 55)%N
  else None.

(** The characters of a string literal after its opening quote: the
    decoded string and the text after the closing quote. *)
Fixpoint string_body (s : string) : option (string * string) :=
  match s with
  | EmptyString => None
  | String c s1 =>
      if Ascii.eqb c DQ then Some (EmptyString, s1)
      else if Ascii.eqb c BACKSLASH then
        match s1 with
        | String e s2 =>
            match unescape e with
            | Some d =>
                match string_body s2 with
                | Some (b, r) => Some (String d b, r)
                | None => None
                end
            | None =>
                match s2 with
                | String h1 (String h2 (String h3 (String h4 s6))) =>
                    if Ascii.eqb e "u" && Ascii.eqb h1 "0" && Ascii.eqb h2 "0" then
                      match hex_val h3, hex_val h4, string_body s6 with
                      | Some a, Some b, Some (t, r) =>
                          Some (String (ascii_of_N (16 * a + b)) t, r)
                      | _, _, _ => None
                      end
                    else None
                | _ => None
                end
            end
        | EmptyString => None
        end
      else if (Js.code c <? 32)%N then None
      else
        match string_body s1 with
        | Some (b, r) => Some (String c b, r)
        | None => None
        end
  end.

(** An integer literal at the head of [s]: an optional minus sign, then
    [0] or a digit run that does not start with [0]; not followed by a
    fraction or an exponent. *)
Definition number_at (s : string) : option (JValue * string) :=
  let (neg, r) :=
    match s with
    | String c r => if Ascii.eqb c "-" then (true, r) else (false, s)
    | EmptyString => (false, s)
    end in
  let ds := Js.take_while Js.is_digit r in
  let rest := Js.drop_while Js.is_digit r in
  let leading_zero :=
    match ds with
    | String c (String _ _) => Ascii.eqb c "0"
    | _ => false
    end in
  let continues :=
    match rest with
    | String c _ => Ascii.eqb c "." || Ascii.eqb c "e" || Ascii.eqb c "E"
    | EmptyString => false
    end in
  if Js.is_empty ds || leading_zero || continues
     || Nat.ltb 15 (String.length ds)
  then None
  else
    let x := PrimFloat.of_uint63 (Uint63.of_Z (Js.parseInt10 ds)) in
    Some (JNumber (if neg then PrimFloat.opp x else x), rest).

(** A keyword at the head of [s]. *)
Definition keyword_at (kw : string) (v : JValue) (s : string)
  : option (JValue * string) :=
  if String.prefix kw s then Some (v, Js.drop (String.length kw) s) else None.

(** A key made of digits only: an array index, which an object lists
    before its other keys. *)
Definition is_index_key (key : string) : bool :=
  negb (Js.is_empty key) && Js.is_empty (Js.drop_while Js.is_digit key).

(** Defining a property while parsing: a repeated key keeps its place and
    takes the later value. *)
Definition define (props : list (string * JValue)) (key : string) (value : JValue)
  : list (string * JValue) :=
  match set_existing key value props with
  | Some props' => props'
  | None => props ++ [(key, value)]
  end.

Fixpoint value_at (fuel : nat) (s : string) : option (JValue * string) :=
  match fuel with
  | O => None
  | S n =>
      match skip_ws s with
      | EmptyString => None
      | String c r =>
          if Ascii.eqb c "{" then
            match skip_ws r with
            | String d r' =>
                if Ascii.eqb d "}" then Some (JObject [], r')
                else
                  match members_at n [] (skip_ws r) with
                  | Some (props, rest) => Some (JObject props, rest)
                  | None => None
                  end
            | EmptyString => None
            end
          else if Ascii.eqb c "[" then
            match skip_ws r with
            | String d r' =>
                if Ascii.eqb d "]" then Some (JArray [], r')
                else
                  match elements_at n (skip_ws r) with
                  | Some (items, rest) => Some (JArray items, rest)
                  | None => None
                  end
            | EmptyString => None
            end
          else if Ascii.eqb c DQ then
            match string_body r with
            | Some (b, rest) => Some (JString b, rest)
            | None => None
            end
          else if Ascii.eqb c "t" then keyword_at "true" (JBool true) (String c r)
          else if Ascii.eqb c "f" then keyword_at "false" (JBool false) (String c r)
          else if Ascii.eqb c "n" then keyword_at "null" JNull (String c r)
          else number_at (String c r)
      end
  end

(** [value (, value)* ]] *)
with elements_at (fuel : nat) (s : string) : option (list JValue * string) :=
  match fuel with
  | O => None
  | S n =>
      match value_at n s with
      | Some (v, r) =>
          match skip_ws r with
          | String c r' =>
              if Ascii.eqb c "," then
                match elements_at n r' with
                | Some (vs, rest) => Some (v :: vs, rest)
                | None => None
                end
              else if Ascii.eqb c "]" then Some ([v], r')
              else None
          | EmptyString => None
          end
      | None => None
      end
  end

(** [string : value (, string : value)* }], onto the properties read so
    far. *)
with members_at (fuel : nat) (acc : list (string * JValue)) (s : string)
  : option (list (string * JValue) * string) :=
  match fuel with
  | O => None
  | S n =>
      match s with
      | String q r0 =>
          if Ascii.eqb q DQ then
            match string_body r0 with
            | Some (key, r1) =>
                match skip_ws r1 with
                | String c r2 =>
                    if is_index_key key then None
                    else if Ascii.eqb c ":" then
                      match value_at n r2 with
                      | Some (v, r3) =>
                          match skip_ws r3 with
                          | String d r4 =>
                              if Ascii.eqb d "," then
                                members_at n (define acc key v) (skip_ws r4)
                              else if Ascii.eqb d "}" then
                                Some (define acc key v, r4)
                              else None
                          | EmptyString => None
                          end
                      | None => None
                      end
                    else None
                | EmptyString => None
                end
            | None => None
            end
          else None
      | EmptyString => None
      end
  end.

Definition parse (text : string) : option JValue :=
  match value_at (2 * String.length text + 2) text with
  | Some (v, rest) => if Js.is_empty (skip_ws rest) then Some v else None
  | None => None
  end.

End RefJson.

(** [JSON.stringify] on the values of the fragment: numbers are rendered
    when they are integers (others, which [RefJson.parse] never produces,
    as [null]); [indent] is the third argument of [JSON.stringify]. *)
(** [toUpperCase] on strings of code units below 128, where upper-casing
    changes the letters a-z and nothing else. *)
Module RefUpper.

Definition upper (c : ascii) : ascii :=
  if Js.is_lower c then ascii_of_N (Js.code c - 32) else c.

Fixpoint toUpperCase (s : string) : string :=
  match s with
  | EmptyString => EmptyString
  | String c s' => String (upper c) (toUpperCase s')
  end.

End RefUpper.

Module RefStringify.

Definition hex_digit (n : N) : ascii :=
  if (n <? 10)%N then ascii_of_N (48 + n) else ascii_of_N (87 + n).

Definition escape_char (c : ascii) : string :=
  let n := Js.code c in
  if (n =? 34)%N then String RefJson.BACKSLASH (String RefJson.DQ EmptyString)
  else if (n =? 92)%N then String RefJson.BACKSLASH (String RefJson.BACKSLASH EmptyString)
  else if (n =? 8)%N then String RefJson.BACKSLASH "b"
  else if (n =? 12)%N then String RefJson.BACKSLASH "f"
  else if (n =? 10)%N then String RefJson.BACKSLASH "n"
  else if (n =? 13)%N then String RefJson.BACKSLASH "r"
  else if (n =? 9)%N then String RefJson.BACKSLASH "t"
  else if (n <? 32)%N then
    String RefJson.BACKSLASH
      ("u00" ++ String (hex_digit (n / 16)) (String (hex_digit (n mod 16)) EmptyString))
  else String c EmptyString.

Fixpoint escape (s : string) : string :=
  match s with
  | EmptyString => EmptyString
  | String c s' => escape_char c ++ escape s'
  end.

Definition quote (s : string) : string :=
  String RefJson.DQ (escape s ++ String RefJson.DQ EmptyString).

Definition number_text (x : float) : string :=
  match Prim2SF x with
  | SpecFloat.S754_zero _ => "0"
  | SpecFloat.S754_finite sign m e =>
      let mag :=
        if (0 <=? e)%Z then Some (Z.pos m * 2 ^ e)%Z
        else if (Z.pos m mod 2 ^ (- e) =? 0)%Z then Some (Z.pos m / 2 ^ (- e))%Z
        else None in
      match mag with
      | Some z => (if sign then "-" else "") ++ Js.of_Z z
      | None => "null"
      end
  | _ => "null"
  end.

Fixpoint spaces (n : nat) : string :=
  match n with
  | O => EmptyString
  | S n' => String " " (spaces n')
  end.

(** The separator before an item at nesting [level]. *)
Definition newline (indent : option nat) (level : nat) : string :=
  match indent with
  | Some k => String Js.LF (spaces (k * level))
  | None => EmptyString
  end.

Definition is_undefined (v : JValue) : bool :=
  match v with JUndefined => true | _ => false end.

Fixpoint render (indent : option nat) (level : nat) (v : JValue) : string :=
  match v with
  | JUndefined | JNull => "null"
  | JBool true => "true"
  | JBool false => "false"
  | JNumber x => number_text x
  | JString s => quote s
  | JArray items =>
      match items with
      | [] => "[]"
      | _ =>
          "[" ++ newline indent (S level)
          ++ Js.join ("," ++ newline indent (S level))
                     (map (render indent (S level)) items)
          ++ newline indent level ++ "]"
      end
  | JObject props =>
      let shown :=
        (fix members (l : list (string * JValue)) : list string :=
           match l with
           | [] => []
           | (k, x) :: rest =>
               if is_undefined x then members rest
               else (quote k ++ ":" ++ (match indent with Some _ => " " | None => "" end)
                     ++ render indent (S level) x) :: members rest
           end) props in
      match shown with
      | [] => "{}"
      | _ =>
          "{" ++ newline indent (S level)
          ++ Js.join ("," ++ newline indent (S level)) shown
          ++ newline indent level ++ "}"
      end
  end.

Definition stringify (v : JValue) : string := render None 0 v.
Definition stringify_pretty (v : JValue) : string := render (Some 2) 0 v.

End RefStringify.

(** A registry with the entries the documentation and the unit tests give:
    enum values from the model table of WINDSURF_API_SPEC.md, UIDs and the
    alias from variant.test.ts. *)
Module RefRegistry.

Definition enum_variant (e : Z) (d : string) : VariantSpec :=
  {| vs_enum_value := Some e; vs_model_uid := None; vs_description := d |}.

Definition uid_variant (u d : string) : VariantSpec :=
  {| vs_enum_value := None; vs_model_uid := Some u; vs_description := d |}.

Definition ALIAS_TO_CANONICAL (s : string) : option string :=
  if String.eqb s "gemini-3-0-pro" then Some "gemini-3.0-pro"
  else if String.eqb s "gpt-5-2" then Some "gpt-5.2"
  else None.

Definition VARIANT_CATALOG (s : string) : option CatalogEntry :=
  if String.eqb s "gpt-5.2" then
    Some {| default_variant := None;
            variants := [ ("low", enum_variant 400 "GPT-5.2 Low");
                          ("medium", enum_variant 401 "GPT-5.2");
                          ("high", enum_variant 402 "GPT-5.2 High");
                          ("xhigh", enum_variant 403 "GPT-5.2 XHigh") ] |}
  else if String.eqb s "gpt-5.3-codex" then
    Some {| default_variant := Some "medium";
            variants := [ ("medium", uid_variant "gpt-5-3-codex-medium" "GPT-5.3 Codex");
                          ("xhigh-fast",
                           uid_variant "gpt-5-3-codex-xhigh-priority"
                                       "GPT-5.3 Codex XHigh Fast") ] |}
  else None.

Definition NAME_TO_ENUM (s : string) : option Z :=
  if String.eqb s "claude-3.5-sonnet" then Some 166%Z
  else if String.eqb s "gpt-4o" then Some 109%Z
  else if String.eqb s "gpt-5.2" then Some 401%Z
  else if String.eqb s "gemini-3.0-pro" then Some 412%Z
  else None.

Definition getCanonicalModels : list string :=
  ["claude-3.5-sonnet"; "gpt-4o"; "gpt-5.2"; "gpt-5.3-codex"; "gemini-3.0-pro"].

Definition is_canonical (s : string) : bool :=
  existsb (String.eqb s) getCanonicalModels.

Definition getDefaultModel : string := "claude-3.5-sonnet".

Definition getModelVariants (s : string) : option (list (string * string)) :=
  match VARIANT_CATALOG s with
  | Some entry => Some (map (fun kv => (fst kv, vs_description (snd kv))) (variants entry))
  | None => None
  end.

End RefRegistry.

(* ================================================================== *)
(** ** Vocabulary of the properties *)
(* ================================================================== *)

(** [m] is a least element of [l]. *)
Definition least_of (m : Z) (l : list Z) : Prop :=
  In m l /\ forall x, In x l -> (m <= x)%Z.

(** The ports above [e]. *)
Definition above (e : Z) (ports : list Z) : list Z :=
  filter (fun p => (e <? p)%Z) ports.

(** What the selection rule asks for: the least port above [e] when there
    is one, else the least port. *)
Definition selection_rule (ports : list Z) (e : Z) (p : Z) : Prop :=
  (above e ports <> [] -> least_of p (above e ports))
  /\ (above e ports = [] -> least_of p ports).

(** macOS probes that list port 50000 before port 40000. *)
Definition unsorted_lsof : PortProbes :=
  {| proc_listening := []; ss_listening := []; lsof_listening := [50000; 40000]%Z |}.

(** The lines of the process listing; none when the command fails. *)
Definition listing_lines (w : World) : list string :=
  match ps_output w with
  | Some output => Js.split Js.LF output
  | None => []
  end.

Definition error_code (e : Exn) : option WindsurfErrorCode :=
  match e with
  | WindsurfError _ c => Some c
  | JsError _ => None
  end.

(** [text] parses as JSON whose [apiKey] is the truthy value [k]. *)
Definition yields_apiKey (JSON_parse : string -> option JValue)
           (text : string) (k : JValue) : Prop :=
  exists parsed,
    JSON_parse text = Some parsed
    /\ Json.get parsed "apiKey" = k
    /\ Json.truthy k = true.

(** The state database is there and the value stored under the auth-status
    key, trimmed, is non-empty JSON with the API key [k]. *)
Definition sqlite_yields (JSON_parse : string -> option JValue)
           (w : World) (k : JValue) : Prop :=
  state_db_exists w = true
  /\ exists out,
       state_db_value w = Some out
       /\ Js.trim out <> EmptyString
       /\ yields_apiKey JSON_parse (Js.trim out) k.

(** The legacy configuration file is there and holds the API key [k]. *)
Definition legacy_yields (JSON_parse : string -> option JValue)
           (w : World) (k : JValue) : Prop :=
  legacy_exists w = true
  /\ exists text,
       legacy_content w = Some text
       /\ yields_apiKey JSON_parse text k.

Definition is_chat_path (p : string) : bool :=
  String.eqb p "/v1/chat/completions" || String.eqb p "/chat/completions".

(** The uniform error body: [{error: {message, type: "windsurf_error",
    param: null, code: null}}]. *)
Definition openai_error_body (b : ResponseBody) : Prop :=
  exists m,
    b = JsonBody
          (JObject
             [("error", JObject [ ("message", JString m);
                                  ("type", JString "windsurf_error");
                                  ("param", JNull);
                                  ("code", JNull) ])]).

(** The property names of an object. *)
Definition keys (props : list (string * JValue)) : list string := map fst props.

(** What the loop of [normalizeToolArguments] over [Object.entries]
    maintains: distinct keys, none of them [__proto__], and only values
    produced by [f]. *)
Definition built_by (f : JValue -> JValue) (result : list (string * JValue)) : Prop :=
  NoDup (keys result)
  /\ ~ In "__proto__" (keys result)
  /\ forall kv, In kv result -> exists x, snd kv = f x.

(** The size of the values of an object. *)
Definition psize (props : list (string * JValue)) : nat :=
  list_sum (map (fun kv : string * JValue => match kv with (_, x) => jsize x end) props).

(** A plan as the type [ToolCallPlan] promises it: a final answer holds a
    string, every tool call has a string for its name. *)
Definition well_formed_plan (p : option ToolCallPlan) : Prop :=
  match p with
  | None => True
  | Some (PlanFinal c) => Json.is_string c = true
  | Some (PlanToolCall calls) =>
      Forall (fun tc => Json.is_string (tc_name tc) = true) calls
  end.

(** Reading a chunk: [choices[0]], its [delta] and its [finish_reason]. *)
Definition first_choice (payload : JValue) : JValue :=
  match Json.get payload "choices" with
  | JArray (c :: _) => c
  | _ => JUndefined
  end.

Definition delta_of (payload : JValue) : JValue :=
  Json.get (first_choice payload) "delta".

Definition finish_reason_of (payload : JValue) : JValue :=
  Json.get (first_choice payload) "finish_reason".

(** A content chunk: the text in its delta, [finish_reason: null]. *)
Definition is_content_chunk (text : string) (payload : JValue) : Prop :=
  delta_of payload = JObject [("content", JString text)]
  /\ finish_reason_of payload = JNull.

(** The stop chunk: empty content in its delta, [finish_reason: "stop"]. *)
Definition is_stop_chunk (payload : JValue) : Prop :=
  delta_of payload = JObject [("content", JString EmptyString)]
  /\ finish_reason_of payload = JString "stop".

(** An entry of [tool_calls] in a response stands for the call [tc] of the
    plan: a function call with the name of [tc] and its arguments as JSON
    text, [{}] when they are [null] or [undefined]. *)
Definition carries_call (JSON_stringify : JValue -> string) (tc : ToolCall)
           (entry : JValue) : Prop :=
  Json.get entry "type" = JString "function"
  /\ Json.get (Json.get entry "function") "name" = tc_name tc
  /\ Json.get (Json.get entry "function") "arguments"
     = JString (JSON_stringify (nullish (tc_arguments tc) (JObject []))).




(* ------------------------------------------------------------------ *)
(** *** Sample systems and requests *)

Module Sample.

Definition q := Js.quoted.

Definition no_probes : PortProbes :=
  {| proc_listening := []; ss_listening := []; lsof_listening := [] |}.

(** A Linux listing with one language server that carries a CSRF token. *)
Definition server_line : string :=
  "dev   4242  0.3  1.2 /opt/windsurf/language_server_linux_x64 --api_server_url https://server.codeium.com --csrf_token 0a1b2c3d-77ff --extension_server_port 41000 --windsurf_version 1.13.104+next.abc".

(** The same process started without [--csrf_token]. *)
Definition tokenless_line : string :=
  "dev   4242  0.3  1.2 /opt/windsurf/language_server_linux_x64 --api_server_url https://server.codeium.com --extension_server_port 41000".

Definition grep_line : string :=
  "dev   4250  0.0  0.0 grep language_server_linux_x64".

Definition listening_41002 (p : string) : PortProbes :=
  {| proc_listening := [41002]%Z; ss_listening := []; lsof_listening := [] |}.

(** The language server runs and the user is logged in. *)
Definition ready_world : World :=
  {| platform := linux;
     ps_output := Some (server_line ++ String Js.LF grep_line);
     port_probes := listening_41002;
     state_db_exists := true;
     state_db_value := Some (q "{`apiKey`:`sk-ws-01`,`name`:`dev`}" ++ String Js.LF EmptyString);
     legacy_exists := false;
     legacy_content := None |}.

(** The language server runs; neither the state database nor the legacy
    file exists. *)
Definition keyless_world : World :=
  {| platform := linux;
     ps_output := Some (server_line ++ String Js.LF grep_line);
     port_probes := listening_41002;
     state_db_exists := false;
     state_db_value := None;
     legacy_exists := false;
     legacy_content := None |}.

(** The only language server in the listing has no CSRF token. *)
Definition tokenless_world : World :=
  {| platform := linux;
     ps_output := Some (tokenless_line ++ String Js.LF grep_line);
     port_probes := listening_41002;
     state_db_exists := true;
     state_db_value := Some (q "{`apiKey`:`sk-ws-01`}");
     legacy_exists := false;
     legacy_content := None |}.

(** A platform outside the state-path table, with a legacy key. *)
Definition freebsd_world : World :=
  {| platform := freebsd;
     ps_output := None;
     port_probes := fun _ => no_probes;
     state_db_exists := false;
     state_db_value := None;
     legacy_exists := true;
     legacy_content := Some (q "{`apiKey`:`sk-legacy-02`}") |}.

(** What [getCredentials] returns on [ready_world]. *)
Definition credentials : WindsurfCredentials :=
  {| cred_csrfToken := "0a1b2c3d-77ff";
     cred_port := 41002;
     cred_apiKey := JString "sk-ws-01";
     cred_version := "1.13.104" |}.

Definition entropy : Entropy :=
  {| date_now := fun k => (1762041600123 + Z.of_nat k)%Z; random_uuid := "3f2b7c1e-0000-4000-8000-5a5a5a5a5a5a" |}.

(** A language server that answers every prompt with [hello]. *)
Definition hello_server (c : WindsurfCredentials) (model_name text : string)
  : GeneratorRun :=
  {| yielded := ["hello"]; thrown := None |}.

(** A language server that answers every prompt with a plan of one tool
    call. *)
Definition planning_server (c : WindsurfCredentials) (model_name text : string)
  : GeneratorRun :=
  {| yielded := [Js.quoted "{`action`:`tool_call`,`tool_calls`:[{`name`:`read_file`,`arguments`:{`path`:`a.txt`}}]}"];
     thrown := None |}.

(** The messages of [tool_request] below. *)
Definition tool_conversation : list RequestMessage :=
  [ {| role := "user"; content := ContentString "list the files"; name := None;
       tool_call_id := None; tool_calls := None |};
    {| role := "assistant"; content := ContentString "reading the directory";
       name := None; tool_call_id := None; tool_calls := None |};
    {| role := "tool"; content := ContentString "a.txt";
       name := Some "list_dir"; tool_call_id := Some "call_7";
       tool_calls := None |} ].

Definition user_message (text : string) : RequestMessage :=
  {| role := "user"; content := ContentString text; name := None;
     tool_call_id := None; tool_calls := None |}.

Definition plain_request : ChatCompletionRequest :=
  {| model := Some "gpt-5.2:high";
     messages := Some [user_message "hi"];
     stream := false;
     tools := None;
     providerOptions := JUndefined |}.

(** A streamed conversation that already holds an assistant turn and a
    tool result, which sends it to the planner. *)
Definition tool_request : ChatCompletionRequest :=
  {| model := Some "gpt-5.2";
     messages := Some tool_conversation;
     stream := true;
     tools := None;
     providerOptions := JUndefined |}.

Definition streamed (r : ChatCompletionRequest) : ChatCompletionRequest :=
  {| model := model r; messages := messages r; stream := true;
     tools := tools r; providerOptions := providerOptions r |}.

Definition chat_post (r : ChatCompletionRequest) : HttpRequest :=
  {| pathname := "/v1/chat/completions"; json := Some r |}.

(** [resolveModel] over the reference registry. *)
Definition resolve_ref : string -> option string -> ResolvedModel :=
  resolveModel RefRegistry.ALIAS_TO_CANONICAL RefRegistry.VARIANT_CATALOG
               RefRegistry.NAME_TO_ENUM RefRegistry.is_canonical.

(** [fetch] over the reference runtime and registry. *)
Definition fetch_ref (server : WindsurfCredentials -> string -> string -> GeneratorRun)
  : World -> World -> Entropy -> HttpRequest -> Response :=
  fetch RefJson.parse RefStringify.stringify RefStringify.stringify_pretty
        RefUpper.toUpperCase server
        RefRegistry.ALIAS_TO_CANONICAL RefRegistry.VARIANT_CATALOG
        RefRegistry.NAME_TO_ENUM RefRegistry.is_canonical
        RefRegistry.getDefaultModel RefRegistry.getCanonicalModels
        RefRegistry.getModelVariants.

End Sample.

From Stdlib Require Import DecimalZ FinFun.

(* ================================================================== *)
(** ** grpc-client.ts: numbers and buffers *)
(* ================================================================== *)

(** JavaScript's 32-bit integer operators, on integral numbers. *)
Module Int32.

(** [ToInt32] *)
Definition wrap (z : Z) : Z :=
  ((z + 2147483648) mod 4294967296 - 2147483648)%Z.

(** [x << n] *)
Definition shl (x n : Z) : Z := wrap (Z.shiftl (wrap x) (n mod 32)).

(** [x >> n] *)
Definition sar (x n : Z) : Z := Z.shiftr (wrap x) (n mod 32).

(** [x | y] *)
Definition bor (x y : Z) : Z := Z.lor (wrap x) (wrap y).

(** [x & y] *)
Definition band (x y : Z) : Z := Z.land (wrap x) (wrap y).

End Int32.

(** A [number[]] of integers and a [Buffer] are both lists of integers; the
    elements of a [Buffer] lie between 0 and 255. *)
Module Buffer.

(** [Buffer.from(bytes)] for an array of integers: each one modulo 256. *)
Definition from (bytes : list Z) : list Z :=
  map (fun x => Z.land x 255) bytes.

(** [buf[p]]; [None] stands for [undefined], which is what an index outside
    the buffer reads. *)
Definition get (buf : list Z) (p : Z) : option Z :=
  if (p <? 0)%Z then None else nth_error buf (Z.to_nat p).

(** How [subarray] reads an index: a negative one counts from the end, and
    the result is kept inside the buffer. *)
Definition clamp (len i : Z) : Z :=
  if (i <? 0)%Z then Z.max (len + i) 0 else Z.min i len.

(** [buf.subarray(start, stop)] *)
Definition subarray (buf : list Z) (start stop : Z) : list Z :=
  let len := Z.of_nat (length buf) in
  let first := clamp len start in
  let last := clamp len stop in
  firstn (Z.to_nat (last - first)) (skipn (Z.to_nat first) buf).

(** The four bytes [writeUInt32BE(n, ...)] stores, for [n] below 2^32. *)
Definition uint32BE (n : Z) : list Z :=
  [ Z.land (Z.shiftr n 24) 255; Z.land (Z.shiftr n 16) 255;
    Z.land (Z.shiftr n 8) 255; Z.land n 255 ]%Z.

(** The number [readUInt32BE] makes of four bytes. *)
Definition readUInt32BE (b1 b2 b3 b4 : Z) : Z :=
  (b1 * 16777216 + b2 * 65536 + b3 * 256 + b4)%Z.

End Buffer.

(** [Buffer.from(str, 'utf8')] on the strings of this development, whose
    code units lie below 256: one byte below 128, two bytes from there. *)
Module Utf8.

Definition encode_char (c : ascii) : list Z :=
  let n := Z.of_N (Js.code c) in
  if (n <? 128)%Z then [n]
  else [Z.lor 192 (Z.shiftr n 6); Z.lor 128 (Z.land n 63)].

Fixpoint encode (s : string) : list Z :=
  match s with
  | EmptyString => []
  | String c s' => (encode_char c ++ encode s')%list
  end.

End Utf8.

(* ================================================================== *)
(** ** grpc-client.ts: protobuf encoding *)
(* ================================================================== *)

(** The loop of [encodeVarint], on the integer [BigInt(value)] gives;
    [fuel] bounds its iterations. *)
Fixpoint encodeVarint_loop (fuel : nat) (v : Z) : list Z :=
  if (127 <? v)%Z then
    match fuel with
    | O => []
    | S n => Z.lor (Z.land v 127) 128 :: encodeVarint_loop n (Z.shiftr v 7)
    end
  else [v].

(** [encodeVarint(value)] for an integral [value].  Each iteration drops
    seven bits, so the binary length of [value] is fuel enough. *)
Definition encodeVarint (value : Z) : list Z :=
  encodeVarint_loop (Z.to_nat (Z.log2 value)) value.

(** [(fieldNum << 3) | wire] *)
Definition tag_of (fieldNum wireType : Z) : Z :=
  Int32.bor (Int32.shl fieldNum 3) wireType.

(** The body of [encodeString], from the bytes [Buffer.from(str, 'utf8')]
    gives. *)
Definition encodeBytes (fieldNum : Z) (strBytes : list Z) : list Z :=
  (encodeVarint (tag_of fieldNum 2)
   ++ encodeVarint (Z.of_nat (length strBytes)) ++ strBytes)%list.

(** [encodeString(fieldNum, str)] *)
Definition encodeString (fieldNum : Z) (str : string) : list Z :=
  encodeBytes fieldNum (Utf8.encode str).

(** [encodeMessage(fieldNum, data)] *)
Definition encodeMessage (fieldNum : Z) (data : list Z) : list Z :=
  (encodeVarint (tag_of fieldNum 2)
   ++ encodeVarint (Z.of_nat (length data)) ++ data)%list.

(** [encodeVarintField(fieldNum, value)] *)
Definition encodeVarintField (fieldNum value : Z) : list Z :=
  (encodeVarint (tag_of fieldNum 0) ++ encodeVarint value)%list.

(** [encodeCascadeConfig(modelUid)] *)
Definition encodeCascadeConfig (modelUid : string) : list Z :=
  let conversational : list Z := [] in
  let plannerConfig :=
    (encodeMessage 2 conversational
     ++ (if Js.is_empty modelUid then [] else encodeString 35 modelUid))%list in
  encodeMessage 1 plannerConfig.

(** [makeGrpcFrame(bytes)]: the compression flag 0, the length of the
    payload on four bytes, the payload.  A JavaScript array holds fewer
    than 2^32 elements, so the length always fits. *)
Definition makeGrpcFrame (bytes : list Z) : list Z :=
  let payload := Buffer.from bytes in
  (0%Z :: Buffer.uint32BE (Z.of_nat (length payload)) ++ payload)%list.

(** [buildStartCascadeRequest(metadata)] *)
Definition buildStartCascadeRequest (metadata : list Z) : list Z :=
  makeGrpcFrame (encodeMessage 1 metadata ++ encodeVarintField 4 3)%list.

(** [buildSendUserCascadeMessageRequest(cascadeId, messages, metadata,
    modelUid)] *)
Definition buildSendUserCascadeMessageRequest (cascadeId : string)
           (msgs : list ChatMessage) (metadata : list Z) (modelUid : string)
  : list Z :=
  let text := cascade_text msgs in
  makeGrpcFrame
    (encodeString 1 cascadeId
     ++ encodeMessage 2 (encodeString 1 text)
     ++ encodeMessage 3 metadata
     ++ encodeMessage 5 (encodeCascadeConfig modelUid))%list.

(** [buildStreamRequest(cascadeId)] *)
Definition buildStreamRequest (cascadeId : string) : list Z :=
  makeGrpcFrame (encodeVarintField 1 1 ++ encodeString 2 cascadeId)%list.

(** The body the polling loop of [streamChatGenerator] sends. *)
Definition pollBody (cascadeId : string) : list Z :=
  makeGrpcFrame (encodeString 1 cascadeId ++ encodeVarintField 2 0)%list.

(* ================================================================== *)
(** ** grpc-client.ts: protobuf parsing *)
(* ================================================================== *)

(** [{ field, wire, value: Buffer | bigint }] *)
Inductive ProtoValue :=
| PBuffer (data : list Z)
| PBigInt (v : Z).

Record ProtoField := {
  field : Z;
  wire : Z;
  value : ProtoValue
}.

(** The loop that reads a tag or a length,
    [while (p < buf.length) { const b = buf[p++];
       acc |= (b & 0x7f) << shift; shift += 7; if (!(b & 0x80)) break; }],
    on the bytes from [p] on: the value, and how many bytes were read. *)
Fixpoint varint32 (bytes : list Z) (acc shift : Z) : Z * nat :=
  match bytes with
  | [] => (acc, O)
  | b :: rest =>
      let acc' := Int32.bor acc (Int32.shl (Int32.band b 127) shift) in
      if (Int32.band b 128 =? 0)%Z then (acc', 1%nat)
      else let '(v, n) := varint32 rest acc' (shift + 7) in (v, S n)
  end.

(** The same loop on [bigint]s, [v |= BigInt(b & 0x7f) << sh], which reads
    the value of a varint field. *)
Fixpoint varint_big (bytes : list Z) (acc shift : Z) : Z * nat :=
  match bytes with
  | [] => (acc, O)
  | b :: rest =>
      let acc' := Z.lor acc (Z.shiftl (Int32.band b 127) shift) in
      if (Int32.band b 128 =? 0)%Z then (acc', 1%nat)
      else let '(v, n) := varint_big rest acc' (shift + 7) in (v, S n)
  end.

(** One of the two loops, started at position [p] with a zero accumulator:
    the value and the position after it.  At a negative position [buf[p]]
    is [undefined], which contributes 0 and ends the loop after one
    step. *)
Definition read_at (loop : list Z -> Z -> Z -> Z * nat) (buf : list Z) (p : Z)
  : Z * Z :=
  if (p <? 0)%Z then (0%Z, (p + 1)%Z)
  else
    let '(v, n) := loop (skipn (Z.to_nat p) buf) 0%Z 0%Z in
    (v, (p + Z.of_nat n)%Z).

(** The loop of [parseProtoFields], from position [p] on.  A length read as
    a negative 32-bit number moves [p] backwards, so the loop need not
    end: [None] when [fuel] iterations did not reach its end. *)
Fixpoint parseProtoFields_from (fuel : nat) (buf : list Z) (p : Z)
  : option (list ProtoField) :=
  match fuel with
  | O => None
  | S n =>
      let len := Z.of_nat (length buf) in
      if negb (p <? len)%Z then Some []
      else
        let '(tag, p1) := read_at varint32 buf p in
        if (p1 =? p)%Z then Some []
        else
          let w := Int32.band tag 7 in
          let f := Int32.sar tag 3 in
          if (w =? 2)%Z then
            let '(l, p2) := read_at varint32 buf p1 in
            if (len <? p2 + l)%Z then Some []
            else
              option_map
                (cons {| field := f; wire := w;
                         value := PBuffer (Buffer.subarray buf p2 (p2 + l)) |})
                (parseProtoFields_from n buf (p2 + l))
          else if (w =? 0)%Z then
            let '(v, p2) := read_at varint_big buf p1 in
            option_map (cons {| field := f; wire := w; value := PBigInt v |})
                       (parseProtoFields_from n buf p2)
          else if (w =? 1)%Z then
            option_map
              (cons {| field := f; wire := w;
                       value := PBuffer (Buffer.subarray buf p1 (p1 + 8)) |})
              (parseProtoFields_from n buf (p1 + 8))
          else if (w =? 5)%Z then
            option_map
              (cons {| field := f; wire := w;
                       value := PBuffer (Buffer.subarray buf p1 (p1 + 4)) |})
              (parseProtoFields_from n buf (p1 + 4))
          else Some []
  end.

(** [parseProtoFields(buf)], within [fuel] iterations of its loop. *)
Definition parseProtoFields (fuel : nat) (buf : list Z) : option (list ProtoField) :=
  parseProtoFields_from fuel buf 0.

(* ================================================================== *)
(** ** grpc-client.ts: the Cascade session *)
(* ================================================================== *)

(** The field numbers [getMetadataFields()] of discovery.ts returns, as
    [encodeMetadata] reads them. *)
Record MetadataFields := {
  api_key : Z;
  ide_name : Z;
  ide_version : Z;
  extension_version : Z;
  session_id : Z;
  locale : Z
}.

(** How a call of [grpcUnary] settles: rejected with an error, or resolved
    with the response bytes, the [grpc-status] and the [grpc-message]. *)
Inductive UnaryOutcome :=
| Rejected (message : string)
| Resolved (buf : list Z) (status message : string).

Definition GRPC_startCascade : string :=
  "/exa.language_server_pb.LanguageServerService/StartCascade".
Definition GRPC_sendUserCascadeMessage : string :=
  "/exa.language_server_pb.LanguageServerService/SendUserCascadeMessage".
Definition GRPC_getCascadeTrajectorySteps : string :=
  "/exa.language_server_pb.LanguageServerService/GetCascadeTrajectorySteps".

Definition POLL_MAX_ATTEMPTS : nat := 60.

(** [x <- r ;; k] for a computation that may not return. *)
Definition and_then {A B : Type} (r : option A) (k : A -> option B) : option B :=
  match r with
  | Some a => k a
  | None => None
  end.

(** [for (const a of l) { s = f(s, a) }] for a body that may not return. *)
Fixpoint for_of {A S : Type} (f : S -> A -> option S) (l : list A) (s : S)
  : option S :=
  match l with
  | [] => Some s
  | a :: rest => and_then (f s a) (for_of f rest)
  end.

Section CascadeClient.

(** [Buffer.from(v, 'utf8')] for a value that is not a string: the bytes of
    an array-like value, a [TypeError] for the others. *)
Variable Buffer_from_value : JValue -> Result (list Z).

(** [buf.toString('utf8')] *)
Variable toString_utf8 : list Z -> string.

(** [zlib.gunzipSync(data)]; [None] when it throws. *)
Variable gunzipSync : list Z -> option (list Z).

(** discovery.ts, and the two constants taken when the module loads. *)
Variable getMetadataFields : MetadataFields.
Variable PROXY_SESSION_ID : string.
Variable DEVICE_FINGERPRINT : string.

(** models.ts: [resolved.modelUid ?? enumToProtoName(resolved.enumValue)]
    for [resolved = resolveModel(model)]. *)
Variable modelUid_of : string -> string.

(** [grpcUnary(port, csrfToken, path, body)]: how the call settles when
    [n] calls of the run came before it. *)
Variable grpcUnary : nat -> Z -> string -> string -> list Z -> UnaryOutcome.

(** [Buffer.from(str, 'utf8')] where [str] may hold any value. *)
Definition Buffer_from_utf8 (str : JValue) : Result (list Z) :=
  match str with
  | JString s => Ok (Utf8.encode s)
  | _ => Buffer_from_value str
  end.

(** [encodeMetadata(apiKey, version)], called when [requestCounter] holds
    [counter]; the request carries the incremented value.  The API key is
    whatever [getApiKey] returned. *)
Definition encodeMetadata (pf : Platform) (counter : Z) (apiKey : JValue)
           (version : string) : Result (list Z) :=
  let fields := getMetadataFields in
  let os :=
    match pf with
    | darwin => "macos"
    | win32 => "windows"
    | _ => "linux"
    end in
  apiKeyBytes <- Buffer_from_utf8 apiKey ;;
  let meta :=
   (encodeBytes (api_key fields) apiKeyBytes
    ++ encodeString (ide_name fields) "windsurf"
    ++ encodeString (ide_version fields) version
    ++ encodeString (extension_version fields) version
    ++ encodeString (session_id fields) PROXY_SESSION_ID
    ++ encodeString (locale fields) "en"
    ++ encodeString 12 "windsurf"
    ++ encodeString 5 os
    ++ encodeVarintField 9 (counter + 1))%list in
  Ok (if Js.is_empty DEVICE_FINGERPRINT then meta
      else (meta ++ encodeString 24 DEVICE_FINGERPRINT)%list).

(** [decompressFrame(comp, data)] *)
Definition decompressFrame (comp : Z) (data : list Z) : list Z :=
  if (comp =? 1)%Z then
    match gunzipSync data with
    | Some plain => plain
    | None => data
    end
  else data.

(** The loop of [decodeGrpcFrames], on the bytes from [pos] on; every frame
    takes at least five of them, so their number is fuel enough. *)
Fixpoint decodeGrpcFrames_loop (fuel : nat) (bytes : list Z) : list (list Z) :=
  match fuel, bytes with
  | S n, comp :: b1 :: b2 :: b3 :: b4 :: rest =>
      let flen := Buffer.readUInt32BE b1 b2 b3 b4 in
      if (Z.of_nat (length rest) <? flen)%Z then []
      else
        decompressFrame comp (firstn (Z.to_nat flen) rest)
        :: decodeGrpcFrames_loop n (skipn (Z.to_nat flen) rest)
  | _, _ => []
  end.

(** [decodeGrpcFrames(buf)] *)
Definition decodeGrpcFrames (buf : list Z) : list (list Z) :=
  decodeGrpcFrames_loop (length buf) buf.

(** The loop of [extractCascadeId]: the first field numbered 1 that holds
    bytes, as text; the empty string when there is none. *)
Fixpoint first_string_1 (fields : list ProtoField) : string :=
  match fields with
  | [] => EmptyString
  | f :: rest =>
      match value f with
      | PBuffer data => if (field f =? 1)%Z then toString_utf8 data
                        else first_string_1 rest
      | PBigInt _ => first_string_1 rest
      end
  end.

(** [extractCascadeId(data)] *)
Definition extractCascadeId (fuel : nat) (data : list Z) : option string :=
  option_map first_string_1 (parseProtoFields fuel data).

(** The body of the innermost loop of [extractPlannerResponse]: a
    [response] (field 1) or a [modified_response] (field 8) that is not
    empty replaces the result. *)
Definition planner_step (result : string) (f3 : ProtoField) : string :=
  match value f3 with
  | PBuffer data =>
      let after_1 :=
        if (field f3 =? 1)%Z then
          let t := toString_utf8 data in
          if Js.is_empty t then result else t
        else result in
      if (field f3 =? 8)%Z then
        let t := toString_utf8 data in
        if Js.is_empty t then after_1 else t
      else after_1
  | PBigInt _ => result
  end.

(** The loop over the fields of one step: those numbered 20 that hold
    bytes are planner responses. *)
Definition planner_of_step (fuel : nat) (result : string) (f2 : ProtoField)
  : option string :=
  match value f2 with
  | PBuffer data =>
      if (field f2 =? 20)%Z then
        option_map (fun fields3 => fold_left planner_step fields3 result)
                   (parseProtoFields fuel data)
      else Some result
  | PBigInt _ => Some result
  end.

(** The loop over the fields of one frame: those numbered 1 that hold bytes
    are steps. *)
Definition planner_of_frame (fuel : nat) (result : string) (f1 : ProtoField)
  : option string :=
  match value f1 with
  | PBuffer data =>
      if (field f1 =? 1)%Z then
        and_then (parseProtoFields fuel data)
                 (fun fields2 => for_of (planner_of_step fuel) fields2 result)
      else Some result
  | PBigInt _ => Some result
  end.

(** [extractPlannerResponse(buf)] *)
Definition extractPlannerResponse (fuel : nat) (buf : list Z) : option string :=
  for_of (fun result frame =>
            and_then (parseProtoFields fuel frame)
                     (fun fields1 => for_of (planner_of_frame fuel) fields1 result))
         (decodeGrpcFrames buf) EmptyString.

(** The loop over the frames of the StartCascade response: the first
    cascade id that is not empty. *)
Fixpoint first_cascadeId (fuel : nat) (frames : list (list Z)) : option string :=
  match frames with
  | [] => Some EmptyString
  | frame :: rest =>
      and_then (extractCascadeId fuel frame)
               (fun id => if Js.is_empty id then first_cascadeId fuel rest
                          else Some id)
  end.

Definition throws (e : Exn) : GeneratorRun := {| yielded := []; thrown := Some e |}.

(** The polling loop of [streamChatGenerator], with [attempts] iterations
    left, as call number [n] of the run. *)
Fixpoint poll (fuel attempts n : nat) (port : Z) (csrf : string) (body : list Z)
  : option GeneratorRun :=
  match attempts with
  | O =>
      Some (throws (WindsurfError
                      ("GetCascadeTrajectorySteps: no planner_response after "
                       ++ Js.of_Z (Z.of_nat POLL_MAX_ATTEMPTS) ++ " attempts")
                      STREAM_ERROR))
  | S k =>
      match grpcUnary n port csrf GRPC_getCascadeTrajectorySteps body with
      | Rejected _ => poll fuel k (S n) port csrf body
      | Resolved buf status _ =>
          if negb (String.eqb status "0") then poll fuel k (S n) port csrf body
          else
            and_then (extractPlannerResponse fuel buf)
                     (fun text =>
                        if Js.is_empty text then poll fuel k (S n) port csrf body
                        else Some {| yielded := [text]; thrown := None |})
      end
  end.

(** One run of [streamChatGenerator(credentials, { model, messages })],
    started when [requestCounter] holds [counter]; [None] when a parsing
    loop does not end within [fuel] iterations. *)
Definition streamChatGenerator_run (fuel : nat) (pf : Platform) (counter : Z)
           (credentials : WindsurfCredentials) (model_name : string)
           (msgs : list ChatMessage) : option GeneratorRun :=
  let csrf := cred_csrfToken credentials in
  let port := cred_port credentials in
  let modelUid := modelUid_of model_name in
  match encodeMetadata pf counter (cred_apiKey credentials) (cred_version credentials) with
  | Throw e => Some (throws e)
  | Ok metadata =>
      match grpcUnary 0 port csrf GRPC_startCascade (buildStartCascadeRequest metadata) with
      | Rejected m =>
          Some (throws (WindsurfError ("StartCascade failed: " ++ m) CONNECTION_FAILED))
      | Resolved startBuf startStatus startMessage =>
          if negb (String.eqb startStatus "0") then
            Some (throws (WindsurfError
                            ("StartCascade gRPC error " ++ startStatus ++ ": "
                             ++ startMessage)
                            STREAM_ERROR))
          else
            and_then (first_cascadeId fuel (decodeGrpcFrames startBuf))
              (fun cascadeId =>
                 if Js.is_empty cascadeId then
                   Some (throws (WindsurfError "StartCascade returned no cascadeId"
                                               STREAM_ERROR))
                 else
                   match grpcUnary 1 port csrf GRPC_sendUserCascadeMessage
                                   (buildSendUserCascadeMessageRequest
                                      cascadeId msgs metadata modelUid) with
                   | Rejected m =>
                       Some (throws (WindsurfError
                                       ("SendUserCascadeMessage failed: " ++ m)
                                       STREAM_ERROR))
                   | Resolved _ sendStatus sendMessage =>
                       if negb (String.eqb sendStatus "0") then
                         Some (throws (WindsurfError
                                         ("SendUserCascadeMessage gRPC error "
                                          ++ sendStatus ++ ": " ++ sendMessage)
                                         STREAM_ERROR))
                       else poll fuel POLL_MAX_ATTEMPTS 2 port csrf (pollBody cascadeId)
                   end)
      end
  end.

End CascadeClient.

(* ================================================================== *)
(** ** Vocabulary of the wire-format properties *)
(* ================================================================== *)

(** A field as the encoders take it: a number with a varint value
    ([encodeVarintField]) or with bytes ([encodeMessage], and
    [encodeString] after [Buffer.from]). *)
Inductive WireField :=
| VarintField (fieldNum v : Z)
| BytesField (fieldNum : Z) (data : list Z).

Definition encode_field (x : WireField) : list Z :=
  match x with
  | VarintField f v => encodeVarintField f v
  | BytesField f data => encodeMessage f data
  end.

(** The entry [parseProtoFields] is expected to make of it. *)
Definition parsed_field (x : WireField) : ProtoField :=
  match x with
  | VarintField f v => {| field := f; wire := 0; value := PBigInt v |}
  | BytesField f data => {| field := f; wire := 2; value := PBuffer data |}
  end.

(** Field numbers whose tag fits 31 bits, values that are not negative,
    and byte runs whose length fits 31 bits. *)
Definition encodable (x : WireField) : Prop :=
  match x with
  | VarintField f v => (0 <= f < 268435456)%Z /\ (0 <= v)%Z
  | BytesField f data =>
      (0 <= f < 268435456)%Z /\ (Z.of_nat (length data) < 2147483648)%Z
  end.

Definition is_byte (b : Z) : Prop := (0 <= b < 256)%Z.

(** String fields, by number, one after the other. *)
Definition encode_strings (fs : list (Z * string)) : list Z :=
  flat_map (fun f => encodeString (fst f) (snd f)) fs.

(** A StartCascade response that carries the cascade id [id]. *)
Definition start_response (id : string) : list Z :=
  makeGrpcFrame (encodeString 1 id).

(** A GetCascadeTrajectorySteps response of one frame and one step, whose
    planner response (field 20) holds the string fields [fs]. *)
Definition trajectory_response (fs : list (Z * string)) : list Z :=
  makeGrpcFrame (encodeMessage 1 (encodeMessage 20 (encode_strings fs))).

(** The texts of the fields numbered 1 ([response]) and 8
    ([modified_response]), in the order of the wire. *)
Definition planner_texts (fs : list (Z * string)) : list string :=
  map snd (filter (fun f => (fst f =? 1)%Z || (fst f =? 8)%Z) fs).

(** The last text that is not empty; the empty string when there is
    none. *)
Definition last_nonempty (texts : list string) : string :=
  fold_left (fun acc t => if Js.is_empty t then acc else t) texts EmptyString.

Definition field_number (n : Z) : Prop := (0 <= n < 268435456)%Z.

(** The byte [encodeVarint] pushes inside its loop. *)
Definition continuation_byte (v : Z) : Z := Z.lor (Z.land v 127) 128.

(** The two ways a run of the generator can end. *)
Definition one_chunk (r : GeneratorRun) : Prop :=
  exists text, text <> EmptyString /\ r = {| yielded := [text]; thrown := None |}.

Definition throws_code (c : WindsurfErrorCode) (r : GeneratorRun) : Prop :=
  exists m, r = throws (WindsurfError m c).

(** A poll that brings nothing: the call is rejected, or it resolves with a
    [grpc-status] other than 0, or with a body in which
    [extractPlannerResponse] finds no text. *)
Definition brings_nothing (toString_utf8 : list Z -> string)
           (gunzipSync : list Z -> option (list Z)) (fuel : nat) (o : UnaryOutcome)
  : Prop :=
  match o with
  | Rejected _ => True
  | Resolved buf st _ =>
      st <> "0"
      \/ extractPlannerResponse toString_utf8 gunzipSync fuel buf = Some EmptyString
  end.

(** A poll that brings [text]: it resolves with [grpc-status] 0 and a body
    in which [extractPlannerResponse] finds [text]. *)
Definition brings_text (toString_utf8 : list Z -> string)
           (gunzipSync : list Z -> option (list Z)) (fuel : nat) (text : string)
           (o : UnaryOutcome) : Prop :=
  exists buf m,
    o = Resolved buf "0" m
    /\ extractPlannerResponse toString_utf8 gunzipSync fuel buf = Some text.

(** A StartCascade call that opens the cascade [id]: it resolves with
    [grpc-status] 0 and [id] is the first cascade id of its frames that is
    not empty. *)
Definition opens_cascade (toString_utf8 : list Z -> string)
           (gunzipSync : list Z -> option (list Z)) (fuel : nat) (id : string)
           (o : UnaryOutcome) : Prop :=
  exists buf m,
    o = Resolved buf "0" m
    /\ first_cascadeId toString_utf8 fuel (decodeGrpcFrames gunzipSync buf) = Some id.

(** A reference decoder for the bytes [Utf8.encode] writes: one byte below
    128, two bytes for the code units from 128 to 255. *)
Module RefUtf8.

Fixpoint decode (bytes : list Z) : string :=
  match bytes with
  | [] => EmptyString
  | b :: rest =>
      if (b <? 128)%Z then String (ascii_of_N (Z.to_N b)) (decode rest)
      else
        match rest with
        | b2 :: rest' =>
            String (ascii_of_N (Z.to_N (Z.lor (Z.shiftl (Z.land b 31) 6)
                                              (Z.land b2 63))))
                   (decode rest')
        | [] => "?"
        end
  end.

End RefUtf8.

(** A language server to run the client against: it hands out a cascade
    id, accepts the message, fails two polls and then answers. *)
Module SampleCascade.

Definition Buffer_from_value (v : JValue) : Result (list Z) :=
  Throw (JsError "TypeError").

Definition gunzipSync (data : list Z) : option (list Z) := None.

Definition fields : MetadataFields :=
  {| api_key := 3; ide_name := 1; ide_version := 7; extension_version := 2;
     session_id := 10; locale := 4 |}.

Definition modelUid_of (model_name : string) : string := model_name.

(** A planner response whose [modified_response] comes first. *)
Definition planner_fields : list (Z * string) :=
  [ (8, "edited"); (1, "raw"); (2, "ignored") ]%Z.

Definition network (n : nat) (port : Z) (csrf path : string) (body : list Z)
  : UnaryOutcome :=
  match n with
  | 0%nat => Resolved (start_response "cascade-1") "0" ""
  | 1%nat => Resolved [] "0" ""
  | 2%nat => Rejected "socket hang up"
  | 3%nat => Resolved [] "14" "unavailable"
  | 4%nat => Resolved [] "0" ""
  | _ => Resolved (trajectory_response planner_fields) "0" ""
  end.

(** The same server, which stops answering after 62 calls. *)
Definition short_lived (n : nat) (port : Z) (csrf path : string) (body : list Z)
  : UnaryOutcome :=
  if (n <? 62)%nat then network n port csrf path body else Rejected "closed".

Definition messages : list ChatMessage :=
  [ {| chat_role := "system"; chat_content := "Be brief." |};
    {| chat_role := "user"; chat_content := "Hi" |} ].

Definition run (net : nat -> Z -> string -> string -> list Z -> UnaryOutcome)
  : option GeneratorRun :=
  streamChatGenerator_run Buffer_from_value RefUtf8.decode gunzipSync fields
                          "session-1" "" modelUid_of net
                          4 darwin 0 Sample.credentials "gpt-4o" messages.

(** The generator's run against [network], as the bridge sees it. *)
Definition server (c : WindsurfCredentials) (model_name text : string)
  : GeneratorRun :=
  {| yielded := ["raw"]; thrown := None |}.

(** A model output that is one tagged call and nothing else. *)
Definition lone_call : string :=
  Js.quoted "<tool_call>read_file {`path`:`a.txt`}".

End SampleCascade.

(* ================================================================== *)
(** ** auth.ts: validation *)
(* ================================================================== *)

(** [Partial<WindsurfCredentials>] as [validateCredentials] reads it: a
    property is absent, or it holds a value of its declared type; the API
    key holds whatever value was stored. *)
Record PartialCredentials := {
  partial_csrfToken : option string;
  partial_port : option Z;
  partial_apiKey : JValue;
  partial_version : option string
}.

Definition validateCredentials (credentials : PartialCredentials) : bool :=
  match partial_csrfToken credentials with
  | Some token => (0 <? String.length token)%nat
  | None => false
  end
  && match partial_port credentials with
     | Some port => (0 <? port)%Z
     | None => false
     end
  && match partial_apiKey credentials with
     | JString key => (0 <? String.length key)%nat
     | _ => false
     end
  && match partial_version credentials with
     | Some _ => true
     | None => false
     end.

(** The credentials [getCredentials] returns, seen as a
    [Partial<WindsurfCredentials>]. *)
Definition as_partial (c : WindsurfCredentials) : PartialCredentials :=
  {| partial_csrfToken := Some (cred_csrfToken c);
     partial_port := Some (cred_port c);
     partial_apiKey := cred_apiKey c;
     partial_version := Some (cred_version c) |}.

(* ================================================================== *)
(** ** plugin.ts: starting the proxy *)
(* ================================================================== *)


(** What the daemon is started with: [spawn(bunBin, [serverEntry], ...)]. *)
Record SpawnCommand := {
  bunBin : string;
  spawn_args : list string
}.

(** [[HOME ? `${HOME}/.bun/bin/bun` : null, '/usr/local/bin/bun',
    '/usr/bin/bun'].filter(Boolean)] *)
Definition bunCandidates (HOME : option string) : list string :=
  match HOME with
  | Some home => if Js.is_empty home then [] else [home ++ "/.bun/bin/bun"]
  | None => []
  end
  ++ ["/usr/local/bin/bun"; "/usr/bin/bun"].

(** [spawnProxyDaemon()], over [process.env.HOME], [fs.existsSync] and the
    path of server.js beside the module; [None] when it returns without
    spawning. *)
Definition spawnProxyDaemon (HOME : option string) (existsSync : string -> bool)
           (serverEntry : string) : option SpawnCommand :=
  let bin :=
    match filter existsSync (bunCandidates HOME) with
    | candidate :: _ => candidate
    | [] => "bun"
    end in
  if negb (existsSync serverEntry) then None
  else Some {| bunBin := bin; spawn_args := [serverEntry] |}.




(* ================================================================== *)
(** ** Vocabulary of the listing properties *)
(* ================================================================== *)

(** Every character of [s] is in the class [cls]. *)
Fixpoint every (cls : ascii -> bool) (s : string) : bool :=
  match s with
  | EmptyString => true
  | String c s' => cls c && every cls s'
  end.

(** The expression holds no capturing group. *)
Fixpoint group_free (r : Re.Regex) : bool :=
  match r with
  | Re.Group _ => false
  | Re.Seq r1 r2 | Re.Alt r1 r2 => group_free r1 && group_free r2
  | Re.Ahead r1 => group_free r1
  | _ => true
  end.

(** The expression is a group-free prefix followed by its one group,
    [(c+)] for the class [cls]. *)
Inductive ends_with_run (cls : ascii -> bool) : Re.Regex -> Prop :=
| run_here : ends_with_run cls (Re.Group (Re.Plus cls))
| run_after r1 r2 :
    group_free r1 = true -> ends_with_run cls r2 ->
    ends_with_run cls (Re.Seq r1 r2).

(* ================================================================== *)
(** ** Vocabulary of the planner properties *)
(* ================================================================== *)

(** [t && typeof t.name === 'string'], on a value. *)
Definition named (t : JValue) : bool :=
  Json.truthy t && Json.is_string (Json.get t "name").

(** The text between the first opening and the last closing brace of
    [output], when the former comes first. *)
Definition braces_slice (output : string) : option string :=
  match Js.indexOf "{" output, Js.lastIndexOf "}" output with
  | Some start, Some stop =>
      if Nat.leb stop start then None else Some (Js.slice start (S stop) output)
  | _, _ => None
  end.

(** [payload.choices[0].message] *)
Definition message_of (payload : JValue) : JValue :=
  Json.get (first_choice payload) "message".

(** The paths [fetch] serves. *)
Definition served_paths : list string :=
  [ "/health"; "/v1/models"; "/models"; "/v1/chat/completions"; "/chat/completions" ].

Definition not_underscore (c : ascii) : bool := negb (Ascii.eqb c "_").

(** [payload.choices[0].message.tool_calls], as a list. *)
Definition tool_calls_of (payload : JValue) : list JValue :=
  match Json.get (message_of payload) "tool_calls" with
  | JArray calls => calls
  | _ => []
  end.

(** An event of a stream echoes the model [m]: it is [DONE], the error
    event, or a chunk whose [model] is [m]. *)
Definition echoes_model (m : string) (ev : SseEvent) : Prop :=
  match ev with
  | SseDone => True
  | SseData payload =>
      (exists e, payload = stream_error e) \/ Json.get payload "model" = JString m
  end.

(* ================================================================== *)
(** * Properties *)
(* ================================================================== *)

Unset Implicit Arguments.


(** ** Strings *)

Module JsFacts.

Lemma drop_while_length p s :
  String.length (Js.drop_while p s) <= String.length s.
Proof.
  induction s as [|c s IH]; simpl; [lia|].
  destruct (p c); simpl; lia.
Qed.

Lemma rev_onto_length s acc :
  String.length (Js.rev_onto s acc) = String.length s + String.length acc.
Proof.
  revert acc. induction s as [|c s IH]; intros acc; simpl; [reflexivity|].
  rewrite IH. simpl. lia.
Qed.

Lemma rev_length s : String.length (Js.rev s) = String.length s.
Proof. unfold Js.rev. rewrite rev_onto_length. simpl. lia. Qed.

Lemma trim_length s : String.length (Js.trim s) <= String.length s.
Proof.
  unfold Js.trim. rewrite rev_length.
  etransitivity; [apply drop_while_length|].
  rewrite rev_length. apply drop_while_length.
Qed.

Lemma is_empty_true s : Js.is_empty s = true <-> s = EmptyString.
Proof. destruct s; simpl; split; congruence. Qed.

Lemma drop_length n s : String.length (Js.drop n s) = String.length s - n.
Proof.
  revert s. induction n as [|n IH]; intros s; simpl; [lia|].
  destruct s as [|c s]; simpl; [reflexivity|apply IH].
Qed.

End JsFacts.

(** ** The ascending sort and its head *)

Section SortFacts.

Lemma insert_asc_In x y l : In y (insert_asc x l) <-> y = x \/ In y l.
Proof.
  induction l as [|z l IH]; simpl.
  - intuition.
  - destruct (x <=? z)%Z; simpl; [intuition|]. rewrite IH. intuition.
Qed.

Lemma sort_asc_In y l : In y (sort_asc l) <-> In y l.
Proof.
  induction l as [|z l IH]; simpl; [tauto|].
  rewrite insert_asc_In, IH. intuition.
Qed.

Lemma insert_asc_hd x l :
  hd_error (insert_asc x l)
  = Some (match hd_error l with Some y => Z.min x y | None => x end).
Proof.
  destruct l as [|y l]; simpl; [reflexivity|].
  destruct (Z.leb_spec x y); simpl; f_equal; lia.
Qed.

Lemma sort_asc_hd_least l m :
  hd_error (sort_asc l) = Some m -> least_of m l.
Proof.
  revert m. induction l as [|x l IH]; intros m; simpl; [discriminate|].
  rewrite insert_asc_hd.
  destruct (hd_error (sort_asc l)) as [y|] eqn:E.
  - intros [= <-]. destruct (IH y eq_refl) as [Hin Hle]. split.
    + destruct (Z.min_spec x y) as [[_ ->]|[_ ->]]; [now left|now right].
    + intros z [<-|Hz]; [lia|]. specialize (Hle z Hz). lia.
  - intros [= <-]. destruct l as [|z l].
    + split; [now left|]. intros z [<-|[]]; lia.
    + simpl in E. rewrite insert_asc_hd in E. discriminate.
Qed.

Lemma sort_asc_hd_some l :
  l <> [] -> exists m, hd_error (sort_asc l) = Some m.
Proof.
  destruct l as [|x l]; [congruence|]. intros _. simpl.
  rewrite insert_asc_hd. eauto.
Qed.

Lemma sort_asc_hd_none l : hd_error (sort_asc l) = None -> l = [].
Proof.
  destruct l as [|x l]; [reflexivity|]. simpl. rewrite insert_asc_hd. discriminate.
Qed.

Lemma above_In e ports p : In p (above e ports) <-> In p ports /\ (e < p)%Z.
Proof. unfold above. rewrite filter_In, Z.ltb_lt. tauto. Qed.

Lemma select_sorted_rule ports e :
  ports <> [] -> e <> 0%Z ->
  exists p, select_sorted ports (Some e) = Some p /\ selection_rule ports e p.
Proof.
  intros Hne He. unfold select_sorted, first_after.
  destruct ports as [|p0 rest]; [congruence|].
  destruct (Z.eqb_spec e 0); [congruence|]. fold (above e (p0 :: rest)).
  destruct (hd_error (sort_asc (above e (p0 :: rest)))) as [p|] eqn:E.
  - exists p. split; [reflexivity|]. apply sort_asc_hd_least in E. split.
    + intros _. exact E.
    + intros Hnil. rewrite Hnil in E. destruct E as [[] _].
  - apply sort_asc_hd_none in E.
    destruct (sort_asc_hd_some (p0 :: rest)) as [m Hm]; [discriminate|].
    exists m. split; [exact Hm|]. split; [congruence|].
    intros _. now apply sort_asc_hd_least.
Qed.

Lemma select_sorted_unknown ports ext :
  ports <> [] -> first_after ports ext = None ->
  exists p, select_sorted ports ext = Some p /\ least_of p ports.
Proof.
  intros Hne Hfa. unfold select_sorted. destruct ports as [|p0 rest]; [congruence|].
  rewrite Hfa. destruct (sort_asc_hd_some (p0 :: rest)) as [m Hm]; [discriminate|].
  exists m. split; [exact Hm|]. now apply sort_asc_hd_least.
Qed.

Lemma select_sorted_nil ext : select_sorted [] ext = None.
Proof. reflexivity. Qed.

End SortFacts.

(** ** The port of a PID *)

(** On Linux the selection rule holds of the ports read from /proc, and of
    those read from [ss] when /proc gave none. *)
Theorem getPortForPid_linux probes e :
  e <> 0%Z ->
  let ports := match proc_listening probes with
               | [] => ss_listening probes
               | l => l
               end in
  ports <> [] ->
  exists p, getPortForPid linux probes (Some e) = Some p /\ selection_rule ports e p.
Proof.
  intros He ports Hne. unfold getPortForPid.
  destruct (proc_listening probes) as [|p0 rest] eqn:Hproc.
  - simpl select_sorted at 1. cbv beta iota.
    destruct (select_sorted_rule ports e Hne He) as [p [Hp Hr]].
    subst ports. rewrite Hp. eauto.
  - destruct (select_sorted_rule ports e Hne He) as [p [Hp Hr]].
    subst ports. simpl in Hp |- *. rewrite Hp. eauto.
Qed.

(** On Linux, with [ext_port] unknown ([null], or [0], which the test
    [if (extPort)] reads alike), the least listening port is returned. *)
Theorem getPortForPid_linux_unknown probes ext :
  ext = None \/ ext = Some 0%Z ->
  let ports := match proc_listening probes with
               | [] => ss_listening probes
               | l => l
               end in
  ports <> [] ->
  exists p, getPortForPid linux probes ext = Some p /\ least_of p ports.
Proof.
  intros Hext ports Hne.
  assert (Hfa : forall l, first_after l ext = None)
    by (intros l; destruct Hext as [->| ->]; reflexivity).
  unfold getPortForPid.
  destruct (proc_listening probes) as [|p0 rest] eqn:Hproc.
  - simpl select_sorted at 1. cbv beta iota.
    destruct (select_sorted_unknown ports ext Hne (Hfa ports)) as [p [Hp Hl]].
    subst ports. rewrite Hp. eauto.
  - destruct (select_sorted_unknown ports ext Hne (Hfa ports)) as [p [Hp Hl]].
    subst ports. simpl in Hp |- *. rewrite Hp. eauto.
Qed.

(** On macOS the rule holds when a port above [ext_port] is listening. *)
Theorem getPortForPid_darwin_above probes e :
  e <> 0%Z -> above e (lsof_listening probes) <> [] ->
  exists p, getPortForPid darwin probes (Some e) = Some p
            /\ least_of p (above e (lsof_listening probes)).
Proof.
  intros He Hab. unfold getPortForPid, select_first, first_after.
  destruct (lsof_listening probes) as [|p0 rest] eqn:Hl; [now destruct Hab|].
  destruct (Z.eqb_spec e 0); [congruence|]. fold (above e (p0 :: rest)).
  destruct (sort_asc_hd_some _ Hab) as [m Hm]. rewrite Hm.
  exists m. split; [reflexivity|]. now apply sort_asc_hd_least.
Qed.

(** With no listening port discovered, the fallback is [ext_port + 3]. *)
Theorem getPortForPid_fallback pf probes e :
  e <> 0%Z ->
  proc_listening probes = [] -> ss_listening probes = [] ->
  lsof_listening probes = [] ->
  getPortForPid pf probes (Some e) = Some (e + 3)%Z.
Proof.
  intros He H1 H2 H3. unfold getPortForPid. rewrite H1, H2, H3.
  destruct pf; simpl; destruct (Z.eqb_spec e 0); congruence.
Qed.

(** C3, at the failing input: on macOS, with listening ports 50000 and
    40000 reported in that order and none above [ext_port] = 60000, the
    resolver returns the first port listed, 50000, although 40000 is the
    smallest listening port; the Linux probes return 40000 there. *)
Theorem getPortForPid_darwin_first_listed :
  getPortForPid darwin unsorted_lsof (Some 60000%Z) = Some 50000%Z
  /\ least_of 40000%Z (lsof_listening unsorted_lsof)
  /\ getPortForPid linux
       {| proc_listening := [50000; 40000]%Z; ss_listening := [];
          lsof_listening := [] |} (Some 60000%Z) = Some 40000%Z.
Proof.
  split; [reflexivity|]. split; [|reflexivity].
  split; [simpl; tauto|]. simpl. intros x [<-|[<-|[]]]; lia.
Qed.

(** ** Credential discovery *)

(** The matchers on lines of a process listing. *)
Example pidMatch_ps_line : pidMatch Sample.server_line = Some "4242".
Proof. reflexivity. Qed.

Example pidMatch_needs_digits : pidMatch "CommandLine=C:\ls.exe --csrf_token ab" = None.
Proof. reflexivity. Qed.

Example csrfMatch_ps_line : csrfMatch Sample.server_line = Some "0a1b2c3d-77ff".
Proof. reflexivity. Qed.

Example csrfMatch_stops_at_other_characters :
  csrfMatch "x --csrf_token   12ab-cdXY --csrf_token 77" = Some "12ab-cd".
Proof. reflexivity. Qed.

Example csrfMatch_skips_a_failed_position :
  csrfMatch "--csrf_token=zz --csrf_token 9f" = Some "9f".
Proof. reflexivity. Qed.

Example portMatch_ps_line : portMatch Sample.server_line = Some "41000".
Proof. reflexivity. Qed.

Example version_of_ready_world : getWindsurfVersion Sample.ready_world = "1.13.104".
Proof. reflexivity. Qed.

Section CredentialFacts.

Variable JSON_parse : string -> option JValue.

Lemma filter_map_nil (A B : Type) (f : A -> option B) (l : list A) :
  (forall a, In a l -> f a = None) -> filter_map f l = [].
Proof.
  induction l as [|a l IH]; intros H; simpl; [reflexivity|].
  rewrite (H a (or_introl eq_refl)). apply IH. intros b Hb. apply H. now right.
Qed.

(** A line without a CSRF token contributes no process entry. *)
Lemma parse_process_line_tokenless pattern l :
  (Js.includes l pattern = true -> csrfMatch l = None) ->
  parse_process_line pattern l = None.
Proof.
  intros H. unfold parse_process_line.
  destruct (Js.includes l pattern); simpl; [|reflexivity].
  destruct (Js.includes l "grep"); [reflexivity|].
  rewrite (H eq_refl). now destruct (pidMatch l).
Qed.

Lemma tokenless_listing_is_empty w :
  (forall l, In l (listing_lines w) ->
             Js.includes l (getLanguageServerPattern (platform w)) = true ->
             csrfMatch l = None) ->
  getLanguageServerProcesses w = [].
Proof.
  unfold listing_lines, getLanguageServerProcesses.
  destruct (ps_output w) as [output|]; intros H; [|reflexivity].
  apply filter_map_nil. intros l Hl. apply parse_process_line_tokenless. now apply H.
Qed.

Lemma getCSRFToken_throws w e :
  getCSRFToken w = Throw e -> e = not_found_error.
Proof.
  unfold getCSRFToken. destruct (getLanguageServerProcesses w); congruence.
Qed.

Lemma getPort_throws w e :
  getPort w = Throw e -> error_code e = Some NOT_RUNNING.
Proof.
  unfold getPort. destruct (getLanguageServerProcesses w) as [|proc rest].
  - intros [= <-]. reflexivity.
  - destruct (getPortForPid _ _ _); [discriminate|]. intros [= <-]. reflexivity.
Qed.

Lemma getApiKey_throws w e :
  getApiKey JSON_parse w = Throw e -> error_code e = Some API_KEY_MISSING.
Proof.
  unfold getApiKey. destruct (negb (has_state_path (platform w))).
  - intros [= <-]. reflexivity.
  - destruct (apiKey_from_state JSON_parse w); [discriminate|].
    destruct (apiKey_from_legacy JSON_parse w); [discriminate|].
    intros [= <-]. reflexivity.
Qed.

(** How [getCredentials] fails: before the API key is read, with
    NOT_RUNNING and the readiness probe failing too; or at the API key, with
    API_KEY_MISSING and the readiness probe passing. *)
Lemma getCredentials_throws w e :
  getCredentials JSON_parse w = Throw e ->
  (error_code e = Some NOT_RUNNING /\ isWindsurfRunning w = false)
  \/ (error_code e = Some API_KEY_MISSING /\ isWindsurfRunning w = true).
Proof.
  unfold getCredentials, isWindsurfRunning.
  destruct (getCSRFToken w) as [csrf|e1] eqn:E1; simpl.
  - destruct (getPort w) as [port|e2] eqn:E2; simpl.
    + destruct (getApiKey JSON_parse w) as [key|e3] eqn:E3; simpl; [discriminate|].
      intros [= <-]. right. split; [|reflexivity]. now apply getApiKey_throws in E3.
    + intros [= <-]. left. split; [|reflexivity]. now apply getPort_throws in E2.
  - intros [= <-]. left. split; [|reflexivity].
    apply getCSRFToken_throws in E1. now subst.
Qed.

(** C2, as amended.  The resolver raises NOT_RUNNING or API_KEY_MISSING and
    nothing else, so never CSRF_MISSING.  When every process line that
    matches the platform pattern lacks a [--csrf_token] token, it fails with
    NOT_RUNNING, as it does when no process matches at all.  NOT_RUNNING is
    raised exactly when the listing yields no process entry or no port is
    resolved for the first entry. *)
Theorem tokenless_server_is_not_running (w : World) :
  (forall e, getCredentials JSON_parse w = Throw e ->
             error_code e = Some NOT_RUNNING \/ error_code e = Some API_KEY_MISSING)
  /\ ((forall l, In l (listing_lines w) ->
                 Js.includes l (getLanguageServerPattern (platform w)) = true ->
                 csrfMatch l = None) ->
      getCredentials JSON_parse w = Throw not_found_error)
  /\ ((exists m, getCredentials JSON_parse w = Throw (WindsurfError m NOT_RUNNING))
      <-> getLanguageServerProcesses w = []
          \/ exists proc rest,
               getLanguageServerProcesses w = proc :: rest
               /\ getPortForPid (platform w) (port_probes w (pid proc))
                                (extensionServerPort proc) = None).
Proof.
  split; [|split].
  - intros e He. destruct (getCredentials_throws w e He) as [[H _]|[H _]]; auto.
  - intros H. unfold getCredentials, getCSRFToken.
    now rewrite (tokenless_listing_is_empty w H).
  - unfold getCredentials, getCSRFToken, getPort.
    destruct (getLanguageServerProcesses w) as [|proc rest]; simpl.
    + split; [now left|]. intros _. eexists. reflexivity.
    + destruct (getPortForPid (platform w) (port_probes w (pid proc))
                              (extensionServerPort proc)) as [port|] eqn:Eport; simpl.
      * split.
        -- intros [m H].
           destruct (getApiKey JSON_parse w) as [key|e] eqn:E; simpl in H;
             [discriminate|].
           apply getApiKey_throws in E. injection H as H. subst e. discriminate.
        -- intros [H|(p & r & H & Hn)]; [discriminate|].
           injection H as Hp Hr. subst p r. rewrite Hn in Eport. discriminate.
      * split; [|intros _; eexists; reflexivity].
        intros _. right. now exists proc, rest.
Qed.

(* ---------------------------------------------------------------- *)

Lemma read_apiKey_yields text k :
  or_fall_through (read_apiKey JSON_parse text) = Some k
  <-> yields_apiKey JSON_parse text k.
Proof.
  unfold read_apiKey, yields_apiKey. split.
  - destruct (JSON_parse text) as [parsed|]; simpl; [|discriminate].
    intros H. exists parsed. split; [reflexivity|].
    destruct parsed; simpl in H; try discriminate;
      match type of H with
      | (if ?c then _ else _) = _ =>
          destruct c eqn:Hc; [injection H as <-; now split | discriminate]
      end.
  - intros [parsed [-> [Hget Ht]]].
    destruct parsed; simpl in *; subst k; simpl in Ht; try discriminate;
      try rewrite Ht; reflexivity.
Qed.

Lemma apiKey_from_state_yields w k :
  apiKey_from_state JSON_parse w = Some k <-> sqlite_yields JSON_parse w k.
Proof.
  unfold apiKey_from_state, sqlite_yields.
  destruct (state_db_exists w); [|split; [discriminate|intros [? _]; discriminate]].
  destruct (state_db_value w) as [out|]; simpl.
  - destruct (Js.is_empty (Js.trim out)) eqn:Hemp.
    + apply JsFacts.is_empty_true in Hemp. split; [discriminate|].
      intros [_ [o [[= <-] [Hne _]]]]. contradiction.
    + rewrite read_apiKey_yields. split.
      * intros H. split; [reflexivity|]. exists out. repeat split; auto.
        intros Hz. rewrite Hz in Hemp. discriminate.
      * intros [_ [o [[= <-] [_ H]]]]. exact H.
  - split; [discriminate|]. intros [_ [o [H _]]]. discriminate.
Qed.

Lemma apiKey_from_legacy_yields w k :
  apiKey_from_legacy JSON_parse w = Some k <-> legacy_yields JSON_parse w k.
Proof.
  unfold apiKey_from_legacy, legacy_yields.
  destruct (legacy_exists w); [|split; [discriminate|intros [? _]; discriminate]].
  destruct (legacy_content w) as [text|]; simpl.
  - rewrite read_apiKey_yields. split.
    + intros H. split; [reflexivity|]. now exists text.
    + intros [_ [t [[= <-] H]]]. exact H.
  - split; [discriminate|]. intros [_ [t [H _]]]. discriminate.
Qed.

Lemma none_iff_no_key (o : option JValue) (P : JValue -> Prop) :
  (forall k, o = Some k <-> P k) -> (o = None <-> forall k, ~ P k).
Proof.
  intros H. split.
  - intros -> k Hk. apply H in Hk. discriminate.
  - intros Hn. destruct o as [k|]; [|reflexivity]. exfalso. apply (Hn k). now apply H.
Qed.

(** C5, as amended.  On darwin, linux and win32: the key of the state
    database when it yields one (a truthy [apiKey]); otherwise the key of
    the legacy file when it yields one; API_KEY_MISSING exactly when neither
    does.  On any other platform: API_KEY_MISSING, whatever the files hold. *)
Theorem getApiKey_by_source (w : World) :
  (has_state_path (platform w) = true ->
   (forall k, sqlite_yields JSON_parse w k -> getApiKey JSON_parse w = Ok k)
   /\ ((forall k, ~ sqlite_yields JSON_parse w k) ->
       forall k, legacy_yields JSON_parse w k -> getApiKey JSON_parse w = Ok k)
   /\ ((exists m, getApiKey JSON_parse w = Throw (WindsurfError m API_KEY_MISSING))
       <-> (forall k, ~ sqlite_yields JSON_parse w k)
           /\ (forall k, ~ legacy_yields JSON_parse w k)))
  /\ (has_state_path (platform w) = false ->
      getApiKey JSON_parse w
      = Throw (WindsurfError ("Unsupported platform: " ++ platform_name (platform w))
                             API_KEY_MISSING)).
Proof.
  pose proof (none_iff_no_key _ _ (apiKey_from_state_yields w)) as Hs.
  pose proof (none_iff_no_key _ _ (apiKey_from_legacy_yields w)) as Hl.
  unfold getApiKey. split; intros Hp; rewrite Hp; simpl; [|reflexivity].
  split; [|split].
  - intros k Hk. apply apiKey_from_state_yields in Hk. now rewrite Hk.
  - intros Hno k Hk. apply Hs in Hno. rewrite Hno.
    apply apiKey_from_legacy_yields in Hk. now rewrite Hk.
  - destruct (apiKey_from_state JSON_parse w) as [k1|].
    + split; [intros [m H]; discriminate|].
      intros [Hno _]. apply Hs in Hno. discriminate.
    + destruct (apiKey_from_legacy JSON_parse w) as [k2|].
      * split; [intros [m H]; discriminate|].
        intros [_ Hno]. apply Hl in Hno. discriminate.
      * split; [|intros _; eexists; reflexivity].
        intros _. split; [now apply Hs|now apply Hl].
Qed.

End CredentialFacts.

(** ** The chat completions route *)

Section ServerFacts.

Variable JSON_parse : string -> option JValue.
Variables JSON_stringify JSON_stringify_pretty : JValue -> string.
Variable toUpperCase : string -> string.
Variable cascade : WindsurfCredentials -> string -> string -> GeneratorRun.
Variable ALIAS_TO_CANONICAL : string -> option string.
Variable VARIANT_CATALOG : string -> option CatalogEntry.
Variable NAME_TO_ENUM : string -> option Z.
Variable is_canonical : string -> bool.
Variable getDefaultModel : string.
Variable getCanonicalModels : list string.
Variable getModelVariants : string -> option (list (string * string)).

Let serve := serve_chat JSON_parse JSON_stringify JSON_stringify_pretty toUpperCase
               cascade ALIAS_TO_CANONICAL VARIANT_CATALOG NAME_TO_ENUM is_canonical
               getDefaultModel.
Let route := fetch JSON_parse JSON_stringify JSON_stringify_pretty toUpperCase cascade
               ALIAS_TO_CANONICAL VARIANT_CATALOG NAME_TO_ENUM is_canonical
               getDefaultModel getCanonicalModels getModelVariants.

Lemma openAIError_shape code message details :
  openai_error_body (body (openAIError code message details)).
Proof. unfold openAIError, openai_error_body. simpl. eexists. reflexivity. Qed.

Ltac error_response :=
  split; [apply openAIError_shape | reflexivity].

Lemma fetch_chat_path gate w ent req :
  is_chat_path (pathname req) = true ->
  route gate w ent req
  = chat_completions JSON_parse JSON_stringify JSON_stringify_pretty toUpperCase
      cascade ALIAS_TO_CANONICAL VARIANT_CATALOG NAME_TO_ENUM is_canonical
      getDefaultModel gate w ent req.
Proof.
  unfold route, fetch, is_chat_path. intros H.
  destruct (String.eqb_spec (pathname req) "/v1/chat/completions") as [->|_];
    [reflexivity|].
  destruct (String.eqb_spec (pathname req) "/chat/completions") as [->|_];
    [reflexivity|discriminate].
Qed.

Lemma serve_chat_propagates w ent req e :
  getCredentials JSON_parse w = Throw e -> serve w ent req = Throw e.
Proof. unfold serve, serve_chat. now intros ->. Qed.

(** C1, as amended.  When the credential resolver fails during a request to
    the chat completions route, the response carries the uniform error
    body.  Its status is 503 when the readiness gate found no language
    server, and 500 when the gate had passed, whatever the resolver raises
    then: API_KEY_MISSING, or NOT_RUNNING when the language server went
    away since the gate listed the processes.  When the system is the same
    at both listings, the status is 503 for NOT_RUNNING and 500 for every
    other failure. *)
Theorem chat_status_when_resolver_fails gate w ent req e :
  is_chat_path (pathname req) = true ->
  getCredentials JSON_parse w = Throw e ->
  openai_error_body (body (route gate w ent req))
  /\ status (route gate w ent req)
     = (if isWindsurfRunning gate then 500%Z else 503%Z)
  /\ (gate = w ->
      status (route gate w ent req)
      = match error_code e with
        | Some NOT_RUNNING => 503%Z
        | _ => 500%Z
        end).
Proof.
  intros Hpath He. rewrite (fetch_chat_path gate w ent req Hpath).
  unfold chat_completions.
  assert (Hserve : serve w ent req = Throw e) by exact (serve_chat_propagates w ent req e He).
  fold serve. rewrite Hserve.
  split; [|split].
  - destruct (isWindsurfRunning gate); cbn [negb]; apply openAIError_shape.
  - destruct (isWindsurfRunning gate); reflexivity.
  - intros ->.
    destruct (getCredentials_throws JSON_parse w e He) as [[Hc Hr]|[Hc Hr]];
      rewrite Hc, Hr; reflexivity.
Qed.

(** Whatever is thrown inside the guarded block becomes a 500. *)
Theorem chat_status_on_exception gate w ent req e :
  is_chat_path (pathname req) = true ->
  isWindsurfRunning gate = true ->
  serve w ent req = Throw e ->
  openai_error_body (body (route gate w ent req))
  /\ status (route gate w ent req) = 500%Z.
Proof.
  intros Hpath Hr He. rewrite (fetch_chat_path gate w ent req Hpath).
  unfold chat_completions. rewrite Hr. cbn [negb]. fold serve. rewrite He.
  error_response.
Qed.

End ServerFacts.

(** ** The claims on concrete systems *)

(** C1 fails as stated: the language server runs, the resolver raises the
    tagged error API_KEY_MISSING, and the status is 500, not 503. *)
Lemma api_key_missing_gives_500 :
  isWindsurfRunning Sample.keyless_world = true
  /\ getCredentials RefJson.parse Sample.keyless_world = Throw api_key_missing
  /\ status (Sample.fetch_ref Sample.hello_server Sample.keyless_world
               Sample.keyless_world Sample.entropy
               (Sample.chat_post Sample.plain_request)) = 500%Z.
Proof. vm_compute. repeat split. Qed.

(** C1 as amended, where the language server loses its CSRF token between
    the gate and the resolver: the resolver fails with NOT_RUNNING and the
    status is 500. *)
Lemma chat_status_when_resolver_fails_witness :
  openai_error_body
    (body (Sample.fetch_ref Sample.hello_server Sample.ready_world
             Sample.tokenless_world Sample.entropy
             (Sample.chat_post Sample.plain_request)))
  /\ status (Sample.fetch_ref Sample.hello_server Sample.ready_world
               Sample.tokenless_world Sample.entropy
               (Sample.chat_post Sample.plain_request)) = 500%Z
  /\ (Sample.ready_world = Sample.tokenless_world ->
      status (Sample.fetch_ref Sample.hello_server Sample.ready_world
                Sample.tokenless_world Sample.entropy
                (Sample.chat_post Sample.plain_request)) = 503%Z).
Proof.
  exact (chat_status_when_resolver_fails
           RefJson.parse RefStringify.stringify RefStringify.stringify_pretty
           RefUpper.toUpperCase
           Sample.hello_server RefRegistry.ALIAS_TO_CANONICAL
           RefRegistry.VARIANT_CATALOG RefRegistry.NAME_TO_ENUM
           RefRegistry.is_canonical RefRegistry.getDefaultModel
           RefRegistry.getCanonicalModels RefRegistry.getModelVariants
           Sample.ready_world Sample.tokenless_world Sample.entropy
           (Sample.chat_post Sample.plain_request) not_found_error
           eq_refl eq_refl).
Defined.

(** The same request when the system does not change: the gate itself
    answers, 503. *)
Example tokenless_server_gives_503 :
  status (Sample.fetch_ref Sample.hello_server Sample.tokenless_world
            Sample.tokenless_world Sample.entropy
            (Sample.chat_post Sample.plain_request)) = 503%Z.
Proof. reflexivity. Qed.

(** C2 fails as stated: a process matching the platform pattern runs, its
    command line has a PID and no [--csrf_token], and the resolver raises
    NOT_RUNNING. *)
Lemma tokenless_server_raises_not_running :
  listing_lines Sample.tokenless_world = [Sample.tokenless_line; Sample.grep_line]
  /\ Js.includes Sample.tokenless_line
                 (getLanguageServerPattern (platform Sample.tokenless_world)) = true
  /\ pidMatch Sample.tokenless_line = Some "4242"
  /\ csrfMatch Sample.tokenless_line = None
  /\ getCredentials RefJson.parse Sample.tokenless_world
     = Throw (WindsurfError "Windsurf language server not found. Is Windsurf running?"
                            NOT_RUNNING).
Proof. vm_compute. repeat split. Qed.

(** C2 as amended, on a listing whose single line has no CSRF token. *)
Lemma tokenless_server_is_not_running_witness :
  getLanguageServerProcesses Sample.keyless_world <> []
  /\ getCredentials RefJson.parse
       {| platform := linux;
          ps_output := Some Sample.tokenless_line;
          port_probes := Sample.listening_41002;
          state_db_exists := false; state_db_value := None;
          legacy_exists := false; legacy_content := None |}
     = Throw not_found_error.
Proof.
  split; [vm_compute; discriminate|].
  apply (proj1 (proj2 (tokenless_server_is_not_running RefJson.parse _))).
  intros l [<-|[]] _. vm_compute. reflexivity.
Defined.

(** C5 fails as stated: on a platform outside the state-path table the
    legacy file yields a key, and [getApiKey] throws API_KEY_MISSING. *)
Lemma legacy_key_ignored_on_other_platform :
  apiKey_from_legacy RefJson.parse Sample.freebsd_world = Some (JString "sk-legacy-02")
  /\ getApiKey RefJson.parse Sample.freebsd_world
     = Throw (WindsurfError "Unsupported platform: freebsd" API_KEY_MISSING).
Proof. vm_compute. split; reflexivity. Qed.

(** C5 as amended, on Linux with a key in the state database. *)
Lemma getApiKey_by_source_witness :
  getApiKey RefJson.parse Sample.ready_world = Ok (JString "sk-ws-01").
Proof.
  apply (proj1 (proj1 (getApiKey_by_source RefJson.parse Sample.ready_world) eq_refl)).
  split; [reflexivity|].
  eexists. split; [reflexivity|]. split; [vm_compute; discriminate|].
  eexists. split; [vm_compute; reflexivity|]. split; reflexivity.
Defined.

(** ** Tool arguments *)

Section NormalizeFacts.

Variable JSON_parse : string -> option JValue.

(** A parsed value is no larger than its text: every node of the value
    takes at least one character of the text, and a string at least as many
    as it is long, plus its quotes. *)
Hypothesis JSON_parse_size :
  forall text v, JSON_parse text = Some v -> jsize v <= String.length text.

Let normalize := normalizeToolArguments JSON_parse.
Let within := normalize_within JSON_parse.

(** The statement of one iteration of the loop over [Object.entries]. *)
Let step (f : JValue -> JValue) (result : list (string * JValue))
    (kv : string * JValue) : list (string * JValue) :=
  assign result (fst kv) (f (snd kv)).

Lemma jsize_pos v : 1 <= jsize v.
Proof. destruct v; simpl; lia. Qed.

Lemma jsize_item x items : In x items -> jsize x <= list_sum (map jsize items).
Proof.
  induction items as [|y items IH]; simpl; [tauto|].
  intros [->|H]; [lia|]. specialize (IH H). lia.
Qed.

Lemma jsize_prop kv props :
  In kv props ->
  jsize (snd kv)
  <= list_sum (map (fun kv : string * JValue => match kv with (_, x) => jsize x end)
                   props).
Proof.
  induction props as [|[k y] props IH]; simpl; [tauto|].
  intros [<-|H]; simpl; [lia|]. specialize (IH H). lia.
Qed.

Lemma fold_left_ext_in (A B : Type) (f g : A -> B -> A) (l : list B) :
  (forall a b, In b l -> f a b = g a b) ->
  forall a, fold_left f l a = fold_left g l a.
Proof.
  induction l as [|b l IH]; intros H a; simpl; [reflexivity|].
  rewrite (H a b (or_introl eq_refl)). apply IH. intros a' b' Hb. apply H. now right.
Qed.

(** The bound is never exhausted: any two bounds at or above the size of
    the value give the same result. *)
Lemma within_enough n :
  forall m v, jsize v <= n -> jsize v <= m -> within n v = within m v.
Proof.
  induction n as [|n IH]; intros m v Hn Hm.
  - pose proof (jsize_pos v). lia.
  - destruct m as [|m]; [pose proof (jsize_pos v); lia|].
    destruct v as [| | | |s|items|props]; simpl; try reflexivity.
    + destruct (looksJson (Js.trim s)); [|reflexivity].
      destruct (JSON_parse (Js.trim s)) as [parsed|] eqn:E; [|reflexivity].
      apply JSON_parse_size in E. pose proof (JsFacts.trim_length s).
      simpl in Hn, Hm. apply IH; lia.
    + f_equal. apply map_ext_in. intros x Hx.
      pose proof (jsize_item x items Hx). simpl in Hn, Hm. apply IH; lia.
    + f_equal. apply fold_left_ext_in. intros acc kv Hkv. f_equal.
      pose proof (jsize_prop kv props Hkv). simpl in Hn, Hm. apply IH; lia.
Qed.

Lemma within_normalize n v : jsize v <= n -> within n v = normalize v.
Proof. intros H. unfold normalize, normalizeToolArguments. now apply within_enough. Qed.

(** The equations of [normalizeToolArguments], case by case as in the
    source. *)
Lemma normalize_nullish : normalize JUndefined = JObject [] /\ normalize JNull = JObject [].
Proof. split; reflexivity. Qed.

Lemma normalize_string s :
  normalize (JString s)
  = if looksJson (Js.trim s) then
      match JSON_parse (Js.trim s) with
      | Some parsed => normalize parsed
      | None => JString s
      end
    else JString s.
Proof.
  unfold normalize at 1, normalizeToolArguments. simpl.
  destruct (looksJson (Js.trim s)); [|reflexivity].
  destruct (JSON_parse (Js.trim s)) as [parsed|] eqn:E; [|reflexivity].
  apply JSON_parse_size in E. pose proof (JsFacts.trim_length s).
  apply within_normalize. lia.
Qed.

Lemma normalize_array items :
  normalize (JArray items) = JArray (map normalize items).
Proof.
  unfold normalize at 1, normalizeToolArguments. simpl. f_equal.
  apply map_ext_in. intros x Hx. apply within_normalize. now apply jsize_item.
Qed.

Lemma normalize_object props :
  normalize (JObject props) = JObject (fold_left (step normalize) props []).
Proof.
  unfold normalize at 1, normalizeToolArguments. simpl. f_equal.
  apply fold_left_ext_in. intros acc kv Hkv. unfold step. f_equal.
  apply within_normalize. now apply jsize_prop.
Qed.

Lemma normalize_scalar v :
  match v with JBool _ | JNumber _ => True | _ => False end -> normalize v = v.
Proof. destruct v; simpl; tauto || reflexivity. Qed.

(* ---------------------------------------------------------------- *)
(** Objects built by assignment *)

Lemma set_existing_none key value props :
  set_existing key value props = None <-> ~ In key (keys props).
Proof.
  induction props as [|[k v] props IH]; simpl; [tauto|].
  destruct (String.eqb_spec k key) as [->|Hne].
  - split; [discriminate|]. intros H. exfalso. apply H. now left.
  - destruct (set_existing key value props).
    + split; [discriminate|]. intros H. exfalso.
      assert (Hin : ~ In key (keys props)) by tauto. apply IH in Hin. discriminate.
    + split; [|reflexivity]. intros _ [H|H]; [congruence|].
      now apply (proj1 IH eq_refl).
Qed.

Lemma set_existing_some key value props props' :
  set_existing key value props = Some props' ->
  keys props' = keys props
  /\ forall kv, In kv props' -> kv = (key, value) \/ In kv props.
Proof.
  revert props'. induction props as [|[k v] props IH]; simpl; intros props';
    [discriminate|].
  destruct (String.eqb_spec k key) as [->|Hne].
  - intros [= <-]. split; [reflexivity|].
    intros kv [<-|H]; [now left|right; now right].
  - destruct (set_existing key value props) as [rest|]; [|discriminate].
    intros [= <-]. destruct (IH rest eq_refl) as [Hk Hv]. split.
    + simpl. now rewrite Hk.
    + intros kv [<-|H]; [right; now left|].
      destruct (Hv kv H) as [->|H']; [now left|right; now right].
Qed.

Lemma assign_built f result key x :
  built_by f result -> built_by f (assign result key (f x)).
Proof.
  intros (Hnd & Hproto & Hval). unfold assign.
  destruct (String.eqb_spec key "__proto__") as [->|Hkey]; [now repeat split|].
  destruct (set_existing key (f x) result) as [result'|] eqn:E.
  - destruct (set_existing_some _ _ _ _ E) as [Hk Hv]. repeat split.
    + now rewrite Hk.
    + now rewrite Hk.
    + intros kv Hkv. destruct (Hv kv Hkv) as [->|H]; [now exists x|now apply Hval].
  - apply set_existing_none in E. unfold built_by, keys in *. repeat split.
    + rewrite map_app. simpl. apply NoDup_app; [exact Hnd|repeat constructor; auto|].
      intros a Ha [<-|[]]. contradiction.
    + rewrite map_app, in_app_iff. simpl. intros [H|[H|[]]]; [contradiction|congruence].
    + intros kv. rewrite in_app_iff. intros [H|[<-|[]]]; [now apply Hval|now exists x].
Qed.

Lemma fold_built f props :
  forall result, built_by f result -> built_by f (fold_left (step f) props result).
Proof.
  induction props as [|kv props IH]; intros result H; simpl; [exact H|].
  apply IH. unfold step. now apply assign_built.
Qed.

Lemma built_nil f : built_by f [].
Proof. repeat split; simpl; [constructor|tauto|intros kv []]. Qed.

(** Re-assigning the properties of such an object, with values that [g]
    leaves alone, rebuilds it. *)
Lemma fold_rebuild g l :
  forall acc,
  NoDup (keys (acc ++ l)%list) -> ~ In "__proto__" (keys l) ->
  (forall kv, In kv l -> g (snd kv) = snd kv) ->
  fold_left (step g) l acc = (acc ++ l)%list.
Proof.
  induction l as [|[k v] l IH]; intros acc Hnd Hproto Hfix; simpl.
  - now rewrite app_nil_r.
  - pose proof (Hfix (k, v) (or_introl eq_refl)) as Hv. simpl in Hv.
    replace (step g acc (k, v)) with (assign acc k v)
      by (unfold step; simpl; now rewrite Hv).
    unfold assign.
    destruct (String.eqb_spec k "__proto__") as [->|_];
      [exfalso; apply Hproto; now left|].
    assert (Hfresh : ~ In k (keys acc)).
    { unfold keys in *. rewrite map_app in Hnd. simpl in Hnd.
      apply NoDup_remove_2 in Hnd. intros H. apply Hnd. apply in_or_app. now left. }
    apply (set_existing_none k v) in Hfresh. rewrite Hfresh.
    rewrite IH.
    + now rewrite <- app_assoc.
    + now rewrite <- app_assoc.
    + intros H. apply Hproto. now right.
    + intros kv H. apply Hfix. now right.
Qed.

(** Idempotence, by induction on a bound for the size of the argument. *)
Lemma normalize_idempotent_within n :
  forall v, jsize v <= n -> normalize (normalize v) = normalize v.
Proof.
  induction n as [|n IH]; intros v Hn; [pose proof (jsize_pos v); lia|].
  destruct v as [| | | |s|items|props]; try reflexivity.
  - rewrite normalize_string.
    destruct (looksJson (Js.trim s)) eqn:Hl.
    + destruct (JSON_parse (Js.trim s)) as [parsed|] eqn:E.
      * pose proof (JSON_parse_size _ _ E). pose proof (JsFacts.trim_length s).
        simpl in Hn. apply IH. lia.
      * rewrite normalize_string, Hl, E. reflexivity.
    + rewrite normalize_string, Hl. reflexivity.
  - rewrite !normalize_array, map_map. f_equal. apply map_ext_in. intros x Hx.
    pose proof (jsize_item x items Hx). simpl in Hn. apply IH. lia.
  - rewrite normalize_object.
    set (f := fun x => if Nat.leb (jsize x) n then normalize x else JObject []).
    assert (Hf : fold_left (step normalize) props [] = fold_left (step f) props []).
    { apply fold_left_ext_in. intros acc kv Hkv. unfold step, f.
      pose proof (jsize_prop kv props Hkv). simpl in Hn.
      destruct (Nat.leb_spec (jsize (snd kv)) n); [reflexivity|lia]. }
    rewrite Hf.
    destruct (fold_built f props [] (built_nil f)) as (Hnd & Hproto & Hval).
    rewrite normalize_object. f_equal.
    apply (fold_rebuild normalize _ []); auto.
    intros kv Hkv. destruct (Hval kv Hkv) as [x ->]. unfold f.
    destruct (Nat.leb_spec (jsize x) n); [now apply IH|reflexivity].
Qed.

(** C10.  [normalizeToolArguments] is idempotent; [null] and [undefined]
    become the empty object; a string whose trimmed form is not wrapped in
    braces or brackets is returned unchanged. *)
Theorem normalizeToolArguments_idempotent (x : JValue) :
  normalize (normalize x) = normalize x
  /\ normalize JNull = JObject []
  /\ normalize JUndefined = JObject []
  /\ (forall s, looksJson (Js.trim s) = false -> normalize (JString s) = JString s).
Proof.
  split; [now apply (normalize_idempotent_within (jsize x))|].
  split; [reflexivity|]. split; [reflexivity|].
  intros s Hs. now rewrite normalize_string, Hs.
Qed.

End NormalizeFacts.

(** ** The reference parser respects the size bound *)

Module RefJsonFacts.

Import RefJson.

Lemma jsize_positive v : 1 <= jsize v.
Proof. destruct v; simpl; lia. Qed.

Lemma skip_ws_length s : String.length (skip_ws s) <= String.length s.
Proof. apply JsFacts.drop_while_length. Qed.

Lemma string_body_size n :
  forall s b r, String.length s <= n -> string_body s = Some (b, r) ->
                String.length b + String.length r + 1 <= String.length s.
Proof.
  induction n as [|n IH]; intros s b r Hn.
  - destruct s; simpl in *; [discriminate|lia].
  - destruct s as [|c s1]; simpl; [discriminate|].
    destruct (Ascii.eqb c DQ); [intros [= <- <-]; simpl; lia|].
    destruct (Ascii.eqb c BACKSLASH).
    + destruct s1 as [|e s2]; [discriminate|].
      destruct (unescape e).
      * destruct (string_body s2) as [[b' r']|] eqn:E; [|discriminate].
        intros [= <- <-]. apply IH in E; simpl in *; lia.
      * destruct s2 as [|h1 [|h2 [|h3 [|h4 s6]]]]; try discriminate.
        destruct (Ascii.eqb e "u" && Ascii.eqb h1 "0" && Ascii.eqb h2 "0");
          [|discriminate].
        destruct (hex_val h3); [|discriminate].
        destruct (hex_val h4); [|discriminate].
        destruct (string_body s6) as [[b' r']|] eqn:E; [|discriminate].
        intros [= <- <-]. apply IH in E; simpl in *; lia.
    + destruct (Js.code c <? 32)%N; [discriminate|].
      destruct (string_body s1) as [[b' r']|] eqn:E; [|discriminate].
      intros [= <- <-]. apply IH in E; simpl in *; lia.
Qed.

Lemma drop_while_shrinks p s :
  Js.is_empty (Js.take_while p s) = false ->
  String.length (Js.drop_while p s) < String.length s.
Proof.
  destruct s as [|c s]; simpl; [discriminate|].
  destruct (p c); simpl; [|discriminate]. intros _.
  pose proof (JsFacts.drop_while_length p s). lia.
Qed.

Lemma number_at_size s v r :
  number_at s = Some (v, r) -> jsize v + String.length r <= String.length s.
Proof.
  unfold number_at.
  set (nr := match s with
             | String c r0 => if Ascii.eqb c "-" then (true, r0) else (false, s)
             | EmptyString => (false, s)
             end).
  assert (Hnr : String.length (snd nr) <= String.length s).
  { subst nr. destruct s as [|c r0]; simpl; [lia|].
    destruct (Ascii.eqb c "-"); simpl; lia. }
  destruct nr as [neg r0]. simpl in Hnr.
  destruct (Js.is_empty (Js.take_while Js.is_digit r0)) eqn:Hd; [discriminate|].
  simpl. match goal with |- (if ?c then _ else _) = _ -> _ => destruct c end;
    [discriminate|].
  intros [= <- <-]. pose proof (drop_while_shrinks _ _ Hd). simpl. lia.
Qed.

Lemma keyword_at_size kw v s x r :
  jsize v = 1 -> 1 <= String.length kw -> 1 <= String.length s ->
  keyword_at kw v s = Some (x, r) -> jsize x + String.length r <= String.length s.
Proof.
  intros Hv Hk Hs. unfold keyword_at. destruct (String.prefix kw s); [|discriminate].
  intros [= <- <-]. rewrite JsFacts.drop_length. lia.
Qed.

Lemma set_existing_psize key value props props' :
  set_existing key value props = Some props' ->
  psize props' <= psize props + jsize value.
Proof.
  revert props'. induction props as [|[k v] props IH]; simpl; intros props';
    [discriminate|].
  destruct (String.eqb k key).
  - intros [= <-]. unfold psize. simpl. lia.
  - destruct (set_existing key value props) as [rest|]; [|discriminate].
    intros [= <-]. specialize (IH rest eq_refl). unfold psize in *. simpl. lia.
Qed.

Lemma define_psize props key value :
  psize (define props key value) <= psize props + jsize value.
Proof.
  unfold define. destruct (set_existing key value props) as [props'|] eqn:E.
  - now apply set_existing_psize in E.
  - unfold psize. rewrite map_app, list_sum_app. simpl. lia.
Qed.

(** The three parsers consume at least what they return. *)
Lemma parsers_size n :
  (forall s v r, value_at n s = Some (v, r) ->
                 jsize v + String.length r <= String.length s)
  /\ (forall s vs r, elements_at n s = Some (vs, r) ->
                     list_sum (map jsize vs) + String.length r + 1 <= String.length s)
  /\ (forall acc s props r, members_at n acc s = Some (props, r) ->
                            psize props + String.length r + 1
                            <= psize acc + String.length s).
Proof.
  induction n as [|n (IHv & IHe & IHm)]; [repeat split; intros; discriminate|].
  split; [|split].
  - intros s v r. simpl. pose proof (skip_ws_length s) as Hs.
    destruct (skip_ws s) as [|c t]; [discriminate|]. simpl in Hs.
    destruct (Ascii.eqb c "{").
    { pose proof (skip_ws_length t) as Ht.
      destruct (skip_ws t) as [|d t'] eqn:Et; [discriminate|].
      destruct (Ascii.eqb d "}"); [intros [= <- <-]; simpl in *; lia|].
      destruct (members_at n [] (String d t')) as [[props rest]|] eqn:E; [|discriminate].
      intros [= <- <-]. apply IHm in E. unfold psize in E. simpl in *. lia. }
    destruct (Ascii.eqb c "[").
    { pose proof (skip_ws_length t) as Ht.
      destruct (skip_ws t) as [|d t'] eqn:Et; [discriminate|].
      destruct (Ascii.eqb d "]"); [intros [= <- <-]; simpl in *; lia|].
      destruct (elements_at n (String d t')) as [[items rest]|] eqn:E; [|discriminate].
      intros [= <- <-]. apply IHe in E. simpl in *. lia. }
    destruct (Ascii.eqb c DQ).
    { destruct (string_body t) as [[b rest]|] eqn:E; [|discriminate].
      intros [= <- <-]. apply (string_body_size (String.length t)) in E; [|lia].
      simpl in *. lia. }
    destruct (Ascii.eqb c "t").
    { intros H. apply keyword_at_size in H; simpl in *; try lia; reflexivity. }
    destruct (Ascii.eqb c "f").
    { intros H. apply keyword_at_size in H; simpl in *; try lia; reflexivity. }
    destruct (Ascii.eqb c "n").
    { intros H. apply keyword_at_size in H; simpl in *; try lia; reflexivity. }
    intros H. apply number_at_size in H. simpl in *. lia.
  - intros s vs r. simpl.
    destruct (value_at n s) as [[v t]|] eqn:Ev; [|discriminate].
    apply IHv in Ev. pose proof (skip_ws_length t) as Ht.
    destruct (skip_ws t) as [|c t']; [discriminate|]. simpl in Ht.
    destruct (Ascii.eqb c ",").
    { destruct (elements_at n t') as [[vs' rest]|] eqn:E; [|discriminate].
      intros [= <- <-]. apply IHe in E. simpl. lia. }
    destruct (Ascii.eqb c "]"); [|discriminate].
    intros [= <- <-]. simpl. lia.
  - intros acc s props r. simpl.
    destruct s as [|q0 r0]; [discriminate|].
    destruct (Ascii.eqb q0 DQ); [|discriminate].
    destruct (string_body r0) as [[key r1]|] eqn:Ek; [|discriminate].
    apply (string_body_size (String.length r0)) in Ek; [|lia].
    pose proof (skip_ws_length r1) as H1.
    destruct (skip_ws r1) as [|c r2]; [discriminate|]. simpl in H1.
    destruct (is_index_key key); [discriminate|].
    destruct (Ascii.eqb c ":"); [|discriminate].
    destruct (value_at n r2) as [[v r3]|] eqn:Ev; [|discriminate].
    apply IHv in Ev. pose proof (skip_ws_length r3) as H3.
    destruct (skip_ws r3) as [|d r4]; [discriminate|]. simpl in H3.
    pose proof (define_psize acc key v) as Hd.
    destruct (Ascii.eqb d ",").
    { intros E. apply IHm in E. pose proof (skip_ws_length r4). simpl. lia. }
    destruct (Ascii.eqb d "}"); [|discriminate].
    intros [= <- <-]. simpl. lia.
Qed.

Theorem parse_size text v :
  parse text = Some v -> jsize v <= String.length text.
Proof.
  unfold parse.
  destruct (value_at _ text) as [[x rest]|] eqn:E; [|discriminate].
  destruct (Js.is_empty (skip_ws rest)); [|discriminate].
  intros [= <-]. apply (proj1 (parsers_size _)) in E. lia.
Qed.

End RefJsonFacts.

(** C10 on the reference parser: an object whose property is a string that
    holds a JSON array. *)
Lemma normalizeToolArguments_idempotent_witness :
  let x := JObject [("path", JString " [1, null] "); ("__proto__", JNull)] in
  normalizeToolArguments RefJson.parse x
  = JObject [("path", JArray [Json.num 1; JObject []])]
  /\ normalizeToolArguments RefJson.parse (normalizeToolArguments RefJson.parse x)
     = normalizeToolArguments RefJson.parse x.
Proof.
  split; [reflexivity|].
  apply (normalizeToolArguments_idempotent RefJson.parse RefJsonFacts.parse_size).
Defined.

(** The bound of [RefJson.parse] is never exhausted: any two bounds at or
    above twice the length of the text give the same result. *)
Module RefJsonBound.

Import RefJson.

Lemma parsers_agree n :
  forall m,
    (forall s, 2 * String.length s + 1 <= n -> 2 * String.length s + 1 <= m ->
               value_at n s = value_at m s)
    /\ (forall s, 2 * String.length s + 2 <= n -> 2 * String.length s + 2 <= m ->
                  elements_at n s = elements_at m s)
    /\ (forall acc s, 2 * String.length s + 2 <= n -> 2 * String.length s + 2 <= m ->
                      members_at n acc s = members_at m acc s).
Proof.
  induction n as [|n IH]; intros m; [repeat split; intros; lia|].
  destruct m as [|m]; [repeat split; intros; lia|].
  destruct (IH m) as (IHv & IHe & IHm). split; [|split].
  - intros s Hn Hm. simpl. pose proof (RefJsonFacts.skip_ws_length s) as Hs.
    destruct (skip_ws s) as [|c t]; [reflexivity|]. simpl in Hs.
    pose proof (RefJsonFacts.skip_ws_length t) as Ht.
    destruct (Ascii.eqb c "{").
    { destruct (skip_ws t) as [|d t']; [reflexivity|].
      destruct (Ascii.eqb d "}"); [reflexivity|].
      rewrite (IHm [] (String d t')) by lia. reflexivity. }
    destruct (Ascii.eqb c "[").
    { destruct (skip_ws t) as [|d t']; [reflexivity|].
      destruct (Ascii.eqb d "]"); [reflexivity|].
      rewrite (IHe (String d t')) by lia. reflexivity. }
    reflexivity.
  - intros s Hn Hm. simpl. rewrite (IHv s) by lia.
    destruct (value_at m s) as [[v t]|] eqn:Ev; [|reflexivity].
    apply (proj1 (RefJsonFacts.parsers_size m)) in Ev.
    pose proof (RefJsonFacts.jsize_positive v) as Hv.
    pose proof (RefJsonFacts.skip_ws_length t) as Ht.
    destruct (skip_ws t) as [|c t']; [reflexivity|]. simpl in Ht.
    destruct (Ascii.eqb c ","); [|reflexivity].
    rewrite (IHe t') by lia. reflexivity.
  - intros acc s Hn Hm. simpl.
    destruct s as [|q0 r0]; [reflexivity|].
    destruct (Ascii.eqb q0 DQ); [|reflexivity].
    destruct (string_body r0) as [[key r1]|] eqn:Ek; [|reflexivity].
    apply (RefJsonFacts.string_body_size (String.length r0)) in Ek; [|lia].
    pose proof (RefJsonFacts.skip_ws_length r1) as H1.
    destruct (skip_ws r1) as [|c r2]; [reflexivity|]. simpl in H1.
    destruct (is_index_key key); [reflexivity|].
    destruct (Ascii.eqb c ":"); [|reflexivity].
    simpl in Hn, Hm. rewrite (IHv r2) by lia.
    destruct (value_at m r2) as [[v r3]|] eqn:Ev; [|reflexivity].
    apply (proj1 (RefJsonFacts.parsers_size m)) in Ev.
    pose proof (RefJsonFacts.skip_ws_length r3) as H3.
    destruct (skip_ws r3) as [|d r4]; [reflexivity|]. simpl in H3.
    destruct (Ascii.eqb d ","); [|reflexivity].
    pose proof (RefJsonFacts.skip_ws_length r4) as H4.
    rewrite (IHm (define acc key v) (skip_ws r4)) by lia. reflexivity.
Qed.

Theorem parse_bound_enough text n :
  2 * String.length text + 2 <= n ->
  value_at n text = value_at (2 * String.length text + 2) text.
Proof.
  intros H. apply (proj1 (parsers_agree n (2 * String.length text + 2))); lia.
Qed.

End RefJsonBound.

(** ** The plan parser *)

Section PlanFacts.

Variable JSON_parse : string -> option JValue.

Let parse_plan := parseToolCallPlan JSON_parse.

Lemma get_or_throw_truthy v key :
  Json.truthy v = true -> Json.get_or_throw v key = Ok (Json.get v key).
Proof. destruct v; simpl; congruence. Qed.

Lemma has_action_ok parsed a :
  exists b, has_action parsed a = Ok b
            /\ (b = true -> Json.truthy parsed = true).
Proof.
  unfold has_action. destruct (Json.truthy parsed) eqn:Ht.
  - rewrite (get_or_throw_truthy _ _ Ht). simpl. eauto.
  - exists false. split; [reflexivity|discriminate].
Qed.

(** The filter keeps truthy elements whose [name] is a string, and throws
    on none. *)
Lemma filterM_has_string_name items :
  exists kept,
    filterM has_string_name items = Ok kept
    /\ Forall (fun t => Json.truthy t = true
                        /\ Json.is_string (Json.get t "name") = true) kept.
Proof.
  induction items as [|t items (kept & Hk & Hall)]; simpl; [eauto|].
  rewrite Hk. unfold has_string_name. destruct (Json.truthy t) eqn:Ht; simpl.
  - rewrite (get_or_throw_truthy _ _ Ht). simpl.
    destruct (Json.is_string (Json.get t "name")) eqn:Hs; eauto.
  - eauto.
Qed.

(** On what the filter kept, the mapping throws on none and copies the
    string name. *)
Lemma mapM_call_of kept :
  Forall (fun t => Json.truthy t = true
                   /\ Json.is_string (Json.get t "name") = true) kept ->
  exists calls,
    mapM (call_of JSON_parse) kept = Ok calls
    /\ Forall (fun tc => Json.is_string (tc_name tc) = true) calls.
Proof.
  induction 1 as [|t kept [Ht Hs] _ (calls & Hc & Hall)]; simpl; [eauto|].
  unfold call_of. rewrite !(get_or_throw_truthy _ _ Ht). cbn [bind].
  fold (call_of JSON_parse). rewrite Hc. cbn [bind].
  eexists. split; [reflexivity|]. constructor; [exact Hs|exact Hall].
Qed.

(** Once [JSON.parse] has returned, the guarded property reads of the [try]
    branch never throw. *)
Lemma plan_of_parsed_ok parsed :
  exists plan, plan_of_parsed JSON_parse parsed = Ok plan /\ well_formed_plan plan.
Proof.
  unfold plan_of_parsed.
  destruct (has_action_ok parsed "final") as (fin & -> & Hfin). simpl.
  assert (Hc : exists ok, (if fin
                           then c <- Json.get_or_throw parsed "content" ;;
                                Ok (Json.is_string c)
                           else Ok false) = Ok ok
                          /\ (ok = true -> Json.truthy parsed = true
                                           /\ Json.is_string (Json.get parsed "content")
                                              = true)).
  { destruct fin.
    - rewrite (get_or_throw_truthy _ _ (Hfin eq_refl)). simpl.
      eexists. split; [reflexivity|]. intros H. split; [now apply Hfin|exact H].
    - exists false. split; [reflexivity|discriminate]. }
  destruct Hc as (ok & -> & Hok). simpl. destruct ok.
  - destruct (Hok eq_refl) as [Ht Hs]. rewrite (get_or_throw_truthy _ _ Ht). simpl.
    eexists. split; [reflexivity|exact Hs].
  - destruct (has_action_ok parsed "tool_call") as (call & -> & Hcall). simpl.
    assert (Hts : exists ts, (if call then Json.get_or_throw parsed "tool_calls"
                              else Ok JUndefined) = Ok ts).
    { destruct call; [|eauto]. rewrite (get_or_throw_truthy _ _ (Hcall eq_refl)). eauto. }
    destruct Hts as (ts & ->). simpl.
    destruct ts as [| | | | |items|]; try (exists None; split; [reflexivity|exact I]).
    destruct (filterM_has_string_name items) as (kept & -> & Hkept). simpl.
    destruct (mapM_call_of kept Hkept) as (calls & -> & Hcalls). simpl.
    eexists. split; [reflexivity|exact Hcalls].
Qed.

Lemma tagged_call_name m tc :
  tagged_call JSON_parse m = Some tc -> Json.is_string (tc_name tc) = true.
Proof.
  unfold tagged_call, JSON_parse_or_throw.
  destruct (JSON_parse (snd m)); simpl; [|discriminate]. now intros [= <-].
Qed.

Lemma filter_map_Forall (A B : Type) (f : A -> option B) (P : B -> Prop) l :
  (forall a b, f a = Some b -> P b) -> Forall P (filter_map f l).
Proof.
  intros H. induction l as [|a l IH]; simpl; [constructor|].
  destruct (f a) as [b|] eqn:E; [constructor; eauto|exact IH].
Qed.

(** The [catch] branch never throws. *)
Lemma parse_tagged_calls_ok output :
  exists plan, parse_tagged_calls JSON_parse output = Ok plan /\ well_formed_plan plan.
Proof.
  unfold parse_tagged_calls.
  destruct (tool_call_matches output) as [|m ms]; [exists None; now split|].
  pose proof (filter_map_Forall _ _ (tagged_call JSON_parse)
                (fun tc => Json.is_string (tc_name tc) = true) (m :: ms)
                tagged_call_name) as Hall.
  destruct (filter_map (tagged_call JSON_parse) (m :: ms)) as [|tc tcs];
    [exists None; now split|].
  eexists. split; [reflexivity|exact Hall].
Qed.

(** C9.  [parseToolCallPlan] returns on every string, never throws, and
    what it returns is [null] or a well-formed plan: in a tool-call plan
    every element of [tool_calls] has a string [name]. *)
Theorem parseToolCallPlan_total (output : string) :
  exists plan, parse_plan output = Ok plan /\ well_formed_plan plan.
Proof.
  unfold parse_plan, parseToolCallPlan.
  destruct (Js.indexOf "{" output) as [start|]; [|exists None; now split].
  destruct (Js.lastIndexOf "}" output) as [stop|]; [|exists None; now split].
  destruct (Nat.leb stop start); [exists None; now split|].
  destruct (JSON_parse_or_throw JSON_parse (Js.slice start (S stop) output))
    as [parsed|e]; simpl.
  - destruct (plan_of_parsed_ok parsed) as (plan & -> & Hwf). simpl. eauto.
  - apply parse_tagged_calls_ok.
Qed.

End PlanFacts.
(** ** Streams and the messages forwarded to Cascade *)

(** [s.includes(p)] holds exactly when [p] occurs in [s]. *)
Module IncludesFacts.



Lemma app_assoc (a b c : string) : (a ++ b) ++ c = a ++ b ++ c.
Proof. induction a as [|x a IH]; simpl; [reflexivity|]. now rewrite IH. Qed.





End IncludesFacts.

Section StreamFacts.

Variable JSON_parse : string -> option JValue.
Variables JSON_stringify JSON_stringify_pretty : JValue -> string.
Variable toUpperCase : string -> string.
Variable cascade : WindsurfCredentials -> string -> string -> GeneratorRun.
Variable ALIAS_TO_CANONICAL : string -> option string.
Variable VARIANT_CATALOG : string -> option CatalogEntry.
Variable NAME_TO_ENUM : string -> option Z.
Variable is_canonical : string -> bool.
Variable getDefaultModel : string.

Let prompt := tool_prompt JSON_stringify JSON_stringify_pretty toUpperCase.
Let effective := effective_model ALIAS_TO_CANONICAL VARIANT_CATALOG NAME_TO_ENUM
                   is_canonical getDefaultModel.
Let plain_stream := createStreamingResponse cascade ALIAS_TO_CANONICAL VARIANT_CATALOG
                      NAME_TO_ENUM is_canonical getDefaultModel.
Let planner_stream := handleToolPlanningStream JSON_parse JSON_stringify
                        JSON_stringify_pretty toUpperCase cascade getDefaultModel.
Let plan := planToolCall JSON_parse JSON_stringify JSON_stringify_pretty toUpperCase
              cascade getDefaultModel.
Let serve := serve_chat JSON_parse JSON_stringify JSON_stringify_pretty toUpperCase
               cascade ALIAS_TO_CANONICAL VARIANT_CATALOG NAME_TO_ENUM is_canonical
               getDefaultModel.



(* ---------------------------------------------------------------- *)

Lemma map_indexed_events (A : Type) (g : A -> nat -> JValue) l :
  forall i, map_indexed (fun a k => SseData (g a k)) i l = map SseData (map_indexed g i l).
Proof.
  induction l as [|a l IH]; intros i; simpl; [reflexivity|]. now rewrite IH.
Qed.

Lemma map_indexed_Forall2 (A B : Type) (f : A -> nat -> B) (P : A -> B -> Prop) l :
  (forall a i, P a (f a i)) -> forall i, Forall2 P l (map_indexed f i l).
Proof.
  intros H. induction l as [|a l IH]; intros i; simpl; constructor; [apply H|apply IH].
Qed.

Lemma map_indexed_positions (A B C : Type) (f : A -> nat -> B) (g : B -> C)
      (h : nat -> C) l :
  (forall a i, g (f a i) = h i) ->
  forall i, map g (map_indexed f i l) = map h (seq i (length l)).
Proof.
  intros H. induction l as [|a l IH]; intros i; simpl; [reflexivity|].
  now rewrite H, IH.
Qed.

Lemma content_chunks ent id model_echo chunks :
  forall i,
    Forall2 is_content_chunk chunks
            (map_indexed (fun chunk k =>
                            createOpenAICompatibleResponse ent k id model_echo chunk
                                                           true None) i chunks).
Proof.
  apply map_indexed_Forall2. intros chunk k. split; reflexivity.
Qed.

(** C4, as amended.  On the plain path, when the generator ends without an
    error, the stream is one content chunk per generated chunk, each with
    [finish_reason: null], then one chunk with empty content and
    [finish_reason: "stop"], then [DONE].  On the tool-planning path, when
    planning succeeds, the stream is a single chunk that carries the answer
    or the tool calls together with the terminal [finish_reason], then
    [DONE]: no separate stop chunk is sent.  The chunk of a tool-call plan
    has the role [assistant] and one entry per call of the plan, in order:
    its position, and the name and the arguments of the call. *)
Theorem streams_end_with_terminal_chunk ent credentials request :
  (forall msgs,
      messages request = Some msgs ->
      thrown (streamChatGenerator cascade credentials (effective request)
                                  (convert_messages msgs)) = None ->
      exists contents final,
        plain_stream ent credentials request
        = (map SseData contents ++ [SseData final; SseDone])%list
        /\ Forall2 is_content_chunk
                   (yielded (streamChatGenerator cascade credentials (effective request)
                                                 (convert_messages msgs)))
                   contents
        /\ is_stop_chunk final)
  /\ (forall p text model_name,
        plan credentials request = Ok (p, text, model_name) ->
        exists chunk,
          planner_stream ent credentials request = [SseData chunk; SseDone]
          /\ match p with
             | Some (PlanToolCall calls) =>
                 finish_reason_of chunk = JString "tool_calls"
                 /\ exists mapped,
                      delta_of chunk = JObject [ ("role", JString "assistant");
                                                 ("tool_calls", JArray mapped) ]
                      /\ Forall2 (carries_call JSON_stringify) calls mapped
                      /\ map (fun entry => Json.get entry "index") mapped
                         = map (fun i => Json.num (Z.of_nat i)) (seq 0 (length calls))
             | _ =>
                 finish_reason_of chunk = JString "stop"
                 /\ delta_of chunk = JObject [("content", final_content p text)]
             end).
Proof.
  split.
  - intros msgs Hm Hok. unfold plain_stream, createStreamingResponse, messages_or_throw.
    fold effective. rewrite Hm, Hok. rewrite map_indexed_events.
    eexists. eexists. split; [reflexivity|]. split; [apply content_chunks|].
    split; reflexivity.
  - intros p text model_name Hp. unfold planner_stream, handleToolPlanningStream.
    fold plan. rewrite Hp.
    destruct p as [[c|calls]|].
    + eexists. split; [reflexivity|]. split; reflexivity.
    + eexists. split; [reflexivity|]. split; [reflexivity|].
      eexists. split; [reflexivity|]. split.
      * apply map_indexed_Forall2. intros tc i. repeat split.
      * apply map_indexed_positions. intros tc i. reflexivity.
    + eexists. split; [reflexivity|]. split; reflexivity.
Qed.

(* ---------------------------------------------------------------- *)









End StreamFacts.
(** ** The model resolver *)

(** The resolver on the reference registry, at the inputs of the spec's
    scenarios and of variant.test.ts that the registry covers. *)
Example resolve_colon_variant :
  Sample.resolve_ref "gpt-5.2:high" None
  = {| modelId := "gpt-5.2"; variant := Some "high"; enumValue := 402;
       modelUid := None |}.
Proof. reflexivity. Qed.

Example resolve_suffix_variant_with_alias :
  Sample.resolve_ref "gpt-5-2-high" None
  = {| modelId := "gpt-5.2"; variant := Some "high"; enumValue := 402;
       modelUid := None |}.
Proof. reflexivity. Qed.

Example resolve_override :
  Sample.resolve_ref "gpt-5.2:high" (Some "low")
  = {| modelId := "gpt-5.2"; variant := Some "low"; enumValue := 400;
       modelUid := None |}.
Proof. reflexivity. Qed.

Example resolve_string_uid_default :
  Sample.resolve_ref "gpt-5.3-codex" None
  = {| modelId := "gpt-5.3-codex"; variant := Some "medium"; enumValue := 0;
       modelUid := Some "gpt-5-3-codex-medium" |}.
Proof. reflexivity. Qed.

Example resolve_unknown_model :
  Sample.resolve_ref "unknown-model" None
  = {| modelId := "claude-3.5-sonnet"; variant := None; enumValue := 166;
       modelUid := None |}.
Proof. reflexivity. Qed.

Example resolve_without_variant :
  Sample.resolve_ref "gemini-3.0-pro" None
  = {| modelId := "gemini-3.0-pro"; variant := None; enumValue := 412;
       modelUid := None |}.
Proof. reflexivity. Qed.

(** ** Matching consumes text, so the scan for matches never exhausts its bound *)

Module ReFacts.

Lemma prefix_length t : forall s, String.prefix t s = true -> String.length t <= String.length s.
Proof.
  induction t as [|c t IH]; intros [|d s]; simpl; try lia; try discriminate.
  destruct (Ascii.ascii_dec c d); [|discriminate]. intros H. apply IH in H. lia.
Qed.

Lemma star_consumes (R : Type) cls (k : string -> option R) :
  forall s x, Re.star cls k s = Some x ->
              exists s', k s' = Some x /\ String.length s' <= String.length s.
Proof.
  induction s as [|c s IH]; intros x; simpl.
  - intros H. now exists EmptyString.
  - destruct (cls c).
    + destruct (Re.star cls k s) as [y|] eqn:E.
      * intros [= <-]. destruct (IH y eq_refl) as (s' & Hk & Hl).
        exists s'. split; [exact Hk|lia].
      * intros H. exists (String c s). split; [exact H|simpl; lia].
    + intros H. exists (String c s). split; [exact H|simpl; lia].
Qed.

Lemma lazy_star_consumes (R : Type) cls (k : string -> option R) :
  forall s x, Re.lazy_star cls k s = Some x ->
              exists s', k s' = Some x /\ String.length s' <= String.length s.
Proof.
  induction s as [|c s IH]; intros x; simpl.
  - destruct (k EmptyString) as [y|] eqn:E; [|discriminate].
    intros [= <-]. now exists EmptyString.
  - destruct (k (String c s)) as [y|] eqn:E.
    + intros [= <-]. exists (String c s). split; [exact E|simpl; lia].
    + destruct (cls c); [|discriminate]. intros H.
      destruct (IH x H) as (s' & Hk & Hl). exists s'. split; [exact Hk|lia].
Qed.

(** Whatever way [r] matched, the continuation ran on a text at least
    [min_len r] characters shorter. *)
Lemma run_consumes r :
  forall (R : Type) s caps (k : string -> list string -> option R) x,
    Re.run r s caps k = Some x ->
    exists s' caps', k s' caps' = Some x /\
                     String.length s' + Re.min_len r <= String.length s.
Proof.
  induction r as [|text|cls|cls|cls|r IH|r1 IH1 r2 IH2|r1 IH1 r2 IH2|r IH|];
    intros R s caps k x; simpl.
  - intros H. exists s, caps. split; [exact H|lia].
  - destruct (String.prefix text s) eqn:E; [|discriminate]. intros H.
    apply prefix_length in E.
    exists (Js.drop (String.length text) s), caps. split; [exact H|].
    rewrite JsFacts.drop_length. lia.
  - intros H. apply star_consumes in H. destruct H as (s' & Hk & Hl).
    exists s', caps. split; [exact Hk|lia].
  - destruct s as [|c s]; [discriminate|]. destruct (cls c); [|discriminate].
    intros H. apply star_consumes in H. destruct H as (s' & Hk & Hl).
    exists s', caps. split; [exact Hk|simpl; lia].
  - intros H. apply lazy_star_consumes in H. destruct H as (s' & Hk & Hl).
    exists s', caps. split; [exact Hk|lia].
  - intros H. apply IH in H. destruct H as (s' & caps' & Hk & Hl).
    eexists s', _. split; [exact Hk|exact Hl].
  - intros H. apply IH1 in H. destruct H as (s1 & caps1 & Hk & Hl1).
    apply IH2 in Hk. destruct Hk as (s2 & caps2 & Hk & Hl2).
    exists s2, caps2. split; [exact Hk|lia].
  - destruct (Re.run r1 s caps k) as [y|] eqn:E.
    + intros [= <-]. apply IH1 in E. destruct E as (s' & caps' & Hk & Hl).
      exists s', caps'. split; [exact Hk|lia].
    + intros H. apply IH2 in H. destruct H as (s' & caps' & Hk & Hl).
      exists s', caps'. split; [exact Hk|lia].
  - destruct (Re.run r s caps (fun _ caps1 => Some caps1)) as [caps1|];
      [|discriminate].
    intros H. exists s, caps1. split; [exact H|lia].
  - destruct (Js.is_empty s); [|discriminate].
    intros H. exists s, caps. split; [exact H|lia].
Qed.

Lemma match_start_consumes r s caps rest :
  Re.match_start r s = Some (caps, rest) ->
  String.length rest + Re.min_len r <= String.length s.
Proof.
  unfold Re.match_start. intros H. apply run_consumes in H.
  destruct H as (s' & caps' & [= _ <-] & Hl). exact Hl.
Qed.

Lemma search_consumes r :
  forall s caps rest, Re.search r s = Some (caps, rest) ->
                      String.length rest + Re.min_len r <= String.length s.
Proof.
  induction s as [|c s IH]; intros caps rest; simpl.
  - destruct (Re.match_start r EmptyString) as [[caps' rest']|] eqn:E; [|discriminate].
    intros [= <- <-]. now apply match_start_consumes in E.
  - destruct (Re.match_start r (String c s)) as [[caps' rest']|] eqn:E.
    + intros [= <- <-]. now apply match_start_consumes in E.
    + intros H. apply IH in H. simpl. lia.
Qed.

(** For an expression that matches no empty text, any bound at or above the
    length of the text gives the same matches. *)
Theorem matchAll_within_enough r (Hr : 0 < Re.min_len r) n :
  forall s, String.length s <= n -> Re.matchAll_within n r s = Re.matchAll r s.
Proof.
  assert (H : forall n m s, String.length s <= n -> String.length s <= m ->
                            Re.matchAll_within n r s = Re.matchAll_within m r s).
  { assert (Hnil : forall m, Re.matchAll_within m r EmptyString = []).
    { intros [|m]; [reflexivity|]. cbn [Re.matchAll_within].
      destruct (Re.search r EmptyString) as [[caps rest]|] eqn:E; [|reflexivity].
      apply search_consumes in E. simpl in E. lia. }
    clear n. induction n as [|n IH]; intros m s Hn Hm.
    - destruct s; [|simpl in Hn; lia]. now rewrite !Hnil.
    - destruct m as [|m].
      + destruct s; [|simpl in Hm; lia]. now rewrite !Hnil.
      + cbn [Re.matchAll_within].
        destruct (Re.search r s) as [[caps rest]|] eqn:E; [|reflexivity].
        f_equal. apply search_consumes in E. apply IH; lia. }
  intros s Hs. unfold Re.matchAll. now apply H.
Qed.

End ReFacts.

(** The scan for tagged calls takes every match of the text. *)
Theorem tool_call_scan_complete n output :
  String.length output <= n ->
  map (fun caps => (nth 0 caps EmptyString, nth 1 caps EmptyString))
      (Re.matchAll_within n TOOL_CALL_RE output)
  = tool_call_matches output.
Proof.
  intros Hn. unfold tool_call_matches. f_equal.
  apply ReFacts.matchAll_within_enough; [vm_compute; lia|exact Hn].
Qed.

(** Every tagged call that is found has its two groups. *)
Lemma tool_call_groups s caps rest :
  Re.search TOOL_CALL_RE s = Some (caps, rest) -> List.length caps = 2.
Proof.
  revert caps rest. induction s as [|c s IH]; intros caps rest.
  - vm_compute. discriminate.
  - cbn [Re.search]. destruct (Re.match_start TOOL_CALL_RE (String c s)) as [[caps' rest']|] eqn:E.
    + intros [= <- <-]. unfold Re.match_start, TOOL_CALL_RE in E. cbn [Re.Cat Re.run] in E.
      destruct (String.prefix "<tool_call>" (String c s)); [|discriminate].
      apply ReFacts.star_consumes in E. destruct E as (s1 & E & _).
      destruct s1 as [|c1 s1]; [discriminate|].
      destruct (is_name_char c1); [|discriminate].
      apply ReFacts.star_consumes in E. destruct E as (s2 & E & _).
      apply ReFacts.star_consumes in E. destruct E as (s3 & E & _).
      destruct (String.prefix "{" s3); [|discriminate].
      apply ReFacts.lazy_star_consumes in E. destruct E as (s4 & E & _).
      destruct (String.prefix "}" s4); [|discriminate].
      match type of E with
      | match ?m with _ => _ end = _ => destruct m as [caps2|] eqn:E2; [|discriminate]
      end.
      injection E as <- _.
      apply ReFacts.star_consumes in E2. destruct E2 as (s5 & E2 & _).
      match type of E2 with
      | match ?m with _ => _ end = _ => destruct m as [y|] eqn:E3
      end.
      * injection E2 as <-. destruct (String.prefix "<tool_call>" s5); [|discriminate].
        injection E3 as <-. reflexivity.
      * destruct (Js.is_empty s5); [|discriminate]. injection E2 as <-. reflexivity.
    + intros H. now apply IH in H.
Qed.

(** Two tagged calls; the lazy body of the first one stops at the first
    brace that the next tag follows. *)
Example tool_call_matches_two :
  tool_call_matches
    (Js.quoted "<tool_call>read_file {`path`:`a`} <tool_call> x.y-z  {`b`:{}}  ")
  = [ ("read_file", Js.quoted "{`path`:`a`}"); ("x.y-z", Js.quoted "{`b`:{}}") ].
Proof. vm_compute. reflexivity. Qed.

(** A closing brace that neither a tag nor the end of the text follows does
    not end the body: the match goes on to one that does. *)
Example tool_call_matches_backtracks :
  tool_call_matches (Js.quoted "<tool_call>read {`a`:1} tail <tool_call>w {} ")
  = [ ("read", Js.quoted "{`a`:1} tail <tool_call>w {}") ].
Proof. vm_compute. reflexivity. Qed.

(** ** The claims on concrete requests *)

(** The plan of the spec's scenario: JSON between prose, with the arguments
    given as a string that holds JSON. *)
Example parse_plan_between_prose :
  parseToolCallPlan RefJson.parse
    (Js.quoted "text before {`action`:`tool_call`,`tool_calls`:[{`name`:`read_file`,`arguments`:`{\`path\`:\`a.txt\`}`}]} text after")
  = Ok (Some (PlanToolCall
                [ {| tc_name := JString "read_file";
                     tc_arguments := JObject [("path", JString "a.txt")] |} ])).
Proof. reflexivity. Qed.

(** The tagged fallback, when the reply is not JSON. *)
Example parse_plan_tagged :
  parseToolCallPlan RefJson.parse
    (Js.quoted "<tool_call>read_file {`path`:`a`} <tool_call> x.y-z  {`b`:{}}  ")
  = Ok (Some (PlanToolCall
                [ {| tc_name := JString "read_file";
                     tc_arguments := JObject [("path", JString "a")] |};
                  {| tc_name := JString "x.y-z";
                     tc_arguments := JObject [("b", JObject [])] |} ])).
Proof. reflexivity. Qed.

Example credentials_of_ready_world :
  getCredentials RefJson.parse Sample.ready_world = Ok Sample.credentials.
Proof. reflexivity. Qed.

(** C4 fails as stated: the stream of the tool-planning path is the chunk
    that carries the answer, then [DONE]; the chunk before [DONE] has the
    content in its delta, and no chunk with an empty delta is sent. *)
Lemma planner_stream_has_no_stop_chunk :
  body (Sample.fetch_ref Sample.hello_server Sample.ready_world Sample.ready_world
          Sample.entropy (Sample.chat_post Sample.tool_request))
  = EventStream
      [ SseData (planning_chunk Sample.entropy "gpt-5.2"
                   (JObject [("content", JString "hello")]) "stop");
        SseDone ]
  /\ delta_of (planning_chunk Sample.entropy "gpt-5.2"
                 (JObject [("content", JString "hello")]) "stop")
     = JObject [("content", JString "hello")].
Proof. split; reflexivity. Qed.

(** C4 as amended, on the plain path with a server that yields [hello]. *)
Lemma streams_end_with_terminal_chunk_witness :
  exists contents final,
    createStreamingResponse Sample.hello_server RefRegistry.ALIAS_TO_CANONICAL
      RefRegistry.VARIANT_CATALOG RefRegistry.NAME_TO_ENUM RefRegistry.is_canonical
      RefRegistry.getDefaultModel Sample.entropy Sample.credentials
      (Sample.streamed Sample.plain_request)
    = (map SseData contents ++ [SseData final; SseDone])%list
    /\ Forall2 is_content_chunk ["hello"] contents
    /\ is_stop_chunk final.
Proof.
  exact (proj1 (streams_end_with_terminal_chunk
                  RefJson.parse RefStringify.stringify RefStringify.stringify_pretty
                  RefUpper.toUpperCase
                  Sample.hello_server RefRegistry.ALIAS_TO_CANONICAL
                  RefRegistry.VARIANT_CATALOG RefRegistry.NAME_TO_ENUM
                  RefRegistry.is_canonical RefRegistry.getDefaultModel
                  Sample.entropy Sample.credentials
                  (Sample.streamed Sample.plain_request))
               [Sample.user_message "hi"] eq_refl eq_refl).
Defined.

(** C4 as amended, on the tool-planning path with a server that plans one
    call: the single chunk before [DONE] carries the call. *)
Example planner_stream_carries_the_call :
  body (Sample.fetch_ref Sample.planning_server Sample.ready_world Sample.ready_world
          Sample.entropy (Sample.chat_post Sample.tool_request))
  = EventStream
      [ SseData
          (planning_chunk Sample.entropy "gpt-5.2"
             (JObject
                [ ("role", JString "assistant");
                  ("tool_calls",
                   JArray
                     [ JObject
                         [ ("index", Json.num 0);
                           ("id", JString "call_1762041600125_0");
                           ("type", JString "function");
                           ("function",
                            JObject
                              [ ("name", JString "read_file");
                                ("arguments",
                                 JString (Js.quoted "{`path`:`a.txt`}")) ]) ] ]) ])
             "tool_calls");
        SseDone ].
Proof. vm_compute. reflexivity. Qed.



(** C7 as amended, on a request with one user message and no tools. *)
Example plain_request_forwards_user_text :
  option_map cascade_text
             (match forwarded_messages RefStringify.stringify
                      RefStringify.stringify_pretty RefUpper.toUpperCase
                      Sample.plain_request with
              | Ok fwd => Some fwd
              | Throw _ => None
              end)
  = Some "hi".
Proof. reflexivity. Qed.

(* ================================================================== *)
(** * The wire format of the Cascade client *)
(* ================================================================== *)

Module WireFacts.

Local Open Scope Z_scope.

(** ** 32-bit operators on small numbers *)

Lemma wrap_small z : -2147483648 <= z < 2147483648 -> Int32.wrap z = z.
Proof. intros H. unfold Int32.wrap. rewrite Z.mod_small; lia. Qed.

Lemma lor_add a x s :
  0 <= s -> 0 <= a < 2 ^ s -> 0 <= x -> Z.lor a (x * 2 ^ s) = a + x * 2 ^ s.
Proof.
  intros Hs Ha Hx.
  assert (Hland : Z.land a (x * 2 ^ s) = 0).
  { apply Z.bits_inj'. intros i Hi. rewrite Z.land_spec, Z.bits_0.
    destruct (Z.lt_ge_cases i s) as [Hlt|Hge].
    - rewrite Z.mul_pow2_bits_low by lia. apply andb_false_r.
    - destruct (Z.eq_dec a 0) as [->|Hne]; [now rewrite Z.bits_0|].
      rewrite (Z.bits_above_log2 a i); [reflexivity|lia|].
      apply Z.lt_le_trans with s; [|exact Hge].
      apply Z.log2_lt_pow2; lia. }
  rewrite <- Z.lxor_lor by exact Hland.
  symmetry. now apply Z.add_nocarry_lxor.
Qed.

Lemma land_127_range v : 0 <= Z.land v 127 < 128.
Proof.
  change 127 with (Z.ones 7). rewrite Z.land_ones by lia.
  apply Z.mod_pos_bound. reflexivity.
Qed.

Lemma land_127_mod v : Z.land v 127 = v mod 128.
Proof. change 127 with (Z.ones 7). now rewrite Z.land_ones by lia. Qed.

Lemma more_value v : continuation_byte v = v mod 128 + 128.
Proof.
  unfold continuation_byte. rewrite land_127_mod.
  pose proof (Z.mod_pos_bound v 128 eq_refl).
  change 128 with (1 * 2 ^ 7) at 2. rewrite lor_add; lia.
Qed.

Lemma more_range v : 128 <= continuation_byte v < 256.
Proof. rewrite more_value. pose proof (Z.mod_pos_bound v 128 eq_refl). lia. Qed.

Lemma more_low v : Z.land (continuation_byte v) 127 = v mod 128.
Proof.
  unfold continuation_byte. rewrite Z.land_lor_distr_l, <- Z.land_assoc. simpl Z.land at 2 3.
  rewrite Z.lor_0_r. apply land_127_mod.
Qed.

Lemma more_high v : Z.land (continuation_byte v) 128 = 128.
Proof.
  unfold continuation_byte. rewrite Z.land_lor_distr_l, <- Z.land_assoc. simpl Z.land at 2 3.
  now rewrite Z.land_0_r.
Qed.

Lemma band_small b m :
  0 <= b < 2147483648 -> 0 <= m < 2147483648 -> Int32.band b m = Z.land b m.
Proof. intros Hb Hm. unfold Int32.band. rewrite !wrap_small; lia. Qed.

Lemma small_low v : 0 <= v <= 127 -> Z.land v 127 = v.
Proof. intros H. rewrite land_127_mod. apply Z.mod_small. lia. Qed.

Lemma small_high v : 0 <= v <= 127 -> Z.land v 128 = 0.
Proof.
  intros H. rewrite <- (small_low v H), <- Z.land_assoc. simpl Z.land at 2.
  apply Z.land_0_r.
Qed.

(** ** [encodeVarint] *)

Lemma loop_small n v : v <= 127 -> encodeVarint_loop n v = [v].
Proof.
  intros H. destruct n; simpl; destruct (Z.ltb_spec 127 v); auto; lia.
Qed.

Lemma loop_more n v :
  127 < v -> encodeVarint_loop (S n) v = continuation_byte v :: encodeVarint_loop n (Z.shiftr v 7).
Proof. intros H. simpl. destruct (Z.ltb_spec 127 v); [reflexivity|lia]. Qed.

Lemma log2_shiftr_7 v : 127 < v -> Z.log2 (Z.shiftr v 7) = Z.log2 v - 7.
Proof.
  intros H. rewrite Z.log2_shiftr by lia.
  assert (7 <= Z.log2 v) by (apply Z.log2_le_pow2; simpl; lia). lia.
Qed.

Lemma loop_enough n : forall m v,
  Z.log2 v <= Z.of_nat n -> Z.log2 v <= Z.of_nat m ->
  encodeVarint_loop n v = encodeVarint_loop m v.
Proof.
  induction n as [|n IH]; intros m v Hn Hm.
  - destruct (Z.lt_ge_cases 127 v) as [Hv|Hv].
    + assert (7 <= Z.log2 v) by (apply Z.log2_le_pow2; simpl; lia). simpl in Hn. lia.
    + now rewrite !loop_small by lia.
  - destruct (Z.lt_ge_cases 127 v) as [Hv|Hv]; [|now rewrite !loop_small by lia].
    assert (7 <= Z.log2 v) by (apply Z.log2_le_pow2; simpl; lia).
    destruct m as [|m]; [simpl in Hm; lia|].
    rewrite !loop_more by exact Hv. f_equal.
    apply IH; rewrite log2_shiftr_7 by exact Hv; lia.
Qed.

(** The loop never runs out of fuel: [encodeVarint] satisfies the equation
    of the source loop. *)
Lemma encodeVarint_eq v :
  encodeVarint v
  = if 127 <? v then continuation_byte v :: encodeVarint (Z.shiftr v 7) else [v].
Proof.
  unfold encodeVarint. destruct (Z.ltb_spec 127 v) as [Hv|Hv];
    [|now apply loop_small].
  assert (7 <= Z.log2 v) by (apply Z.log2_le_pow2; simpl; lia).
  destruct (Z.to_nat (Z.log2 v)) as [|k] eqn:Ek; [lia|].
  rewrite loop_more by exact Hv. f_equal.
  apply loop_enough; rewrite log2_shiftr_7 by exact Hv; lia.
Qed.

(** Induction along the loop of [encodeVarint]. *)
Lemma varint_ind (P : Z -> Prop) :
  (forall v, 0 <= v <= 127 -> P v) ->
  (forall v, 127 < v -> P (Z.shiftr v 7) -> P v) ->
  forall v, 0 <= v -> P v.
Proof.
  intros Hsmall Hmore v. induction (Z.lt_wf 0 v) as [v _ IH]. intros Hv.
  destruct (Z.lt_ge_cases 127 v) as [Hbig|Hle].
  - apply Hmore; [exact Hbig|]. rewrite Z.shiftr_div_pow2 by lia.
    assert (0 <= v / 2 ^ 7 < v).
    { split; [apply Z.div_pos; lia|apply Z.div_lt; lia]. }
    apply IH; lia.
  - apply Hsmall. lia.
Qed.

Lemma encodeVarint_bytes v : 0 <= v -> Forall is_byte (encodeVarint v).
Proof.
  intros Hv. pattern v. apply varint_ind; [| |exact Hv]; clear v Hv.
  - intros v Hv. rewrite encodeVarint_eq. destruct (Z.ltb_spec 127 v); [lia|].
    constructor; [unfold is_byte; lia|constructor].
  - intros v Hv IH. rewrite encodeVarint_eq. destruct (Z.ltb_spec 127 v); [|lia].
    constructor; [|exact IH]. pose proof (more_range v). unfold is_byte. lia.
Qed.

Lemma encodeVarint_nonempty v : encodeVarint v <> [].
Proof. rewrite encodeVarint_eq. destruct (127 <? v); discriminate. Qed.

(** ** Reading a varint back *)

Lemma shl_small x s :
  0 <= x -> 0 <= s -> x * 2 ^ s < 2147483648 -> Int32.shl x s = x * 2 ^ s.
Proof.
  intros Hx Hs Hlt. unfold Int32.shl.
  destruct (Z.eq_dec x 0) as [->|Hne].
  - rewrite (wrap_small 0) by lia. now rewrite Z.shiftl_0_l.
  - assert (Hs31 : s < 31).
    { destruct (Z.lt_ge_cases s 31) as [H|H]; [exact H|].
      assert (2 ^ 31 <= 2 ^ s) by (apply Z.pow_le_mono_r; lia).
      change (2 ^ 31) with 2147483648 in *. nia. }
    assert (0 < 2 ^ s) by (apply Z.pow_pos_nonneg; lia).
    rewrite (Z.mod_small s 32) by lia.
    rewrite (wrap_small x) by nia.
    rewrite Z.shiftl_mul_pow2 by lia. apply wrap_small. nia.
Qed.

Lemma bor_add a x s :
  0 <= s -> 0 <= a < 2 ^ s -> 0 <= x -> a + x * 2 ^ s < 2147483648 ->
  Int32.bor a (x * 2 ^ s) = a + x * 2 ^ s.
Proof.
  intros Hs Ha Hx Hlt. unfold Int32.bor.
  assert (0 <= 2 ^ s) by (apply Z.pow_nonneg; lia).
  rewrite !wrap_small by nia. now apply lor_add.
Qed.

Lemma pow_step s : 0 <= s -> 2 ^ (s + 7) = 2 ^ s * 128.
Proof. intros Hs. now rewrite Z.pow_add_r by lia. Qed.

Lemma shiftr_7 v : Z.shiftr v 7 = v / 128.
Proof. now rewrite Z.shiftr_div_pow2 by lia. Qed.

(** The [bigint] loop reads back what [encodeVarint] wrote, whatever
    follows it. *)
Lemma varint_big_read v :
  0 <= v ->
  forall rest acc shift,
    0 <= shift -> 0 <= acc < 2 ^ shift ->
    varint_big (encodeVarint v ++ rest) acc shift
    = (acc + v * 2 ^ shift, length (encodeVarint v)).
Proof.
  intros Hv. pattern v. apply varint_ind; [| |exact Hv]; clear v Hv.
  - intros v Hv rest acc shift Hs Ha. rewrite encodeVarint_eq.
    destruct (Z.ltb_spec 127 v); [lia|]. simpl.
    rewrite !band_small by lia. rewrite small_low, small_high by lia. simpl.
    rewrite Z.shiftl_mul_pow2 by lia. rewrite lor_add by lia. reflexivity.
  - intros v Hv IH rest acc shift Hs Ha. rewrite encodeVarint_eq.
    destruct (Z.ltb_spec 127 v); [|lia]. simpl.
    pose proof (more_range v) as Hr. rewrite !band_small by lia.
    rewrite more_low, more_high. simpl.
    pose proof (Z.mod_pos_bound v 128 eq_refl) as Hm.
    rewrite Z.shiftl_mul_pow2 by lia. rewrite lor_add by lia.
    assert (0 < 2 ^ shift) by (apply Z.pow_pos_nonneg; lia).
    rewrite IH; [|lia|rewrite pow_step by lia; nia].
    rewrite pow_step by lia. rewrite shiftr_7.
    pose proof (Z.div_mod v 128 ltac:(lia)) as Hd. f_equal. nia.
Qed.

(** So does the 32-bit loop, for a value it can hold. *)
Lemma varint32_read v :
  0 <= v ->
  forall rest acc shift,
    0 <= shift -> 0 <= acc < 2 ^ shift -> acc + v * 2 ^ shift < 2147483648 ->
    varint32 (encodeVarint v ++ rest) acc shift
    = (acc + v * 2 ^ shift, length (encodeVarint v)).
Proof.
  intros Hv. pattern v. apply varint_ind; [| |exact Hv]; clear v Hv.
  - intros v Hv rest acc shift Hs Ha Hlt. rewrite encodeVarint_eq.
    destruct (Z.ltb_spec 127 v); [lia|]. simpl.
    rewrite !band_small by lia. rewrite small_low, small_high by lia. simpl.
    assert (0 < 2 ^ shift) by (apply Z.pow_pos_nonneg; lia).
    rewrite shl_small by nia. rewrite bor_add by lia. reflexivity.
  - intros v Hv IH rest acc shift Hs Ha Hlt. rewrite encodeVarint_eq.
    destruct (Z.ltb_spec 127 v); [|lia]. simpl.
    pose proof (more_range v) as Hr. rewrite !band_small by lia.
    rewrite more_low, more_high. simpl.
    pose proof (Z.mod_pos_bound v 128 eq_refl) as Hm.
    pose proof (Z.div_mod v 128 ltac:(lia)) as Hd.
    assert (0 < 2 ^ shift) by (apply Z.pow_pos_nonneg; lia).
    assert (0 <= v / 128) by (apply Z.div_pos; lia).
    rewrite shl_small by nia. rewrite bor_add by nia.
    rewrite IH; [|lia|rewrite pow_step by lia; nia|rewrite pow_step, shiftr_7 by lia; nia].
    rewrite pow_step by lia. rewrite shiftr_7. f_equal. nia.
Qed.

(** ** Tags *)

Lemma tag_of_value f w :
  0 <= f < 268435456 -> 0 <= w < 8 -> tag_of f w = w + f * 8.
Proof.
  intros Hf Hw. unfold tag_of. rewrite (shl_small f 3) by (simpl; lia).
  unfold Int32.bor. rewrite !wrap_small by (simpl; lia).
  rewrite Z.lor_comm. change (2 ^ 3) with 8.
  change 8 with (2 ^ 3) at 1. apply lor_add; simpl; lia.
Qed.

Lemma tag_wire f w :
  0 <= f < 268435456 -> 0 <= w < 8 -> Int32.band (tag_of f w) 7 = w.
Proof.
  intros Hf Hw. rewrite tag_of_value by lia. rewrite band_small by lia.
  change 7 with (Z.ones 3). rewrite Z.land_ones by lia. change (2 ^ 3) with 8.
  rewrite Z.mod_add by lia. apply Z.mod_small. lia.
Qed.

Lemma tag_field f w :
  0 <= f < 268435456 -> 0 <= w < 8 -> Int32.sar (tag_of f w) 3 = f.
Proof.
  intros Hf Hw. rewrite tag_of_value by lia. unfold Int32.sar.
  rewrite wrap_small by lia. change (3 mod 32) with 3.
  rewrite Z.shiftr_div_pow2 by lia. change (2 ^ 3) with 8.
  rewrite Z.div_add by lia. rewrite Z.div_small by lia. lia.
Qed.

Lemma tag_range f w :
  0 <= f < 268435456 -> 0 <= w < 8 -> 0 <= tag_of f w < 2147483648.
Proof. intros Hf Hw. rewrite tag_of_value by lia. lia. Qed.

(** ** Positions in a buffer *)

Lemma skipn_after (buf pre rest : list Z) p :
  0 <= p -> skipn (Z.to_nat p) buf = (pre ++ rest)%list ->
  skipn (Z.to_nat (p + Z.of_nat (length pre))) buf = rest.
Proof.
  intros Hp H. rewrite Z2Nat.inj_add, Nat2Z.id by lia.
  rewrite Nat.add_comm, <- skipn_skipn, H.
  rewrite skipn_app, skipn_all, Nat.sub_diag. reflexivity.
Qed.

Lemma skipn_length (buf pre rest : list Z) p :
  0 <= p -> skipn (Z.to_nat p) buf = (pre ++ rest)%list ->
  Z.of_nat (length pre) + Z.of_nat (length rest)
  = Z.max 0 (Z.of_nat (length buf) - p).
Proof.
  intros Hp H. apply (f_equal (@length Z)) in H.
  rewrite length_skipn, length_app in H. lia.
Qed.

Lemma skipn_inside (buf pre rest : list Z) p :
  0 <= p -> skipn (Z.to_nat p) buf = (pre ++ rest)%list -> pre <> [] ->
  p + Z.of_nat (length pre) + Z.of_nat (length rest) = Z.of_nat (length buf).
Proof.
  intros Hp H Hne. apply (f_equal (@length Z)) in H.
  rewrite length_skipn, length_app in H.
  destruct pre; [congruence|]. simpl in *. lia.
Qed.

Lemma read_at_varint32 buf p v rest :
  0 <= p -> 0 <= v < 2147483648 ->
  skipn (Z.to_nat p) buf = (encodeVarint v ++ rest)%list ->
  read_at varint32 buf p = (v, p + Z.of_nat (length (encodeVarint v))).
Proof.
  intros Hp Hv H. unfold read_at. destruct (Z.ltb_spec p 0); [lia|].
  rewrite H, varint32_read by (simpl; lia). f_equal. lia.
Qed.

Lemma read_at_varint_big buf p v rest :
  0 <= p -> 0 <= v ->
  skipn (Z.to_nat p) buf = (encodeVarint v ++ rest)%list ->
  read_at varint_big buf p = (v, p + Z.of_nat (length (encodeVarint v))).
Proof.
  intros Hp Hv H. unfold read_at. destruct (Z.ltb_spec p 0); [lia|].
  rewrite H, varint_big_read by (simpl; lia). f_equal. lia.
Qed.

Lemma encodeMessage_length f data :
  (length data <= length (encodeMessage f data))%nat.
Proof. unfold encodeMessage. rewrite !length_app. lia. Qed.

Lemma encodeVarint_length v : 0 < Z.of_nat (length (encodeVarint v)).
Proof. pose proof (encodeVarint_nonempty v). destruct (encodeVarint v); simpl; [congruence|lia]. Qed.

Lemma subarray_inside (buf data rest : list Z) p :
  0 <= p -> skipn (Z.to_nat p) buf = (data ++ rest)%list ->
  Buffer.subarray buf p (p + Z.of_nat (length data)) = data.
Proof.
  intros Hp H. pose proof (skipn_length buf data rest p Hp H) as Hlen.
  unfold Buffer.subarray, Buffer.clamp.
  destruct (Z.ltb_spec p 0); [lia|].
  destruct (Z.ltb_spec (p + Z.of_nat (length data)) 0); [lia|].
  destruct (Z.le_gt_cases p (Z.of_nat (length buf))) as [Hin|Hout].
  - rewrite !Z.min_l by lia. rewrite H.
    replace (Z.to_nat (p + Z.of_nat (length data) - p)) with (length data) by lia.
    rewrite firstn_app, firstn_all, Nat.sub_diag. simpl. apply app_nil_r.
  - assert (length data = 0%nat) by lia. destruct data; [|discriminate].
    rewrite !Z.min_r by (simpl; lia). now rewrite Z.sub_diag.
Qed.

(** ** One field at a time *)

Lemma parse_bytes_step n buf p f data rest :
  0 <= p -> 0 <= f < 268435456 -> Z.of_nat (length data) < 2147483648 ->
  skipn (Z.to_nat p) buf = (encodeMessage f data ++ rest)%list ->
  parseProtoFields_from (S n) buf p
  = option_map (cons {| field := f; wire := 2; value := PBuffer data |})
      (parseProtoFields_from n buf (p + Z.of_nat (length (encodeMessage f data)))).
Proof.
  intros Hp Hf Hd H. unfold encodeMessage in *. rewrite <- !app_assoc in H.
  pose proof (tag_range f 2 Hf ltac:(lia)) as Ht.
  pose proof (encodeVarint_length (tag_of f 2)) as Hl1.
  pose proof (encodeVarint_length (Z.of_nat (length data))) as Hl2.
  set (p1 := p + Z.of_nat (length (encodeVarint (tag_of f 2)))).
  set (p2 := p1 + Z.of_nat (length (encodeVarint (Z.of_nat (length data))))).
  assert (H1 : skipn (Z.to_nat p1) buf
               = (encodeVarint (Z.of_nat (length data)) ++ data ++ rest)%list)
    by (apply skipn_after; [lia|exact H]).
  assert (H2 : skipn (Z.to_nat p2) buf = (data ++ rest)%list)
    by (apply skipn_after; [lia|exact H1]).
  pose proof (skipn_inside buf _ _ p1 ltac:(lia) H1 (encodeVarint_nonempty _)) as Hlen.
  pose proof (skipn_inside buf _ _ p Hp H (encodeVarint_nonempty _)) as Hlen0.
  rewrite length_app in Hlen.
  cbn [parseProtoFields_from].
  destruct (Z.ltb_spec p (Z.of_nat (length buf))) as [_|Hge]; [|lia].
  cbn [negb]. rewrite (read_at_varint32 buf p _ _ Hp Ht H). fold p1.
  destruct (Z.eqb_spec p1 p); [lia|].
  rewrite tag_wire, tag_field by lia. cbn [Z.eqb Pos.eqb].
  rewrite (read_at_varint32 buf p1 (Z.of_nat (length data)) (data ++ rest)%list)
    by (try exact H1; lia).
  fold p2. destruct (Z.ltb_spec (Z.of_nat (length buf)) (p2 + Z.of_nat (length data)));
    [lia|].
  rewrite (subarray_inside buf data rest p2) by (try exact H2; lia).
  replace (p + Z.of_nat (length (encodeVarint (tag_of f 2)
                                 ++ encodeVarint (Z.of_nat (length data)) ++ data)))
    with (p2 + Z.of_nat (length data)); [reflexivity|].
  rewrite !length_app. lia.
Qed.

Lemma parse_varint_step n buf p f v rest :
  0 <= p -> 0 <= f < 268435456 -> 0 <= v ->
  skipn (Z.to_nat p) buf = (encodeVarintField f v ++ rest)%list ->
  parseProtoFields_from (S n) buf p
  = option_map (cons {| field := f; wire := 0; value := PBigInt v |})
      (parseProtoFields_from n buf (p + Z.of_nat (length (encodeVarintField f v)))).
Proof.
  intros Hp Hf Hv H. unfold encodeVarintField in *. rewrite <- !app_assoc in H.
  pose proof (tag_range f 0 Hf ltac:(lia)) as Ht.
  pose proof (encodeVarint_length (tag_of f 0)) as Hl1.
  set (p1 := p + Z.of_nat (length (encodeVarint (tag_of f 0)))).
  assert (H1 : skipn (Z.to_nat p1) buf = (encodeVarint v ++ rest)%list)
    by (apply skipn_after; [lia|exact H]).
  pose proof (skipn_inside buf _ _ p Hp H (encodeVarint_nonempty _)) as Hlen0.
  cbn [parseProtoFields_from].
  destruct (Z.ltb_spec p (Z.of_nat (length buf))) as [_|Hge]; [|lia].
  cbn [negb]. rewrite (read_at_varint32 buf p _ _ Hp Ht H). fold p1.
  destruct (Z.eqb_spec p1 p); [lia|].
  rewrite tag_wire, tag_field by lia. cbn [Z.eqb Pos.eqb].
  rewrite (read_at_varint_big buf p1 v rest) by (try exact H1; lia).
  replace (p + Z.of_nat (length (encodeVarint (tag_of f 0) ++ encodeVarint v)))
    with (p1 + Z.of_nat (length (encodeVarint v))); [reflexivity|].
  rewrite !length_app. lia.
Qed.

Lemma parse_at_end n buf p :
  Z.of_nat (length buf) <= p -> parseProtoFields_from (S n) buf p = Some [].
Proof.
  intros H. cbn [parseProtoFields_from].
  destruct (Z.ltb_spec p (Z.of_nat (length buf))); [lia|reflexivity].
Qed.

(** Any sequence of encoded fields, at any place where it ends the buffer. *)
Lemma parse_encoded_at buf xs :
  Forall encodable xs ->
  forall fuel p,
    (length xs < fuel)%nat -> 0 <= p ->
    skipn (Z.to_nat p) buf = flat_map encode_field xs ->
    parseProtoFields_from fuel buf p = Some (map parsed_field xs).
Proof.
  induction 1 as [|x xs Hx _ IH]; intros fuel p Hfuel Hp H;
    (destruct fuel as [|n]; [simpl in Hfuel; lia|]).
  - apply parse_at_end. cbn [flat_map] in H. apply (f_equal (@length Z)) in H.
    rewrite length_skipn in H. cbn [length] in H. lia.
  - cbn [flat_map] in H. cbn [length] in Hfuel.
    destruct x as [f v|f data]; cbn [encodable encode_field] in Hx, H.
    + rewrite (parse_varint_step n buf p f v _ Hp) by (try exact H; lia).
      rewrite (IH n); [reflexivity|lia| |].
      * pose proof (Nat2Z.is_nonneg (length (encodeVarintField f v))). lia.
      * apply skipn_after; [lia|exact H].
    + rewrite (parse_bytes_step n buf p f data _ Hp) by (try exact H; lia).
      rewrite (IH n); [reflexivity|lia| |].
      * pose proof (Nat2Z.is_nonneg (length (encodeMessage f data))). lia.
      * apply skipn_after; [lia|exact H].
Qed.

(** ** Bytes *)

Lemma from_bytes l : Forall is_byte l -> Buffer.from l = l.
Proof.
  induction 1 as [|b l Hb _ IH]; [reflexivity|]. unfold Buffer.from in *. simpl.
  rewrite IH. f_equal. change 255 with (Z.ones 8). rewrite Z.land_ones by lia.
  apply Z.mod_small. exact Hb.
Qed.

Lemma from_is_bytes l : Forall is_byte (Buffer.from l).
Proof.
  unfold Buffer.from. apply Forall_map. apply Forall_forall. intros b _.
  change 255 with (Z.ones 8). rewrite Z.land_ones by lia.
  apply Z.mod_pos_bound. reflexivity.
Qed.

Lemma from_length l : length (Buffer.from l) = length l.
Proof. apply length_map. Qed.

Lemma encode_char_bytes c : Forall is_byte (Utf8.encode_char c).
Proof.
  destruct c as [[] [] [] [] [] [] [] []]; vm_compute;
    repeat constructor; discriminate.
Qed.

Lemma utf8_bytes s : Forall is_byte (Utf8.encode s).
Proof.
  induction s as [|c s IH]; [constructor|]. cbn [Utf8.encode]. apply Forall_app.
  split; [apply encode_char_bytes|exact IH].
Qed.

Lemma encodeMessage_bytes f data :
  0 <= f < 268435456 -> Forall is_byte data -> Forall is_byte (encodeMessage f data).
Proof.
  intros Hf Hd. unfold encodeMessage. rewrite !Forall_app. repeat split.
  - apply encodeVarint_bytes. apply (tag_range f 2); lia.
  - apply encodeVarint_bytes. lia.
  - exact Hd.
Qed.

Lemma encodeString_bytes f str :
  0 <= f < 268435456 -> Forall is_byte (encodeString f str).
Proof. intros Hf. apply (encodeMessage_bytes f); [exact Hf|apply utf8_bytes]. Qed.

Lemma encodeVarintField_bytes f v :
  0 <= f < 268435456 -> 0 <= v -> Forall is_byte (encodeVarintField f v).
Proof.
  intros Hf Hv. unfold encodeVarintField. rewrite Forall_app. split.
  - apply encodeVarint_bytes. apply (tag_range f 0); lia.
  - now apply encodeVarint_bytes.
Qed.

(** ** Frames *)

Lemma uint32BE_read n :
  0 <= n < 4294967296 ->
  Buffer.readUInt32BE (Z.land (Z.shiftr n 24) 255) (Z.land (Z.shiftr n 16) 255)
                      (Z.land (Z.shiftr n 8) 255) (Z.land n 255) = n.
Proof.
  intros Hn. unfold Buffer.readUInt32BE.
  change 255 with (Z.ones 8). rewrite !Z.land_ones, !Z.shiftr_div_pow2 by lia.
  change (2 ^ 24) with (256 * (256 * 256)). change (2 ^ 16) with (256 * 256).
  change (2 ^ 8) with 256.
  rewrite <- !Z.div_div by lia.
  pose proof (Z.div_mod n 256 ltac:(lia)).
  pose proof (Z.div_mod (n / 256) 256 ltac:(lia)).
  pose proof (Z.div_mod (n / 256 / 256) 256 ltac:(lia)).
  assert (n / 256 / 256 / 256 < 256).
  { apply Z.div_lt_upper_bound; [lia|]. apply Z.div_lt_upper_bound; [lia|].
    apply Z.div_lt_upper_bound; lia. }
  assert (0 <= n / 256 / 256 / 256) by (repeat apply Z.div_pos; lia).
  rewrite (Z.mod_small (n / 256 / 256 / 256)) by lia. lia.
Qed.

End WireFacts.

Section FrameFacts.

Variable gunzipSync : list Z -> option (list Z).

Local Open Scope Z_scope.

Lemma frames_loop_enough n : forall m bytes,
  (length bytes <= n)%nat -> (length bytes <= m)%nat ->
  decodeGrpcFrames_loop gunzipSync n bytes = decodeGrpcFrames_loop gunzipSync m bytes.
Proof.
  induction n as [|n IH]; intros m bytes Hn Hm.
  - destruct bytes; [|simpl in Hn; lia]. now destruct m.
  - destruct m as [|m].
    + destruct bytes; [reflexivity|simpl in Hm; lia].
    + destruct bytes as [|comp [|b1 [|b2 [|b3 [|b4 rest]]]]]; try reflexivity.
      cbn [decodeGrpcFrames_loop].
      destruct (Z.of_nat (length rest) <? Buffer.readUInt32BE b1 b2 b3 b4);
        [reflexivity|].
      f_equal. simpl in Hn, Hm.
      apply IH; rewrite length_skipn; lia.
Qed.

(** The loop over the frames never runs out of fuel: [decodeGrpcFrames]
    satisfies the equation of the source loop. *)
Lemma decodeGrpcFrames_eq comp b1 b2 b3 b4 rest :
  decodeGrpcFrames gunzipSync (comp :: b1 :: b2 :: b3 :: b4 :: rest)
  = let flen := Buffer.readUInt32BE b1 b2 b3 b4 in
    if Z.of_nat (length rest) <? flen then []
    else decompressFrame gunzipSync comp (firstn (Z.to_nat flen) rest)
         :: decodeGrpcFrames gunzipSync (skipn (Z.to_nat flen) rest).
Proof.
  unfold decodeGrpcFrames.
  change (length (comp :: b1 :: b2 :: b3 :: b4 :: rest))
    with (S (length (b1 :: b2 :: b3 :: b4 :: rest))).
  set (k := length (b1 :: b2 :: b3 :: b4 :: rest)).
  assert (Hk : (length rest <= k)%nat) by (subst k; simpl; lia). clearbody k.
  cbn [decodeGrpcFrames_loop]. cbv zeta.
  destruct (Z.of_nat (length rest) <? Buffer.readUInt32BE b1 b2 b3 b4);
    [reflexivity|].
  f_equal. apply frames_loop_enough; rewrite length_skipn; lia.
Qed.

Lemma decodeGrpcFrames_short bytes :
  (length bytes < 5)%nat -> decodeGrpcFrames gunzipSync bytes = [].
Proof.
  intros H. unfold decodeGrpcFrames.
  destruct bytes as [|comp [|b1 [|b2 [|b3 [|b4 rest]]]]]; try reflexivity.
  simpl in H. lia.
Qed.

Lemma frame_length payload :
  length (makeGrpcFrame payload) = (5 + length payload)%nat.
Proof.
  unfold makeGrpcFrame, Buffer.uint32BE. cbn [length app].
  now rewrite WireFacts.from_length.
Qed.

Lemma decode_frame payload rest :
  Z.of_nat (length payload) < 4294967296 ->
  decodeGrpcFrames gunzipSync (makeGrpcFrame payload ++ rest)
  = Buffer.from payload :: decodeGrpcFrames gunzipSync rest.
Proof.
  intros Hlen. unfold makeGrpcFrame, Buffer.uint32BE. cbn [app].
  rewrite decodeGrpcFrames_eq. cbv zeta.
  rewrite WireFacts.from_length.
  rewrite WireFacts.uint32BE_read by lia.
  rewrite length_app, WireFacts.from_length.
  destruct (Z.ltb_spec (Z.of_nat (length payload + length rest))
                       (Z.of_nat (length payload))); [lia|].
  rewrite Nat2Z.id.
  rewrite firstn_app, skipn_app, WireFacts.from_length, Nat.sub_diag.
  rewrite firstn_all2, skipn_all2 by (rewrite WireFacts.from_length; lia).
  simpl. rewrite app_nil_r. reflexivity.
Qed.

End FrameFacts.

(** ** What the encoders write, the parsers read *)

Lemma parseProtoFields_inverts_encoders_at fuel xs :
  Forall encodable xs -> (length xs < fuel)%nat ->
  parseProtoFields fuel (flat_map encode_field xs) = Some (map parsed_field xs).
Proof.
  intros Hx Hfuel. unfold parseProtoFields.
  apply WireFacts.parse_encoded_at; [exact Hx|exact Hfuel|lia|reflexivity].
Qed.

(** X1.  For a value that is not negative, [encodeVarint] writes bytes,
    every one but the last with its high bit set, and the varint loop of
    [parseProtoFields] reads the value back from them, whatever bytes
    follow. *)
Theorem encodeVarint_reads_back (v : Z) (rest : list Z) :
  (0 <= v)%Z ->
  Forall is_byte (encodeVarint v)
  /\ Forall (fun b => (128 <= b)%Z) (removelast (encodeVarint v))
  /\ (last (encodeVarint v) 128 < 128)%Z
  /\ varint_big (encodeVarint v ++ rest) 0 0 = (v, length (encodeVarint v)).
Proof.
  intros Hv. split; [now apply WireFacts.encodeVarint_bytes|].
  split; [|split].
  - pattern v. apply WireFacts.varint_ind; [| |exact Hv]; clear v Hv.
    + intros v Hv. rewrite WireFacts.encodeVarint_eq.
      destruct (Z.ltb_spec 127 v); [lia|]. constructor.
    + intros v Hv IH. rewrite WireFacts.encodeVarint_eq.
      destruct (Z.ltb_spec 127 v); [|lia].
      pose proof (WireFacts.encodeVarint_nonempty (Z.shiftr v 7)) as Hne.
      destruct (encodeVarint (Z.shiftr v 7)) as [|b l] eqn:E; [congruence|].
      cbn [removelast]. constructor; [|exact IH].
      pose proof (WireFacts.more_range v). lia.
  - pattern v. apply WireFacts.varint_ind; [| |exact Hv]; clear v Hv.
    + intros v Hv. rewrite WireFacts.encodeVarint_eq.
      destruct (Z.ltb_spec 127 v); [lia|]. simpl. lia.
    + intros v Hv IH. rewrite WireFacts.encodeVarint_eq.
      destruct (Z.ltb_spec 127 v); [|lia].
      pose proof (WireFacts.encodeVarint_nonempty (Z.shiftr v 7)) as Hne.
      destruct (encodeVarint (Z.shiftr v 7)) as [|b l] eqn:E; [congruence|].
      exact IH.
  - rewrite WireFacts.varint_big_read by (simpl; lia). f_equal. lia.
Qed.

Lemma encodeVarint_reads_back_witness :
  Forall is_byte (encodeVarint 300)
  /\ Forall (fun b => (128 <= b)%Z) (removelast (encodeVarint 300))
  /\ (last (encodeVarint 300) 128 < 128)%Z
  /\ varint_big (encodeVarint 300 ++ [7; 7]%Z) 0 0 = (300%Z, length (encodeVarint 300)).
Proof. apply (encodeVarint_reads_back 300 [7; 7]%Z). lia. Defined.

(** X2.  [parseProtoFields] inverts the encoders: a buffer made of
    encoded fields, each with a field number below 2^28, a varint value
    that is not negative or a byte run shorter than 2^31, parses into
    exactly those fields, in order, once the fuel exceeds their number. *)
Theorem parseProtoFields_inverts_encoders (fuel : nat) (xs : list WireField) :
  Forall encodable xs -> (length xs < fuel)%nat ->
  parseProtoFields fuel (flat_map encode_field xs) = Some (map parsed_field xs).
Proof.
  intros Hx Hfuel. unfold parseProtoFields.
  apply WireFacts.parse_encoded_at; [exact Hx|exact Hfuel|lia|reflexivity].
Qed.

Lemma parseProtoFields_inverts_encoders_witness :
  parseProtoFields 3 (flat_map encode_field
                        [BytesField 1 (Utf8.encode "abc"); VarintField 4 300])
  = Some (map parsed_field [BytesField 1 (Utf8.encode "abc"); VarintField 4 300]).
Proof.
  apply (parseProtoFields_inverts_encoders 3).
  - repeat constructor; simpl; lia.
  - simpl. lia.
Defined.

(** X3.  [decodeGrpcFrames] inverts [makeGrpcFrame]: a buffer made of
    frames gives back their payloads, each taken byte by byte modulo 256 as
    [Buffer.from] does, and fewer than five trailing bytes are ignored. *)
Theorem decodeGrpcFrames_inverts_makeGrpcFrame
        (gunzipSync : list Z -> option (list Z)) (payloads : list (list Z))
        (tail : list Z) :
  Forall (fun p => (Z.of_nat (length p) < 4294967296)%Z) payloads ->
  (length tail < 5)%nat ->
  decodeGrpcFrames gunzipSync (flat_map makeGrpcFrame payloads ++ tail)
  = map Buffer.from payloads.
Proof.
  intros Hp Htail. induction Hp as [|p ps Hlen _ IH]; cbn [flat_map map app].
  - now apply decodeGrpcFrames_short.
  - rewrite <- app_assoc, decode_frame by exact Hlen. now rewrite IH.
Qed.

Lemma decodeGrpcFrames_inverts_makeGrpcFrame_witness :
  decodeGrpcFrames (fun _ => None)
                   (flat_map makeGrpcFrame [[1; 2; 3]; []; [300]]%Z ++ [0; 0; 0]%Z)
  = map Buffer.from [[1; 2; 3]; []; [300]]%Z.
Proof.
  apply (decodeGrpcFrames_inverts_makeGrpcFrame (fun _ => None)).
  - repeat constructor; simpl; lia.
  - simpl. lia.
Defined.

(** X4.  [parseProtoFields] need not end.  On a buffer that starts with
    the tag of field 1, wire type 2, and the five-byte length fa ff ff ff
    0f, the length is read as the 32-bit number -6; it passes the bounds
    check, and adding it moves the position back to the tag, so the loop
    reads the same field again, whatever the fuel. *)
Theorem parseProtoFields_may_not_end (fuel : nat) (rest : list Z) :
  parseProtoFields fuel (10 :: 250 :: 255 :: 255 :: 255 :: 15 :: rest)%Z = None.
Proof.
  unfold parseProtoFields.
  set (buf := (10 :: 250 :: 255 :: 255 :: 255 :: 15 :: rest)%Z).
  assert (Htag : read_at varint32 buf 0 = (10, 1)%Z) by reflexivity.
  assert (Hlen : read_at varint32 buf 1 = (-6, 6)%Z) by reflexivity.
  assert (Hin : (0 < Z.of_nat (length buf))%Z) by (subst buf; simpl length; lia).
  induction fuel as [|n IH]; [reflexivity|].
  cbn [parseProtoFields_from].
  destruct (Z.ltb_spec 0 (Z.of_nat (length buf))); [|lia]. cbn [negb].
  rewrite Htag. cbn [Z.eqb]. change (Int32.band 10 7) with 2%Z.
  cbn [Z.eqb Pos.eqb]. rewrite Hlen. change (6 + -6)%Z with 0%Z.
  destruct (Z.ltb_spec (Z.of_nat (length buf)) 0); [lia|].
  rewrite IH. reflexivity.
Qed.

Lemma from_app (a b : list Z) :
  Buffer.from (a ++ b) = (Buffer.from a ++ Buffer.from b)%list.
Proof. apply map_app. Qed.

Lemma from_encodeMessage f data :
  (0 <= f < 268435456)%Z ->
  Buffer.from (encodeMessage f data) = encodeMessage f (Buffer.from data).
Proof.
  intros Hf. unfold encodeMessage. rewrite !from_app, WireFacts.from_length.
  rewrite (WireFacts.from_bytes (encodeVarint (tag_of f 2)))
    by (apply WireFacts.encodeVarint_bytes; apply (WireFacts.tag_range f 2); lia).
  rewrite (WireFacts.from_bytes (encodeVarint (Z.of_nat (length data))))
    by (apply WireFacts.encodeVarint_bytes; lia).
  reflexivity.
Qed.

(** X5.  The request of [buildSendUserCascadeMessageRequest] is one
    gRPC frame whose payload parses into four length-delimited fields:
    the cascade id (1), the item (2), the metadata (3) and the Cascade
    configuration (5); the item holds one field, the outbound text. *)
Theorem send_request_decodes
        (gunzipSync : list Z -> option (list Z)) (fuel : nat) (cascadeId : string)
        (msgs : list ChatMessage) (metadata : list Z) (modelUid : string) :
  (Z.of_nat (length (buildSendUserCascadeMessageRequest cascadeId msgs metadata
                                                        modelUid))
   < 2147483648)%Z ->
  (4 < fuel)%nat ->
  exists payload,
    decodeGrpcFrames gunzipSync
      (buildSendUserCascadeMessageRequest cascadeId msgs metadata modelUid)
    = [payload]
    /\ parseProtoFields fuel payload
       = Some [ {| field := 1; wire := 2; value := PBuffer (Utf8.encode cascadeId) |};
                {| field := 2; wire := 2;
                   value := PBuffer (encodeString 1 (cascade_text msgs)) |};
                {| field := 3; wire := 2; value := PBuffer (Buffer.from metadata) |};
                {| field := 5; wire := 2;
                   value := PBuffer (encodeCascadeConfig modelUid) |} ]
    /\ parseProtoFields fuel (encodeString 1 (cascade_text msgs))
       = Some [ {| field := 1; wire := 2;
                   value := PBuffer (Utf8.encode (cascade_text msgs)) |} ].
Proof.
  intros Hlen Hfuel. unfold buildSendUserCascadeMessageRequest in *. cbv zeta in *.
  set (text := cascade_text msgs) in *.
  set (fields := (encodeString 1 cascadeId ++
                  encodeMessage 2 (encodeString 1 text) ++
                  encodeMessage 3 metadata ++
                  encodeMessage 5 (encodeCascadeConfig modelUid))%list) in *.
  rewrite frame_length in Hlen.
  exists (Buffer.from fields). split; [|split].
  - rewrite <- (app_nil_r (makeGrpcFrame fields)).
    rewrite decode_frame by lia. now rewrite decodeGrpcFrames_short by (simpl; lia).
  - assert (Hfrom : Buffer.from fields
                    = flat_map encode_field
                        [ BytesField 1 (Utf8.encode cascadeId);
                          BytesField 2 (encodeString 1 text);
                          BytesField 3 (Buffer.from metadata);
                          BytesField 5 (encodeCascadeConfig modelUid) ]).
    { unfold fields. rewrite !from_app. cbn [flat_map encode_field].
      rewrite app_nil_r.
      rewrite (WireFacts.from_bytes (encodeString 1 cascadeId))
        by (apply WireFacts.encodeString_bytes; lia).
      rewrite (from_encodeMessage 3) by lia.
      rewrite (WireFacts.from_bytes (encodeMessage 2 (encodeString 1 text))).
      2:{ apply WireFacts.encodeMessage_bytes; [lia|].
          apply WireFacts.encodeString_bytes. lia. }
      rewrite (WireFacts.from_bytes (encodeMessage 5 (encodeCascadeConfig modelUid))).
      2:{ apply WireFacts.encodeMessage_bytes; [lia|].
          unfold encodeCascadeConfig. cbv zeta.
          apply WireFacts.encodeMessage_bytes; [lia|]. apply Forall_app. split.
          - apply WireFacts.encodeMessage_bytes; [lia|constructor].
          - destruct (Js.is_empty modelUid); [constructor|].
            apply WireFacts.encodeString_bytes. lia. }
      reflexivity. }
    rewrite Hfrom.
    unfold fields in Hlen. rewrite !length_app in Hlen.
    pose proof (WireFacts.encodeMessage_length 1 (Utf8.encode cascadeId)) as L1.
    pose proof (WireFacts.encodeMessage_length 2 (encodeString 1 text)) as L2.
    pose proof (WireFacts.encodeMessage_length 3 metadata) as L3.
    pose proof (WireFacts.encodeMessage_length 5 (encodeCascadeConfig modelUid)) as L5.
    change (encodeMessage 1 (Utf8.encode cascadeId)) with (encodeString 1 cascadeId) in L1.
    apply parseProtoFields_inverts_encoders_at; [|simpl; lia].
    repeat constructor; try lia; rewrite ?WireFacts.from_length; lia.
  - unfold fields in Hlen. rewrite !length_app in Hlen.
    pose proof (WireFacts.encodeMessage_length 2 (encodeString 1 text)) as L2.
    pose proof (WireFacts.encodeMessage_length 1 (Utf8.encode text)) as L1.
    change (encodeMessage 1 (Utf8.encode text)) with (encodeString 1 text) in L1.
    replace (encodeString 1 text)
      with (flat_map encode_field [BytesField 1 (Utf8.encode text)])
      by (cbn [flat_map encode_field]; apply app_nil_r).
    apply parseProtoFields_inverts_encoders_at; [|simpl; lia].
    repeat constructor; lia.
Qed.

Lemma send_request_decodes_witness :
  exists payload,
    decodeGrpcFrames SampleCascade.gunzipSync
      (buildSendUserCascadeMessageRequest "cascade-1" SampleCascade.messages
                                          [10; 2; 104; 105]%Z "gpt-4o")
    = [payload]
    /\ parseProtoFields 5 payload
       = Some [ {| field := 1; wire := 2; value := PBuffer (Utf8.encode "cascade-1") |};
                {| field := 2; wire := 2;
                   value := PBuffer (encodeString 1 (cascade_text SampleCascade.messages)) |};
                {| field := 3; wire := 2;
                   value := PBuffer (Buffer.from [10; 2; 104; 105]%Z) |};
                {| field := 5; wire := 2;
                   value := PBuffer (encodeCascadeConfig "gpt-4o") |} ]
    /\ parseProtoFields 5 (encodeString 1 (cascade_text SampleCascade.messages))
       = Some [ {| field := 1; wire := 2;
                   value := PBuffer (Utf8.encode (cascade_text SampleCascade.messages)) |} ].
Proof.
  apply (send_request_decodes SampleCascade.gunzipSync 5 "cascade-1"
                              SampleCascade.messages [10; 2; 104; 105]%Z "gpt-4o").
  - vm_compute. reflexivity.
  - lia.
Defined.

(** X6.  The StartCascade request, the body of a poll and the stream
    request are each one gRPC frame whose payload parses into two fields:
    the metadata and the source 3; the cascade id and the step offset 0;
    the protocol version 1 and the cascade id. *)
Theorem start_and_poll_requests_decode
        (gunzipSync : list Z -> option (list Z)) (fuel : nat)
        (metadata : list Z) (cascadeId : string) :
  (Z.of_nat (length metadata) < 2147483632)%Z ->
  (Z.of_nat (length (Utf8.encode cascadeId)) < 2147483632)%Z ->
  (2 < fuel)%nat ->
  (exists payload,
      decodeGrpcFrames gunzipSync (buildStartCascadeRequest metadata) = [payload]
      /\ parseProtoFields fuel payload
         = Some [ {| field := 1; wire := 2; value := PBuffer (Buffer.from metadata) |};
                  {| field := 4; wire := 0; value := PBigInt 3 |} ])
  /\ (exists payload,
        decodeGrpcFrames gunzipSync (pollBody cascadeId) = [payload]
        /\ parseProtoFields fuel payload
           = Some [ {| field := 1; wire := 2;
                       value := PBuffer (Utf8.encode cascadeId) |};
                    {| field := 2; wire := 0; value := PBigInt 0 |} ])
  /\ (exists payload,
        decodeGrpcFrames gunzipSync (buildStreamRequest cascadeId) = [payload]
        /\ parseProtoFields fuel payload
           = Some [ {| field := 1; wire := 0; value := PBigInt 1 |};
                    {| field := 2; wire := 2;
                       value := PBuffer (Utf8.encode cascadeId) |} ]).
Proof.
  intros Hm Hc Hfuel.
  assert (Hvar : forall f v, (0 <= f < 16)%Z -> (0 <= v < 16)%Z ->
                             length (encodeVarintField f v) = 2%nat).
  { intros f v Hf Hv. unfold encodeVarintField. rewrite length_app.
    rewrite (WireFacts.encodeVarint_eq v).
    destruct (Z.ltb_spec 127 v); [lia|].
    rewrite (WireFacts.encodeVarint_eq (tag_of f 0)).
    rewrite WireFacts.tag_of_value by lia.
    destruct (Z.ltb_spec 127 (0 + f * 8)); [lia|]. reflexivity. }
  assert (Hmsg : forall f data, (0 <= f < 16)%Z ->
                                (Z.of_nat (length data) < 2147483632)%Z ->
                                (Z.of_nat (length (encodeMessage f data))
                                 < 2147483640)%Z).
  { intros f data Hf Hd. unfold encodeMessage. rewrite !length_app.
    rewrite (WireFacts.encodeVarint_eq (tag_of f 2)).
    rewrite WireFacts.tag_of_value by lia.
    destruct (Z.ltb_spec 127 (2 + f * 8)); [lia|]. cbn [length].
    assert (Hlen : (length (encodeVarint (Z.of_nat (length data))) <= 5)%nat).
    { set (n := Z.of_nat (length data)) in *.
      assert (Hn : (0 <= n < 2147483632)%Z) by lia. clearbody n.
      repeat (rewrite (WireFacts.encodeVarint_eq _);
              match goal with
              | |- context [(127 <? ?x)%Z] =>
                  destruct (Z.ltb_spec 127 x); [cbn [length]|cbn [length]; lia]
              end).
      exfalso. rewrite !WireFacts.shiftr_7 in *.
      rewrite !Z.div_div in H4 by lia. cbn [Z.mul Pos.mul] in H4.
      pose proof (Z.div_lt_upper_bound n 268435456 8). lia. }
    lia. }
  split; [|split].
  - unfold buildStartCascadeRequest.
    exists (Buffer.from (encodeMessage 1 metadata ++ encodeVarintField 4 3)).
    split.
    + rewrite <- (app_nil_r (makeGrpcFrame _)).
      rewrite decode_frame
        by (rewrite length_app, Hvar by lia; specialize (Hmsg 1%Z metadata); lia).
      now rewrite decodeGrpcFrames_short by (simpl; lia).
    + rewrite from_app, (from_encodeMessage 1) by lia.
      rewrite (WireFacts.from_bytes (encodeVarintField 4 3))
        by (apply WireFacts.encodeVarintField_bytes; lia).
      replace (encodeMessage 1 (Buffer.from metadata) ++ encodeVarintField 4 3)%list
        with (flat_map encode_field
                [BytesField 1 (Buffer.from metadata); VarintField 4 3])
        by (cbn [flat_map encode_field]; now rewrite app_nil_r).
      apply parseProtoFields_inverts_encoders_at; [|simpl; lia].
      repeat constructor; rewrite ?WireFacts.from_length; lia.
  - unfold pollBody.
    exists (encodeString 1 cascadeId ++ encodeVarintField 2 0)%list. split.
    + rewrite <- (app_nil_r (makeGrpcFrame _)).
      rewrite decode_frame
        by (rewrite length_app, Hvar by lia;
            specialize (Hmsg 1%Z (Utf8.encode cascadeId));
            change (encodeMessage 1 (Utf8.encode cascadeId))
              with (encodeString 1 cascadeId) in Hmsg; lia).
      rewrite decodeGrpcFrames_short by (simpl; lia).
      rewrite WireFacts.from_bytes; [reflexivity|].
      apply Forall_app. split.
      * apply WireFacts.encodeString_bytes. lia.
      * apply WireFacts.encodeVarintField_bytes; lia.
    + replace (encodeString 1 cascadeId ++ encodeVarintField 2 0)%list
        with (flat_map encode_field
                [BytesField 1 (Utf8.encode cascadeId); VarintField 2 0])
        by (cbn [flat_map encode_field]; now rewrite app_nil_r).
      apply parseProtoFields_inverts_encoders_at; [|simpl; lia].
      repeat constructor; lia.
  - unfold buildStreamRequest.
    exists (encodeVarintField 1 1 ++ encodeString 2 cascadeId)%list. split.
    + rewrite <- (app_nil_r (makeGrpcFrame _)).
      rewrite decode_frame
        by (rewrite length_app, Hvar by lia;
            specialize (Hmsg 2%Z (Utf8.encode cascadeId));
            change (encodeMessage 2 (Utf8.encode cascadeId))
              with (encodeString 2 cascadeId) in Hmsg; lia).
      rewrite decodeGrpcFrames_short by (simpl; lia).
      rewrite WireFacts.from_bytes; [reflexivity|].
      apply Forall_app. split.
      * apply WireFacts.encodeVarintField_bytes; lia.
      * apply WireFacts.encodeString_bytes. lia.
    + replace (encodeVarintField 1 1 ++ encodeString 2 cascadeId)%list
        with (flat_map encode_field
                [VarintField 1 1; BytesField 2 (Utf8.encode cascadeId)])
        by (cbn [flat_map encode_field]; now rewrite app_nil_r).
      apply parseProtoFields_inverts_encoders_at; [|simpl; lia].
      repeat constructor; lia.
Qed.

Lemma start_and_poll_requests_decode_witness :
  (exists payload,
      decodeGrpcFrames SampleCascade.gunzipSync
                       (buildStartCascadeRequest [10; 2; 104; 105; 300]%Z) = [payload]
      /\ parseProtoFields 3 payload
         = Some [ {| field := 1; wire := 2;
                     value := PBuffer (Buffer.from [10; 2; 104; 105; 300]%Z) |};
                  {| field := 4; wire := 0; value := PBigInt 3 |} ])
  /\ (exists payload,
        decodeGrpcFrames SampleCascade.gunzipSync (pollBody "cascade-1") = [payload]
        /\ parseProtoFields 3 payload
           = Some [ {| field := 1; wire := 2;
                       value := PBuffer (Utf8.encode "cascade-1") |};
                    {| field := 2; wire := 0; value := PBigInt 0 |} ])
  /\ (exists payload,
        decodeGrpcFrames SampleCascade.gunzipSync (buildStreamRequest "cascade-1")
        = [payload]
        /\ parseProtoFields 3 payload
           = Some [ {| field := 1; wire := 0; value := PBigInt 1 |};
                    {| field := 2; wire := 2;
                       value := PBuffer (Utf8.encode "cascade-1") |} ]).
Proof.
  apply (start_and_poll_requests_decode SampleCascade.gunzipSync 3
                                        [10; 2; 104; 105; 300]%Z "cascade-1").
  - simpl. lia.
  - simpl. lia.
  - lia.
Defined.

(* ================================================================== *)
(** * The Cascade session *)
(* ================================================================== *)

Section ClientFacts.

Variable Buffer_from_value : JValue -> Result (list Z).
Variable toString_utf8 : list Z -> string.
Variable gunzipSync : list Z -> option (list Z).
Variable getMetadataFields : MetadataFields.
Variables PROXY_SESSION_ID DEVICE_FINGERPRINT : string.
Variable modelUid_of : string -> string.
Variable grpcUnary : nat -> Z -> string -> string -> list Z -> UnaryOutcome.

(** [toString('utf8')] reads back what [Buffer.from(str, 'utf8')] wrote. *)
Hypothesis utf8_round_trip : forall s, toString_utf8 (Utf8.encode s) = s.

Local Open Scope Z_scope.

Let parse_planner := extractPlannerResponse toString_utf8 gunzipSync.
Let parse_id := extractCascadeId toString_utf8.

Let parse_encoded := parseProtoFields_inverts_encoders_at.

Lemma parse_one fuel f data :
  field_number f -> Z.of_nat (length data) < 2147483648 -> (1 < fuel)%nat ->
  parseProtoFields fuel (encodeMessage f data)
  = Some [ {| field := f; wire := 2; value := PBuffer data |} ].
Proof.
  intros Hf Hd Hfuel.
  pose proof (parse_encoded fuel [BytesField f data]) as H. simpl in H.
  rewrite app_nil_r in H. apply H; [|exact Hfuel].
  constructor; [split; assumption|constructor].
Qed.

Let encodeMessage_length := WireFacts.encodeMessage_length.

Lemma encode_strings_fields fs :
  encode_strings fs
  = flat_map encode_field (map (fun f => BytesField (fst f) (Utf8.encode (snd f))) fs).
Proof.
  induction fs as [|f fs IH]; [reflexivity|].
  unfold encode_strings in *. cbn [flat_map map encode_field fst snd].
  now rewrite <- IH.
Qed.

Lemma string_length_bound f s (rest : list Z) :
  (length (Utf8.encode s) <= length (encodeString f s ++ rest))%nat.
Proof.
  rewrite length_app. pose proof (encodeMessage_length f (Utf8.encode s)).
  unfold encodeString, encodeBytes, encodeMessage in *. lia.
Qed.

Lemma strings_encodable fs :
  Forall (fun f => field_number (fst f)) fs ->
  Z.of_nat (length (encode_strings fs)) < 2147483648 ->
  Forall encodable (map (fun f => BytesField (fst f) (Utf8.encode (snd f))) fs).
Proof.
  induction 1 as [|f fs Hf _ IH]; intros Hlen; [constructor|].
  unfold encode_strings in *. cbn [flat_map] in Hlen.
  pose proof (string_length_bound (fst f) (snd f)
                (flat_map (fun f => encodeString (fst f) (snd f)) fs)).
  rewrite length_app in *.
  constructor; [split; [exact Hf|lia]|apply IH; lia].
Qed.

Lemma encode_strings_bytes fs :
  Forall (fun f => field_number (fst f)) fs -> Forall is_byte (encode_strings fs).
Proof.
  induction 1 as [|f fs Hf _ IH]; [constructor|].
  unfold encode_strings in *. cbn [flat_map]. apply Forall_app.
  split; [apply WireFacts.encodeString_bytes; exact Hf|exact IH].
Qed.

(** The innermost loop, on string fields: the last text of a field 1 or 8
    that is not empty. *)
Lemma planner_steps fs : forall acc,
  fold_left (planner_step toString_utf8)
            (map parsed_field
                 (map (fun f => BytesField (fst f) (Utf8.encode (snd f))) fs))
            acc
  = fold_left (fun acc t => if Js.is_empty t then acc else t) (planner_texts fs) acc.
Proof.
  induction fs as [|[n s] fs IH]; intros acc; [reflexivity|].
  unfold planner_texts in *. cbn [map fold_left parsed_field fst snd filter].
  rewrite IH. unfold planner_step. cbn [value field].
  rewrite utf8_round_trip.
  destruct (Z.eqb_spec n 1) as [->|H1]; [reflexivity|].
  destruct (Z.eqb_spec n 8) as [->|H8]; reflexivity.
Qed.

Lemma extract_trajectory fuel fs :
  Forall (fun f => field_number (fst f)) fs ->
  Z.of_nat (length (trajectory_response fs)) < 2147483648 ->
  (length fs < fuel)%nat -> (1 < fuel)%nat ->
  parse_planner fuel (trajectory_response fs) = Some (last_nonempty (planner_texts fs)).
Proof.
  intros Hfs Hlen Hfuel H1. unfold parse_planner, extractPlannerResponse, trajectory_response in *.
  set (P3 := encode_strings fs) in *.
  set (P2 := encodeMessage 20 P3) in *.
  set (P1 := encodeMessage 1 P2) in *.
  assert (HP1 : Z.of_nat (length P1) < 2147483648).
  { rewrite frame_length in Hlen. lia. }
  pose proof (encodeMessage_length 1 P2) as L1. fold P1 in L1.
  pose proof (encodeMessage_length 20 P3) as L2. fold P2 in L2.
  assert (B3 : Forall is_byte P3) by now apply encode_strings_bytes.
  assert (B2 : Forall is_byte P2)
    by (apply WireFacts.encodeMessage_bytes; [lia|exact B3]).
  assert (B1 : Forall is_byte P1)
    by (apply WireFacts.encodeMessage_bytes; [lia|exact B2]).
  rewrite <- (app_nil_r (makeGrpcFrame P1)).
  rewrite decode_frame by lia.
  rewrite (decodeGrpcFrames_short gunzipSync []) by (simpl; lia).
  rewrite WireFacts.from_bytes by exact B1.
  cbn [for_of and_then]. unfold P1 at 1.
  rewrite parse_one by (unfold field_number; lia).
  cbn [and_then for_of planner_of_frame value field Z.eqb Pos.eqb]. unfold P2 at 1.
  rewrite parse_one by (unfold field_number; lia).
  cbn [and_then for_of planner_of_step value field Z.eqb Pos.eqb].
  unfold P3 at 1. rewrite encode_strings_fields.
  rewrite parse_encoded;
    [|apply strings_encodable; [exact Hfs|fold P3; lia]|now rewrite length_map].
  cbn [option_map and_then]. rewrite planner_steps. reflexivity.
Qed.

Lemma extract_start fuel id :
  Z.of_nat (length (Utf8.encode id)) < 2147483648 -> (1 < fuel)%nat ->
  parse_id fuel (encodeString 1 id) = Some id.
Proof.
  intros Hlen Hfuel. unfold parse_id, extractCascadeId.
  change (encodeString 1 id) with (encodeMessage 1 (Utf8.encode id)).
  rewrite parse_one by (unfold field_number; lia).
  cbn. now rewrite utf8_round_trip.
Qed.

(** ** The metadata *)

(** X7.  For an API key that is a string, field numbers below 2^28 and
    a request counter that is not negative, [encodeMetadata] returns a
    message that parses back: nine fields, or ten with a device
    fingerprint, the first of which holds the API key and the ninth the
    incremented request counter. *)
Theorem metadata_parses_back
        (fuel : nat) (pf : Platform) (counter : Z) (key version : string) :
  field_number (api_key getMetadataFields) ->
  field_number (ide_name getMetadataFields) ->
  field_number (ide_version getMetadataFields) ->
  field_number (extension_version getMetadataFields) ->
  field_number (session_id getMetadataFields) ->
  field_number (locale getMetadataFields) ->
  0 <= counter ->
  (10 < fuel)%nat ->
  exists metadata,
    encodeMetadata Buffer_from_value getMetadataFields PROXY_SESSION_ID
                   DEVICE_FINGERPRINT pf counter (JString key) version
    = Ok metadata
    /\ (Z.of_nat (length metadata) < 2147483648 ->
        exists fields,
          parseProtoFields fuel metadata = Some fields
          /\ length fields = (if Js.is_empty DEVICE_FINGERPRINT then 9 else 10)%nat
          /\ nth_error fields 0
             = Some {| field := api_key getMetadataFields; wire := 2;
                       value := PBuffer (Utf8.encode key) |}
          /\ nth_error fields 8
             = Some {| field := 9; wire := 0; value := PBigInt (counter + 1) |}).
Proof.
  intros Hk Hn Hv He Hs Hl Hc Hfuel.
  unfold encodeMetadata, Buffer_from_utf8 in *. cbn [bind] in *. cbv zeta in *.
  set (os := match pf with darwin => "macos" | win32 => "windows" | _ => "linux" end) in *.
  set (common :=
         [ BytesField (api_key getMetadataFields) (Utf8.encode key);
           BytesField (ide_name getMetadataFields) (Utf8.encode "windsurf");
           BytesField (ide_version getMetadataFields) (Utf8.encode version);
           BytesField (extension_version getMetadataFields) (Utf8.encode version);
           BytesField (session_id getMetadataFields) (Utf8.encode PROXY_SESSION_ID);
           BytesField (locale getMetadataFields) (Utf8.encode "en");
           BytesField 12 (Utf8.encode "windsurf");
           BytesField 5 (Utf8.encode os);
           VarintField 9 (counter + 1) ]).
  set (xs := if Js.is_empty DEVICE_FINGERPRINT then common
             else (common ++ [BytesField 24 (Utf8.encode DEVICE_FINGERPRINT)])%list).
  match goal with
  | |- context [Ok ?m] => set (metadata := m) in *
  end.
  assert (Hmeta : metadata = flat_map encode_field xs).
  { unfold metadata, xs, common.
    destruct (Js.is_empty DEVICE_FINGERPRINT);
      cbn [flat_map encode_field app]; rewrite ?app_nil_r, <- ?app_assoc; reflexivity. }
  exists metadata. split; [reflexivity|]. intros Hsize.
  assert (Hbound : forall x, In x xs ->
                             (length (encode_field x) <= length metadata)%nat).
  { intros x Hx. rewrite Hmeta. clear -Hx.
    induction xs as [|y ys IH]; [destruct Hx|]. cbn [flat_map]. rewrite length_app.
    destruct Hx as [->|Hx]; [lia|]. specialize (IH Hx). lia. }
  assert (Henc : Forall encodable xs).
  { apply Forall_forall. intros x Hx. pose proof (Hbound x Hx) as Hb.
    assert (Hcases : In x common
                     \/ x = BytesField 24 (Utf8.encode DEVICE_FINGERPRINT)).
    { unfold xs in Hx. destruct (Js.is_empty DEVICE_FINGERPRINT); [now left|].
      apply in_app_or in Hx. destruct Hx as [Hx|[Hx|[]]]; auto. }
    destruct Hcases as [Hin| ->].
    - unfold common in Hin. cbn [In] in Hin.
      destruct Hin as [<-|[<-|[<-|[<-|[<-|[<-|[<-|[<-|[<-|[]]]]]]]]]];
        cbn [encodable encode_field] in *;
        try (pose proof (encodeMessage_length 12 (Utf8.encode "windsurf")));
        try (pose proof (encodeMessage_length 5 (Utf8.encode os)));
        unfold field_number in *;
        try (split; [assumption || lia|];
             match goal with
             | Hb : (length (encodeMessage ?f ?d) <= _)%nat |- _ =>
                 pose proof (encodeMessage_length f d); lia
             end);
        split; lia.
    - cbn [encodable encode_field] in *.
      pose proof (encodeMessage_length 24 (Utf8.encode DEVICE_FINGERPRINT)).
      split; lia. }
  exists (map parsed_field xs). split.
  - rewrite Hmeta. apply parse_encoded; [exact Henc|].
    unfold xs, common. destruct (Js.is_empty DEVICE_FINGERPRINT); simpl; lia.
  - rewrite length_map. unfold xs, common.
    destruct (Js.is_empty DEVICE_FINGERPRINT); repeat split; reflexivity.
Qed.

(** ** The generator *)

Let run := streamChatGenerator_run Buffer_from_value toString_utf8 gunzipSync
             getMetadataFields PROXY_SESSION_ID DEVICE_FINGERPRINT modelUid_of
             grpcUnary.
Let poll_loop := poll toString_utf8 gunzipSync grpcUnary.

Lemma poll_outcomes fuel attempts : forall n port csrf body r,
  poll_loop fuel attempts n port csrf body = Some r ->
  one_chunk r \/ throws_code STREAM_ERROR r.
Proof.
  unfold poll_loop.
  induction attempts as [|k IH]; intros n port csrf body r; cbn [poll].
  - intros [= <-]. right. eexists. reflexivity.
  - destruct (grpcUnary n port csrf GRPC_getCascadeTrajectorySteps body)
      as [m|buf st m]; [apply IH|].
    destruct (negb (String.eqb st "0")); [apply IH|].
    destruct (extractPlannerResponse toString_utf8 gunzipSync fuel buf) as [text|];
      [|discriminate].
    cbn [and_then]. destruct text as [|c text]; cbn [Js.is_empty]; [apply IH|].
    intros [= <-]. left. eexists. split; [|reflexivity]. discriminate.
Qed.

Lemma poll_finds fuel text port csrf body k : forall n attempts,
  text <> EmptyString ->
  (k < attempts)%nat ->
  (forall i, (i < k)%nat ->
             brings_nothing toString_utf8 gunzipSync fuel
               (grpcUnary (n + i) port csrf GRPC_getCascadeTrajectorySteps body)) ->
  brings_text toString_utf8 gunzipSync fuel text
    (grpcUnary (n + k) port csrf GRPC_getCascadeTrajectorySteps body) ->
  poll_loop fuel attempts n port csrf body
  = Some {| yielded := [text]; thrown := None |}.
Proof.
  unfold poll_loop.
  induction k as [|k IH]; intros n attempts Htext Hk Hbefore Hat;
    (destruct attempts as [|a]; [lia|]); cbn [poll].
  - rewrite Nat.add_0_r in Hat. destruct Hat as (buf & m & -> & Hbuf).
    cbn [String.eqb Ascii.eqb Bool.eqb negb]. rewrite Hbuf. cbn [and_then].
    destruct text; [congruence|reflexivity].
  - assert (Hnext : poll toString_utf8 gunzipSync grpcUnary fuel a (S n) port csrf body
                    = Some {| yielded := [text]; thrown := None |}).
    { apply IH; try assumption; [lia| |].
      - intros i Hi. replace (S n + i)%nat with (n + S i)%nat by lia.
        apply Hbefore. lia.
      - replace (S n + k)%nat with (n + S k)%nat by lia. exact Hat. }
    pose proof (Hbefore 0%nat ltac:(lia)) as H0. rewrite Nat.add_0_r in H0.
    destruct (grpcUnary n port csrf GRPC_getCascadeTrajectorySteps body)
      as [m0|buf st m0]; [exact Hnext|].
    cbn [brings_nothing] in H0.
    destruct (String.eqb_spec st "0") as [->|Hst]; cbn [negb]; [|exact Hnext].
    destruct H0 as [H0|H0]; [congruence|]. rewrite H0. exact Hnext.
Qed.

Lemma first_id_of_start_response fuel id :
  Z.of_nat (length (start_response id)) < 2147483648 -> (1 < fuel)%nat ->
  id <> EmptyString ->
  first_cascadeId toString_utf8 fuel (decodeGrpcFrames gunzipSync (start_response id))
  = Some id.
Proof.
  intros Hlen Hfuel Hid. unfold start_response in *. rewrite frame_length in Hlen.
  rewrite <- (app_nil_r (makeGrpcFrame (encodeString 1 id))).
  rewrite decode_frame by lia.
  rewrite (decodeGrpcFrames_short gunzipSync []) by (simpl; lia).
  rewrite WireFacts.from_bytes by (apply WireFacts.encodeString_bytes; lia).
  cbn [first_cascadeId].
  change (extractCascadeId toString_utf8) with parse_id.
  pose proof (encodeMessage_length 1 (Utf8.encode id)) as L.
  change (encodeMessage 1 (Utf8.encode id)) with (encodeString 1 id) in L.
  rewrite extract_start by lia. cbn [and_then].
  destruct id; [congruence|reflexivity].
Qed.

(** X8.  [extractPlannerResponse] returns the last text that is not
    empty among the [response] (1) and [modified_response] (8) fields of
    the planner response, in the order of the wire: a [modified_response]
    overrides a [response] only when it comes after it. *)
Theorem planner_response_last_wins (fuel : nat) (fs : list (Z * string)) :
  Forall (fun f => field_number (fst f)) fs ->
  Z.of_nat (length (trajectory_response fs)) < 2147483648 ->
  (length fs < fuel)%nat -> (1 < fuel)%nat ->
  parse_planner fuel (trajectory_response fs) = Some (last_nonempty (planner_texts fs)).
Proof. intros Hfs Hlen Hfuel H1. now apply extract_trajectory. Qed.

(** X9.  End to end: when StartCascade answers with a cascade id that is
    not empty, SendUserCascadeMessage resolves with status 0, the first
    [k] polls bring nothing (a rejected call, a status other than 0, or a
    body without planner text) and the next one, among the 60 allowed,
    carries a planner text that is not empty, the generator yields exactly
    that text and ends. *)
Theorem generator_yields_planner_text
        (fuel : nat) (pf : Platform) (counter : Z) (credentials : WindsurfCredentials)
        (model_name : string) (msgs : list ChatMessage)
        (key id text : string) (k : nat) :
  cred_apiKey credentials = JString key ->
  id <> EmptyString ->
  text <> EmptyString ->
  (k < POLL_MAX_ATTEMPTS)%nat ->
  (forall body,
      opens_cascade toString_utf8 gunzipSync fuel id
        (grpcUnary 0 (cred_port credentials) (cred_csrfToken credentials)
                   GRPC_startCascade body)) ->
  (forall body, exists buf m,
      grpcUnary 1 (cred_port credentials) (cred_csrfToken credentials)
                GRPC_sendUserCascadeMessage body
      = Resolved buf "0" m) ->
  (forall i body, (i < k)%nat ->
      brings_nothing toString_utf8 gunzipSync fuel
        (grpcUnary (2 + i) (cred_port credentials) (cred_csrfToken credentials)
                   GRPC_getCascadeTrajectorySteps body)) ->
  (forall body,
      brings_text toString_utf8 gunzipSync fuel text
        (grpcUnary (2 + k) (cred_port credentials) (cred_csrfToken credentials)
                   GRPC_getCascadeTrajectorySteps body)) ->
  run fuel pf counter credentials model_name msgs
  = Some {| yielded := [text]; thrown := None |}.
Proof.
  intros Hkey Hid Htext Hk Hnet0 Hnet1 Hbefore Hat.
  unfold run, streamChatGenerator_run, encodeMetadata, Buffer_from_utf8.
  rewrite Hkey. cbn [bind].
  match goal with
  | |- context [grpcUnary 0 _ _ _ ?body] =>
      destruct (Hnet0 body) as (buf0 & m0 & -> & Hopen)
  end.
  cbn [String.eqb Ascii.eqb Bool.eqb negb].
  rewrite Hopen. cbn [and_then].
  destruct id as [|c id']; [congruence|]. cbn [Js.is_empty].
  match goal with
  | |- context [grpcUnary 1 _ _ _ ?body] => destruct (Hnet1 body) as (buf1 & m1 & ->)
  end.
  cbn [String.eqb Ascii.eqb Bool.eqb negb].
  apply (poll_finds fuel text _ _ _ k); try assumption.
  - intros i Hi. now apply Hbefore.
  - apply Hat.
Qed.

(** The canonical answers are such answers: a StartCascade response that
    holds the id, and a trajectory whose planner response holds string
    fields. *)
Lemma canonical_answers fuel id fs m :
  Z.of_nat (length (start_response id)) < 2147483648 ->
  id <> EmptyString ->
  Forall (fun f => field_number (fst f)) fs ->
  Z.of_nat (length (trajectory_response fs)) < 2147483648 ->
  (length fs < fuel)%nat -> (1 < fuel)%nat ->
  opens_cascade toString_utf8 gunzipSync fuel id (Resolved (start_response id) "0" m)
  /\ brings_text toString_utf8 gunzipSync fuel (last_nonempty (planner_texts fs))
                 (Resolved (trajectory_response fs) "0" m).
Proof.
  intros Hstart Hid Hfs Hlen Hfuel H1. split.
  - do 2 eexists. split; [reflexivity|]. now apply first_id_of_start_response.
  - do 2 eexists. split; [reflexivity|]. now apply extract_trajectory.
Qed.

Lemma run_outcomes
        (fuel : nat) (pf : Platform) (counter : Z) (credentials : WindsurfCredentials)
        (model_name : string) (msgs : list ChatMessage) (key : string)
        (r : GeneratorRun) :
  cred_apiKey credentials = JString key ->
  run fuel pf counter credentials model_name msgs = Some r ->
  one_chunk r
  \/ throws_code STREAM_ERROR r
  \/ (exists body m,
        grpcUnary 0 (cred_port credentials) (cred_csrfToken credentials)
                  GRPC_startCascade body = Rejected m
        /\ r = throws (WindsurfError ("StartCascade failed: " ++ m) CONNECTION_FAILED)).
Proof.
  intros Hkey. unfold run, streamChatGenerator_run, encodeMetadata, Buffer_from_utf8.
  rewrite Hkey. cbn [bind].
  match goal with
  | |- context [grpcUnary 0 ?p ?c ?path ?body] =>
      destruct (grpcUnary 0 p c path body) as [m|startBuf st sm] eqn:E0
  end.
  - intros [= <-]. right. right. eauto.
  - destruct (negb (String.eqb st "0")).
    + intros [= <-]. right. left. eexists. reflexivity.
    + destruct (first_cascadeId toString_utf8 fuel
                  (decodeGrpcFrames gunzipSync startBuf)) as [cascadeId|];
        [|discriminate].
      cbn [and_then]. destruct (Js.is_empty cascadeId).
      * intros [= <-]. right. left. eexists. reflexivity.
      * match goal with
        | |- context [grpcUnary 1 ?p ?c ?path ?body] =>
            destruct (grpcUnary 1 p c path body) as [m|sendBuf st1 sm1]
        end.
        -- intros [= <-]. right. left. eexists. reflexivity.
        -- destruct (negb (String.eqb st1 "0")).
           ++ intros [= <-]. right. left. eexists. reflexivity.
           ++ intros Hpoll. apply poll_outcomes in Hpoll.
              destruct Hpoll as [H|H]; [left|right; left]; exact H.
Qed.

(** X10.  A run of the generator that returns, for an API key that is a
    string, ends in one of two ways: it yields a single chunk, which is not
    empty, and ends without an error; or it yields nothing and throws a
    [WindsurfError] whose code is STREAM_ERROR, or CONNECTION_FAILED when
    the StartCascade call itself was rejected. *)
Theorem generator_outcomes
        (fuel : nat) (pf : Platform) (counter : Z) (credentials : WindsurfCredentials)
        (model_name : string) (msgs : list ChatMessage) (key : string)
        (r : GeneratorRun) :
  cred_apiKey credentials = JString key ->
  run fuel pf counter credentials model_name msgs = Some r ->
  one_chunk r
  \/ throws_code STREAM_ERROR r
  \/ (exists body m,
        grpcUnary 0 (cred_port credentials) (cred_csrfToken credentials)
                  GRPC_startCascade body = Rejected m
        /\ r = throws (WindsurfError ("StartCascade failed: " ++ m) CONNECTION_FAILED)).
Proof. apply run_outcomes. Qed.

End ClientFacts.

(** The polling loop reads the network only at the call numbers from [n]
    to [n + attempts - 1]. *)
Lemma poll_reads_its_calls toString_utf8 gunzipSync net1 net2 fuel attempts :
  forall n port csrf body,
    (forall i, (i < attempts)%nat -> net1 (n + i)%nat = net2 (n + i)%nat) ->
    poll toString_utf8 gunzipSync net1 fuel attempts n port csrf body
    = poll toString_utf8 gunzipSync net2 fuel attempts n port csrf body.
Proof.
  induction attempts as [|k IH]; intros n port csrf body H; [reflexivity|].
  cbn [poll]. pose proof (H 0%nat ltac:(lia)) as H0. rewrite Nat.add_0_r in H0.
  rewrite H0.
  assert (Hnext : poll toString_utf8 gunzipSync net1 fuel k (S n) port csrf body
                  = poll toString_utf8 gunzipSync net2 fuel k (S n) port csrf body).
  { apply IH. intros i Hi. replace (S n + i)%nat with (n + S i)%nat by lia.
    apply H. lia. }
  rewrite Hnext. reflexivity.
Qed.

(** X11.  One run of the generator makes at most 62 calls, StartCascade,
    SendUserCascadeMessage and 60 polls: two networks that settle the
    first 62 calls alike give the same run. *)
Theorem generator_call_bound
        Buffer_from_value toString_utf8 gunzipSync getMetadataFields
        PROXY_SESSION_ID DEVICE_FINGERPRINT modelUid_of
        (net1 net2 : nat -> Z -> string -> string -> list Z -> UnaryOutcome)
        (fuel : nat) (pf : Platform) (counter : Z) (credentials : WindsurfCredentials)
        (model_name : string) (msgs : list ChatMessage) :
  (forall n, (n < 62)%nat -> net1 n = net2 n) ->
  streamChatGenerator_run Buffer_from_value toString_utf8 gunzipSync
    getMetadataFields PROXY_SESSION_ID DEVICE_FINGERPRINT modelUid_of net1
    fuel pf counter credentials model_name msgs
  = streamChatGenerator_run Buffer_from_value toString_utf8 gunzipSync
      getMetadataFields PROXY_SESSION_ID DEVICE_FINGERPRINT modelUid_of net2
      fuel pf counter credentials model_name msgs.
Proof.
  intros H. unfold streamChatGenerator_run.
  rewrite (H 0%nat) by lia. rewrite (H 1%nat) by lia.
  destruct (encodeMetadata _ _ _ _ _ _ _ _) as [metadata|e]; [|reflexivity].
  destruct (net2 0%nat _ _ _ _) as [m|startBuf st sm]; [reflexivity|].
  destruct (negb (String.eqb st "0")); [reflexivity|].
  destruct (first_cascadeId toString_utf8 fuel (decodeGrpcFrames gunzipSync startBuf))
    as [cascadeId|]; [|reflexivity].
  cbn [and_then]. destruct (Js.is_empty cascadeId); [reflexivity|].
  destruct (net2 1%nat _ _ _ _) as [m|sendBuf st1 sm1]; [reflexivity|].
  destruct (negb (String.eqb st1 "0")); [reflexivity|].
  apply poll_reads_its_calls. intros i Hi. apply H. unfold POLL_MAX_ATTEMPTS in Hi. lia.
Qed.

(** ** The reference decoder *)

Lemma ref_utf8_char c rest :
  RefUtf8.decode (Utf8.encode_char c ++ rest) = String c (RefUtf8.decode rest).
Proof. destruct c as [[] [] [] [] [] [] [] []]; reflexivity. Qed.

Lemma ref_utf8_round_trip s : RefUtf8.decode (Utf8.encode s) = s.
Proof.
  induction s as [|c s IH]; [reflexivity|].
  cbn [Utf8.encode]. now rewrite ref_utf8_char, IH.
Qed.

(** ** The session against the sample language server *)

Example sample_run :
  SampleCascade.run SampleCascade.network
  = Some {| yielded := ["raw"]; thrown := None |}.
Proof. vm_compute. reflexivity. Qed.

Example sample_run_refused :
  SampleCascade.run (fun _ _ _ _ _ => Rejected "connect ECONNREFUSED")
  = Some (throws (WindsurfError "StartCascade failed: connect ECONNREFUSED"
                                CONNECTION_FAILED)).
Proof. vm_compute. reflexivity. Qed.

Example sample_run_times_out :
  SampleCascade.run (fun n _ _ _ _ =>
                       match n with
                       | 0%nat => Resolved (start_response "cascade-1") "0" ""
                       | _ => Resolved [] "0" ""
                       end)
  = Some (throws (WindsurfError
                    "GetCascadeTrajectorySteps: no planner_response after 60 attempts"
                    STREAM_ERROR)).
Proof. vm_compute. reflexivity. Qed.

Lemma planner_response_last_wins_witness :
  extractPlannerResponse RefUtf8.decode SampleCascade.gunzipSync 4
                         (trajectory_response SampleCascade.planner_fields)
  = Some (last_nonempty (planner_texts SampleCascade.planner_fields)).
Proof.
  apply (planner_response_last_wins RefUtf8.decode SampleCascade.gunzipSync
                                    ref_utf8_round_trip 4).
  - repeat constructor; simpl; lia.
  - vm_compute. reflexivity.
  - simpl. lia.
  - lia.
Defined.

Lemma generator_yields_planner_text_witness :
  SampleCascade.run SampleCascade.network
  = Some {| yielded := ["raw"]; thrown := None |}.
Proof.
  apply (generator_yields_planner_text
           SampleCascade.Buffer_from_value RefUtf8.decode SampleCascade.gunzipSync
           SampleCascade.fields "session-1" "" SampleCascade.modelUid_of
           SampleCascade.network
           4 darwin 0%Z Sample.credentials "gpt-4o" SampleCascade.messages
           "sk-ws-01" "cascade-1" "raw" 3).
  - reflexivity.
  - discriminate.
  - discriminate.
  - unfold POLL_MAX_ATTEMPTS. lia.
  - intros body. do 2 eexists. split; [reflexivity|]. vm_compute. reflexivity.
  - intros body. do 2 eexists. reflexivity.
  - intros i body Hi. destruct i as [|[|[|i]]]; [exact I| |right; reflexivity|lia].
    left. discriminate.
  - intros body. do 2 eexists. split; [reflexivity|]. vm_compute. reflexivity.
Defined.

Lemma generator_outcomes_witness :
  one_chunk {| yielded := ["raw"]; thrown := None |}
  \/ throws_code STREAM_ERROR {| yielded := ["raw"]; thrown := None |}
  \/ (exists body m,
        SampleCascade.network 0 (cred_port Sample.credentials)
                              (cred_csrfToken Sample.credentials)
                              GRPC_startCascade body = Rejected m
        /\ {| yielded := ["raw"]; thrown := None |}
           = throws (WindsurfError ("StartCascade failed: " ++ m) CONNECTION_FAILED)).
Proof.
  apply (generator_outcomes
           SampleCascade.Buffer_from_value RefUtf8.decode SampleCascade.gunzipSync
           SampleCascade.fields "session-1" "" SampleCascade.modelUid_of
           SampleCascade.network
           4 darwin 0%Z Sample.credentials "gpt-4o" SampleCascade.messages "sk-ws-01").
  - reflexivity.
  - vm_compute. reflexivity.
Defined.

Lemma generator_call_bound_witness :
  SampleCascade.run SampleCascade.network = SampleCascade.run SampleCascade.short_lived.
Proof.
  apply (generator_call_bound
           SampleCascade.Buffer_from_value RefUtf8.decode SampleCascade.gunzipSync
           SampleCascade.fields "session-1" "" SampleCascade.modelUid_of
           SampleCascade.network SampleCascade.short_lived).
  intros n Hn. unfold SampleCascade.short_lived.
  destruct (Nat.ltb_spec n 62); [reflexivity|lia].
Defined.

Lemma metadata_parses_back_witness :
  exists metadata,
    encodeMetadata SampleCascade.Buffer_from_value SampleCascade.fields "session-1" ""
                   darwin 0%Z (JString "sk-ws-01") "1.13.104" = Ok metadata
    /\ ((Z.of_nat (length metadata) < 2147483648)%Z ->
        exists fields,
          parseProtoFields 11 metadata = Some fields
          /\ length fields = 9%nat
          /\ nth_error fields 0
             = Some {| field := 3%Z; wire := 2%Z;
                       value := PBuffer (Utf8.encode "sk-ws-01") |}
          /\ nth_error fields 8
             = Some {| field := 9%Z; wire := 0%Z; value := PBigInt (0 + 1)%Z |}).
Proof.
  apply (metadata_parses_back SampleCascade.Buffer_from_value SampleCascade.fields
                              "session-1" "" 11%nat darwin 0%Z "sk-ws-01" "1.13.104");
    unfold field_number; simpl; lia.
Defined.

(* ================================================================== *)
(** * What the process listing yields *)
(* ================================================================== *)

Module CaptureFacts.

Lemma take_drop_length n : forall s,
  (n <= String.length s)%nat ->
  String.length (Js.drop n s) = (String.length s - n)%nat.
Proof.
  induction n as [|n IH]; intros s Hn; [simpl; lia|].
  destruct s as [|c s]; simpl in *; [lia|]. apply IH. lia.
Qed.

(** A greedy run hands its continuation the text after some run of
    characters of the class. *)
Lemma star_spec (R : Type) cls (k : string -> option R) : forall s x,
  Re.star cls k s = Some x ->
  exists n, (n <= String.length s)%nat
            /\ every cls (Js.take n s) = true
            /\ k (Js.drop n s) = Some x.
Proof.
  induction s as [|c s IH]; intros x; simpl.
  - intros H. exists 0%nat. auto.
  - destruct (cls c) eqn:Ec.
    + destruct (Re.star cls k s) as [y|] eqn:E.
      * intros [= <-]. destruct (IH y eq_refl) as (n & Hn & Hall & Hk).
        exists (S n). simpl. rewrite Ec, Hall. repeat split; [lia|exact Hk].
      * intros H. exists 0%nat. simpl. repeat split; [lia|exact H].
    + intros H. exists 0%nat. simpl. repeat split; [lia|exact H].
Qed.

Lemma lazy_star_spec (R : Type) cls (k : string -> option R) : forall s x,
  Re.lazy_star cls k s = Some x -> exists s', k s' = Some x.
Proof.
  induction s as [|c s IH]; intros x; simpl.
  - destruct (k EmptyString) as [y|] eqn:E; [|discriminate]. intros [= <-]. eauto.
  - destruct (k (String c s)) as [y|] eqn:E; [intros [= <-]; eauto|].
    destruct (cls c); [apply IH|discriminate].
Qed.

(** An expression without groups leaves the captures as they are. *)
Lemma run_group_free r : group_free r = true ->
  forall (R : Type) s caps (k : string -> list string -> option R) x,
    Re.run r s caps k = Some x -> exists s', k s' caps = Some x.
Proof.
  induction r as [|text|cls|cls|cls|r IH|r1 IH1 r2 IH2|r1 IH1 r2 IH2|r IH|];
    intros Hfree R s caps k x; simpl in *; try discriminate.
  - eauto.
  - destruct (String.prefix text s); [eauto|discriminate].
  - intros H. apply star_spec in H. destruct H as (n & _ & _ & H). eauto.
  - destruct s as [|c s]; [discriminate|]. destruct (cls c); [|discriminate].
    intros H. apply star_spec in H. destruct H as (n & _ & _ & H). eauto.
  - intros H. apply lazy_star_spec in H. exact H.
  - apply andb_prop in Hfree. destruct Hfree as [H1 H2].
    intros H. apply (IH1 H1) in H. destruct H as (s1 & H).
    apply (IH2 H2) in H. exact H.
  - apply andb_prop in Hfree. destruct Hfree as [H1 H2].
    destruct (Re.run r1 s caps k) as [y|] eqn:E.
    + intros [= <-]. now apply (IH1 H1) in E.
    + intros H. now apply (IH2 H2) in H.
  - destruct (Re.run r s caps (fun _ caps' => Some caps')) as [caps'|] eqn:E;
      [|discriminate].
    apply (IH Hfree) in E. destruct E as (_ & [= <-]). eauto.
  - destruct (Js.is_empty s); [eauto|discriminate].
Qed.

(** The group [(c+)] captures a run of the class that is not empty. *)
Lemma run_group_plus (R : Type) cls s caps (k : string -> list string -> option R) x :
  Re.run (Re.Group (Re.Plus cls)) s caps k = Some x ->
  exists g s', g <> EmptyString /\ every cls g = true
               /\ k s' (caps ++ [g])%list = Some x.
Proof.
  cbn [Re.run]. destruct s as [|c s]; [discriminate|].
  destruct (cls c) eqn:Ec; [|discriminate].
  intros H. apply star_spec in H. destruct H as (n & Hn & Hall & Hk).
  rewrite take_drop_length in Hk by exact Hn.
  replace (String.length (String c s) - (String.length s - n))%nat with (S n) in Hk
    by (cbn [String.length]; lia).
  exists (String c (Js.take n s)), (Js.drop n s). repeat split.
  - discriminate.
  - simpl. now rewrite Ec, Hall.
  - exact Hk.
Qed.

Lemma run_ends_with_run cls r : ends_with_run cls r ->
  forall (R : Type) s caps (k : string -> list string -> option R) x,
    Re.run r s caps k = Some x ->
    exists g s', g <> EmptyString /\ every cls g = true
                 /\ k s' (caps ++ [g])%list = Some x.
Proof.
  induction 1 as [|r1 r2 Hfree _ IH]; intros R s caps k x.
  - apply run_group_plus.
  - cbn [Re.run]. intros H. apply (run_group_free r1 Hfree) in H.
    destruct H as (s1 & H). now apply IH in H.
Qed.

Lemma match_start_run cls r s caps rest :
  ends_with_run cls r -> Re.match_start r s = Some (caps, rest) ->
  exists g, caps = [g] /\ g <> EmptyString /\ every cls g = true.
Proof.
  intros Hr H. unfold Re.match_start in H.
  apply (run_ends_with_run cls r Hr) in H.
  destruct H as (g & s' & Hg & Hall & [= <- _]). eauto.
Qed.

Lemma search_run cls r : ends_with_run cls r -> forall s caps rest,
  Re.search r s = Some (caps, rest) ->
  exists g, caps = [g] /\ g <> EmptyString /\ every cls g = true.
Proof.
  intros Hr. induction s as [|c s IH]; intros caps rest; simpl.
  - destruct (Re.match_start r EmptyString) as [[caps' rest']|] eqn:E; [|discriminate].
    intros [= <- <-]. now apply (match_start_run cls r _ _ _ Hr) in E.
  - destruct (Re.match_start r (String c s)) as [[caps' rest']|] eqn:E.
    + intros [= <- <-]. now apply (match_start_run cls r _ _ _ Hr) in E.
    + apply IH.
Qed.

Lemma group1_run cls (m : option Re.Match) g :
  (forall caps rest, m = Some (caps, rest) ->
                     exists g, caps = [g] /\ g <> EmptyString /\ every cls g = true) ->
  Re.group1 m = Some g -> g <> EmptyString /\ every cls g = true.
Proof.
  intros H. destruct m as [[caps rest]|]; [|discriminate].
  destruct (H caps rest eq_refl) as (g' & -> & Hg & Hall). simpl.
  intros [= <-]. auto.
Qed.

Ltac ends_with_run :=
  repeat first [ apply run_here | apply run_after; [reflexivity|] ].

Lemma pidMatch_digits l p :
  pidMatch l = Some p -> p <> EmptyString /\ every Js.is_digit p = true.
Proof.
  unfold pidMatch. apply (group1_run Js.is_digit).
  intros caps rest. apply match_start_run. unfold PID_RE. cbn [Re.Cat]. ends_with_run.
Qed.

Lemma csrfMatch_token l c :
  csrfMatch l = Some c -> c <> EmptyString /\ every is_csrf_char c = true.
Proof.
  unfold csrfMatch. apply (group1_run is_csrf_char).
  intros caps rest. apply search_run. unfold CSRF_RE. cbn [Re.Cat]. ends_with_run.
Qed.

Lemma portMatch_digits l p :
  portMatch l = Some p -> p <> EmptyString /\ every Js.is_digit p = true.
Proof.
  unfold portMatch. apply (group1_run Js.is_digit).
  intros caps rest. apply search_run. unfold PORT_RE. cbn [Re.Cat]. ends_with_run.
Qed.

Lemma version_match l v :
  Re.group1 (Re.search VERSION_RE l) = Some v ->
  v <> EmptyString /\ every Re.non_space v = true.
Proof.
  apply (group1_run Re.non_space).
  intros caps rest. apply search_run. unfold VERSION_RE. cbn [Re.Cat]. ends_with_run.
Qed.

Lemma parse_digits_nonneg s : forall acc,
  every Js.is_digit s = true -> (0 <= acc)%Z -> (0 <= Js.parse_digits acc s)%Z.
Proof.
  induction s as [|c s IH]; intros acc Hall Hacc; [exact Hacc|].
  cbn [every Js.parse_digits] in *. apply andb_prop in Hall. destruct Hall as [Hc Hs].
  apply IH; [exact Hs|].
  unfold Js.is_digit in Hc. cbv zeta in Hc.
  apply andb_prop in Hc. destruct Hc as [H1 _].
  apply N.leb_le in H1. unfold Js.digit_val.
  assert (48 <= Z.of_N (Js.code c))%Z by (change 48%Z with (Z.of_N 48); lia).
  lia.
Qed.

Lemma filter_map_In (A B : Type) (f : A -> option B) (l : list A) b :
  In b (filter_map f l) -> exists a, In a l /\ f a = Some b.
Proof.
  induction l as [|a l IH]; simpl; [tauto|].
  destruct (f a) as [b'|] eqn:E.
  - intros [<-|H]; [eauto|]. destruct (IH H) as (a' & Ha & Hf). eauto.
  - intros H. destruct (IH H) as (a' & Ha & Hf). eauto.
Qed.

End CaptureFacts.

Lemma listed_process_entry (w : World) (proc : LanguageServerProcess) :
  In proc (getLanguageServerProcesses w) ->
  csrfToken proc <> EmptyString /\ every is_csrf_char (csrfToken proc) = true.
Proof.
  unfold getLanguageServerProcesses.
  destruct (ps_output w) as [output|]; [|intros []].
  intros H. apply CaptureFacts.filter_map_In in H. destruct H as (l & Hl & Hparse).
  unfold parse_process_line in Hparse.
  destruct (negb _ || _); [discriminate|].
  destruct (pidMatch l) as [p|]; [|discriminate].
  destruct (csrfMatch l) as [c|] eqn:Ecsrf; [|discriminate].
  injection Hparse as <-. cbn [csrfToken].
  now apply CaptureFacts.csrfMatch_token in Ecsrf.
Qed.

(** X13.  Every entry of [getLanguageServerProcesses] comes from a line
    of the listing that holds the platform's pattern and not the word
    [grep]; its PID is a run of digits and its CSRF token a run of the
    characters a-f, 0-9 and the hyphen, neither of them empty; its
    extension server port, when there is one, is not negative. *)
Theorem listed_process_shape (w : World) (proc : LanguageServerProcess) :
  In proc (getLanguageServerProcesses w) ->
  In (line proc) (listing_lines w)
  /\ Js.includes (line proc) (getLanguageServerPattern (platform w)) = true
  /\ Js.includes (line proc) "grep" = false
  /\ (pid proc <> EmptyString /\ every Js.is_digit (pid proc) = true)
  /\ (csrfToken proc <> EmptyString /\ every is_csrf_char (csrfToken proc) = true)
  /\ (forall e, extensionServerPort proc = Some e -> (0 <= e)%Z).
Proof.
  unfold getLanguageServerProcesses, listing_lines.
  destruct (ps_output w) as [output|]; [|intros []].
  intros H. apply CaptureFacts.filter_map_In in H. destruct H as (l & Hl & Hparse).
  unfold parse_process_line in Hparse.
  destruct (Js.includes l (getLanguageServerPattern (platform w))) eqn:Ep;
    [|discriminate].
  destruct (Js.includes l "grep") eqn:Eg; [discriminate|]. cbn [negb orb] in Hparse.
  destruct (pidMatch l) as [p|] eqn:Epid; [|discriminate].
  destruct (csrfMatch l) as [c|] eqn:Ecsrf; [|discriminate].
  injection Hparse as <-. cbn [line pid csrfToken extensionServerPort].
  repeat split; try assumption.
  - now apply CaptureFacts.pidMatch_digits in Epid.
  - now apply CaptureFacts.pidMatch_digits in Epid.
  - now apply CaptureFacts.csrfMatch_token in Ecsrf.
  - now apply CaptureFacts.csrfMatch_token in Ecsrf.
  - intros e. destruct (portMatch l) as [digits|] eqn:Eport; [|discriminate].
    intros [= <-]. apply CaptureFacts.portMatch_digits in Eport.
    apply CaptureFacts.parse_digits_nonneg; [tauto|lia].
Qed.

Lemma listed_process_shape_witness :
  Js.includes Sample.server_line "language_server_linux_x64" = true
  /\ every is_csrf_char "0a1b2c3d-77ff" = true.
Proof.
  pose proof (listed_process_shape Sample.ready_world
                {| pid := "4242"; csrfToken := "0a1b2c3d-77ff";
                   extensionServerPort := Some 41000%Z;
                   line := Sample.server_line |}) as H.
  destruct H as (_ & Hp & _ & _ & (_ & Hc) & _); [left; reflexivity|].
  split; [exact Hp|exact Hc].
Defined.

(** ** The version *)

Lemma split_head sep s :
  Js.indexOf sep (hd EmptyString (Js.split sep s)) = None
  /\ forall cls, every cls s = true ->
                 every cls (hd EmptyString (Js.split sep s)) = true.
Proof.
  induction s as [|c s [IH1 IH2]]; [split; reflexivity|].
  cbn [Js.split]. destruct (Ascii.eqb c sep) eqn:Ec; [split; reflexivity|].
  destruct (Js.split sep s) as [|h t]; cbn [hd] in *.
  - split.
    + simpl. now rewrite Ec.
    + intros cls H. simpl in *. apply andb_prop in H. destruct H as [-> _]. reflexivity.
  - split.
    + simpl. rewrite Ec, IH1. reflexivity.
    + intros cls H. simpl in *. apply andb_prop in H. destruct H as [-> H].
      now rewrite IH2.
Qed.

(** X14.  The version [getWindsurfVersion] returns holds no plus sign and
    no white space: it is 1.13.104 when no process is listed or the first
    one carries no [--windsurf_version] flag, and otherwise the value of
    the flag up to its first plus sign, which may leave it empty. *)
Theorem windsurf_version_shape (w : World) :
  Js.indexOf "+" (getWindsurfVersion w) = None
  /\ every Re.non_space (getWindsurfVersion w) = true
  /\ (getWindsurfVersion w = "1.13.104"
      \/ exists proc rest v,
           getLanguageServerProcesses w = proc :: rest
           /\ Re.group1 (Re.search VERSION_RE (line proc)) = Some v
           /\ getWindsurfVersion w = hd EmptyString (Js.split "+" v)).
Proof.
  unfold getWindsurfVersion.
  destruct (getLanguageServerProcesses w) as [|proc rest];
    [repeat split; left; reflexivity|].
  destruct (Re.group1 (Re.search VERSION_RE (line proc))) as [v|] eqn:E;
    [|repeat split; left; reflexivity].
  destruct (split_head "+" v) as [H1 H2]. split; [exact H1|]. split.
  - apply H2. now apply CaptureFacts.version_match in E.
  - right. exists proc, rest, v. auto.
Qed.

Example version_may_be_empty :
  hd EmptyString (Js.split "+" "+nightly") = EmptyString.
Proof. reflexivity. Qed.

(** ** The port *)

Lemma hd_sort_In l p : hd_error (sort_asc l) = Some p -> In p l.
Proof.
  intros H. apply sort_asc_In. destruct (sort_asc l); [discriminate|].
  injection H as <-. now left.
Qed.

Lemma first_after_In ports ext p : first_after ports ext = Some p -> In p ports.
Proof.
  unfold first_after. destruct ext as [e|]; [|discriminate].
  destruct (e =? 0)%Z; [discriminate|]. intros H. apply hd_sort_In in H.
  apply filter_In in H. tauto.
Qed.

Lemma select_sorted_In ports ext p : select_sorted ports ext = Some p -> In p ports.
Proof.
  unfold select_sorted. destruct ports as [|p0 rest]; [discriminate|].
  destruct (first_after (p0 :: rest) ext) as [q|] eqn:E.
  - intros [= <-]. now apply first_after_In in E.
  - apply hd_sort_In.
Qed.

Lemma select_first_In ports ext p : select_first ports ext = Some p -> In p ports.
Proof.
  unfold select_first. destruct ports as [|p0 rest]; [discriminate|].
  destruct (first_after (p0 :: rest) ext) as [q|] eqn:E.
  - intros [= <-]. now apply first_after_In in E.
  - intros [= <-]. now left.
Qed.

(** X15.  A port [getPortForPid] returns is one the probe of the platform
    found listening (/proc or ss on Linux, lsof on macOS) or the extension
    server port plus 3; on the other platforms the probes are not read and
    the result is that offset, if any; and with an extension server port
    other than 0 a port is always returned. *)
Theorem resolved_port_origin (pf : Platform) (probes : PortProbes)
        (extPort : option Z) :
  (forall p,
      getPortForPid pf probes extPort = Some p ->
      (pf = linux /\ (In p (proc_listening probes) \/ In p (ss_listening probes)))
      \/ (pf = darwin /\ In p (lsof_listening probes))
      \/ (exists e, extPort = Some e /\ e <> 0%Z /\ p = (e + 3)%Z))
  /\ (pf <> linux -> pf <> darwin ->
      getPortForPid pf probes extPort = offset_fallback extPort)
  /\ (forall e, e <> 0%Z -> exists p, getPortForPid pf probes (Some e) = Some p).
Proof.
  assert (Hfallback : forall q, offset_fallback extPort = Some q ->
                                exists e, extPort = Some e /\ e <> 0%Z /\ q = (e + 3)%Z).
  { intros q. unfold offset_fallback. destruct extPort as [e|]; [|discriminate].
    destruct (Z.eqb_spec e 0); [discriminate|]. intros [= <-]. eauto. }
  split; [|split].
  - intros p H.
    unfold getPortForPid in H. destruct pf; try (right; right; now apply Hfallback).
    + destruct (select_first (lsof_listening probes) extPort) as [q|] eqn:E.
      * injection H as <-. right. left. split; [reflexivity|].
        now apply select_first_In in E.
      * right. right. now apply Hfallback.
    + destruct (select_sorted (proc_listening probes) extPort) as [q|] eqn:E1.
      * injection H as <-. left. split; [reflexivity|]. left.
        now apply select_sorted_In in E1.
      * destruct (select_sorted (ss_listening probes) extPort) as [q|] eqn:E2.
        -- injection H as <-. left. split; [reflexivity|]. right.
           now apply select_sorted_In in E2.
        -- right. right. now apply Hfallback.
  - intros Hl Hd. unfold getPortForPid. destruct pf; try reflexivity; congruence.
  - intros e He. unfold getPortForPid.
    assert (Hoff : offset_fallback (Some e) = Some (e + 3)%Z).
    { unfold offset_fallback. destruct (Z.eqb_spec e 0); [contradiction|reflexivity]. }
    destruct pf; rewrite ?Hoff; eauto.
    + destruct (select_first _ _); eauto.
    + destruct (select_sorted _ _); [eauto|].
      destruct (select_sorted _ _); eauto.
Qed.

Lemma resolved_port_origin_witness :
  (darwin = linux /\ (In 50000%Z (proc_listening unsorted_lsof)
                      \/ In 50000%Z (ss_listening unsorted_lsof)))
  \/ (darwin = darwin /\ In 50000%Z (lsof_listening unsorted_lsof))
  \/ (exists e, Some 60000%Z = Some e /\ e <> 0%Z /\ 50000%Z = (e + 3)%Z).
Proof.
  apply (proj1 (resolved_port_origin darwin unsorted_lsof (Some 60000%Z)) 50000%Z).
  reflexivity.
Defined.

(** ** Validation *)

Section ValidationFacts.

Variable JSON_parse : string -> option JValue.

Lemma getApiKey_truthy w k : getApiKey JSON_parse w = Ok k -> Json.truthy k = true.
Proof.
  unfold getApiKey. destruct (has_state_path (platform w)); [|discriminate].
  cbn [negb].
  destruct (apiKey_from_state JSON_parse w) as [k1|] eqn:E1.
  - intros [= <-]. apply apiKey_from_state_yields in E1.
    destruct E1 as (_ & out & _ & _ & parsed & _ & _ & Ht). exact Ht.
  - destruct (apiKey_from_legacy JSON_parse w) as [k2|] eqn:E2; [|discriminate].
    intros [= <-]. apply apiKey_from_legacy_yields in E2.
    destruct E2 as (_ & text & _ & parsed & _ & _ & Ht). exact Ht.
Qed.

(** X16.  Credentials that [getCredentials] returns always carry a CSRF
    token that is not empty and an API key that is truthy; they pass
    [validateCredentials] exactly when the stored API key is a string and
    the port is positive, which the resolver does not check. *)
Theorem resolved_credentials_validate (w : World) (c : WindsurfCredentials) :
  getCredentials JSON_parse w = Ok c ->
  cred_csrfToken c <> EmptyString
  /\ Json.truthy (cred_apiKey c) = true
  /\ validateCredentials (as_partial c)
     = Json.is_string (cred_apiKey c) && (0 <? cred_port c)%Z.
Proof.
  unfold getCredentials, getCSRFToken.
  destruct (getLanguageServerProcesses w) as [|proc rest] eqn:Eprocs;
    [discriminate|]. cbn [bind].
  destruct (getPort w) as [port|]; [|discriminate]. cbn [bind].
  destruct (getApiKey JSON_parse w) as [key|] eqn:Ekey; [|discriminate]. cbn [bind].
  intros [= <-]. cbn [cred_csrfToken cred_apiKey cred_port].
  assert (Htoken : csrfToken proc <> EmptyString).
  { assert (Hin : In proc (getLanguageServerProcesses w)) by (rewrite Eprocs; now left).
    apply listed_process_entry in Hin. tauto. }
  apply getApiKey_truthy in Ekey.
  split; [exact Htoken|]. split; [exact Ekey|].
  unfold validateCredentials, as_partial.
  cbn [partial_csrfToken partial_port partial_apiKey partial_version
       cred_csrfToken cred_port cred_apiKey].
  destruct (csrfToken proc) as [|ch token]; [congruence|].
  destruct (0 <? port)%Z; destruct key as [| | | |str| |]; try reflexivity;
    (destruct str; [discriminate|reflexivity]).
Qed.

End ValidationFacts.

Lemma resolved_credentials_validate_witness :
  cred_csrfToken Sample.credentials <> EmptyString
  /\ Json.truthy (cred_apiKey Sample.credentials) = true
  /\ validateCredentials (as_partial Sample.credentials)
     = Json.is_string (cred_apiKey Sample.credentials)
       && (0 <? cred_port Sample.credentials)%Z.
Proof.
  apply (resolved_credentials_validate RefJson.parse Sample.ready_world
                                       Sample.credentials).
  reflexivity.
Defined.

(* ================================================================== *)
(** * The two ways to read a plan *)
(* ================================================================== *)

Section PlanPaths.

Variable JSON_parse : string -> option JValue.

Let parse_plan := parseToolCallPlan JSON_parse.
Let normalize := normalizeToolArguments JSON_parse.

Lemma parse_plan_on_json output text parsed :
  braces_slice output = Some text -> JSON_parse text = Some parsed ->
  parse_plan output = plan_of_parsed JSON_parse parsed.
Proof.
  unfold braces_slice, parse_plan, parseToolCallPlan, JSON_parse_or_throw.
  destruct (Js.indexOf "{" output) as [start|]; [|discriminate].
  destruct (Js.lastIndexOf "}" output) as [stop|]; [|discriminate].
  destruct (Nat.leb stop start); [discriminate|]. intros [= <-] ->. cbn [bind].
  destruct (plan_of_parsed_ok JSON_parse parsed) as (plan & -> & _). reflexivity.
Qed.

Lemma parse_plan_on_tags output text :
  braces_slice output = Some text -> JSON_parse text = None ->
  parse_plan output = parse_tagged_calls JSON_parse output.
Proof.
  unfold braces_slice, parse_plan, parseToolCallPlan, JSON_parse_or_throw.
  destruct (Js.indexOf "{" output) as [start|]; [|discriminate].
  destruct (Js.lastIndexOf "}" output) as [stop|]; [|discriminate].
  destruct (Nat.leb stop start); [discriminate|]. intros [= <-] ->. reflexivity.
Qed.

Lemma parse_plan_no_braces output :
  braces_slice output = None -> parse_plan output = Ok None.
Proof.
  unfold braces_slice, parse_plan, parseToolCallPlan.
  destruct (Js.indexOf "{" output) as [start|]; [|reflexivity].
  destruct (Js.lastIndexOf "}" output) as [stop|]; [|reflexivity].
  destruct (Nat.leb stop start); [reflexivity|discriminate].
Qed.

Lemma has_action_value parsed a :
  has_action parsed a = Ok (is_the_string (Json.get parsed "action") a).
Proof.
  unfold has_action. destruct (Json.truthy parsed) eqn:Ht.
  - now rewrite (get_or_throw_truthy _ _ Ht).
  - destruct parsed; simpl in *; try discriminate; try reflexivity.
Qed.

(** X18.  When the text between the first opening and the last closing
    brace of the output parses as JSON, the tagged calls of the output are
    not read: if that JSON value has no [action] of 'final' or
    'tool_call', the plan is [null], whatever tags the output holds.  A
    lone well-formed tagged call is such an output. *)
Theorem json_between_braces_wins (output text : string) (parsed : JValue) :
  braces_slice output = Some text ->
  JSON_parse text = Some parsed ->
  is_the_string (Json.get parsed "action") "final" = false ->
  is_the_string (Json.get parsed "action") "tool_call" = false ->
  parse_plan output = Ok None.
Proof.
  intros Hs Hp Hf Ht. rewrite (parse_plan_on_json output text parsed Hs Hp).
  unfold plan_of_parsed. rewrite !has_action_value, Hf, Ht. reflexivity.
Qed.

Lemma filterM_named items :
  filterM has_string_name items = Ok (filter named items).
Proof.
  induction items as [|t items IH]; [reflexivity|]. cbn [filterM filter].
  rewrite IH. unfold has_string_name, named.
  destruct (Json.truthy t) eqn:Ht; cbn [bind andb]; [|reflexivity].
  rewrite (get_or_throw_truthy _ _ Ht). cbn [bind].
  destruct (Json.is_string (Json.get t "name")); reflexivity.
Qed.

Lemma mapM_calls kept :
  Forall (fun t => named t = true) kept ->
  mapM (call_of JSON_parse) kept
  = Ok (map (fun t => {| tc_name := Json.get t "name";
                         tc_arguments := normalize (Json.get t "arguments") |})
            kept).
Proof.
  induction 1 as [|t kept Ht _ IH]; [reflexivity|]. cbn [mapM map].
  unfold named in Ht. apply andb_prop in Ht. destruct Ht as [Ht _].
  unfold call_of at 1. rewrite !(get_or_throw_truthy _ _ Ht). cbn [bind].
  rewrite IH. reflexivity.
Qed.

Lemma filter_named items : Forall (fun t => named t = true) (filter named items).
Proof. apply Forall_forall. intros t Ht. apply filter_In in Ht. tauto. Qed.

(** X19.  In the JSON path a tool-call plan keeps exactly the elements of
    [tool_calls] that are truthy and have a string [name], in order, with
    normalised arguments, even when none is left; the tagged path never
    returns a plan without calls. *)
Theorem tool_call_plan_contents (output : string) :
  (forall text parsed items,
      braces_slice output = Some text ->
      JSON_parse text = Some parsed ->
      Json.get parsed "action" = JString "tool_call" ->
      Json.get parsed "tool_calls" = JArray items ->
      parse_plan output
      = Ok (Some (PlanToolCall
                    (map (fun t => {| tc_name := Json.get t "name";
                                      tc_arguments := normalize (Json.get t "arguments") |})
                         (filter named items)))))
  /\ (forall text calls,
        braces_slice output = Some text ->
        JSON_parse text = None ->
        parse_plan output = Ok (Some (PlanToolCall calls)) ->
        calls <> []).
Proof.
  split.
  - intros text parsed items Hs Hp Ha Hts.
    rewrite (parse_plan_on_json output text parsed Hs Hp).
    unfold plan_of_parsed. rewrite !has_action_value, Ha. cbn [is_the_string String.eqb
      Ascii.eqb Bool.eqb bind].
    assert (Htruthy : Json.truthy parsed = true).
    { destruct parsed; simpl in Ha; try discriminate. reflexivity. }
    rewrite (get_or_throw_truthy _ _ Htruthy), Hts. cbn [bind].
    rewrite filterM_named. cbn [bind].
    rewrite mapM_calls by apply filter_named. reflexivity.
  - intros text calls Hs Hp. rewrite (parse_plan_on_tags output text Hs Hp).
    unfold parse_tagged_calls.
    destruct (tool_call_matches output) as [|m ms]; [discriminate|].
    destruct (filter_map (tagged_call JSON_parse) (m :: ms)) as [|tc tcs];
      [discriminate|].
    intros [= <-]. discriminate.
Qed.

(** [parseToolCallPlan] never throws. *)
Lemma parse_plan_returns output : exists plan, parse_plan output = Ok plan.
Proof.
  destruct (braces_slice output) as [text|] eqn:Hs;
    [|rewrite parse_plan_no_braces by exact Hs; eauto].
  destruct (JSON_parse text) as [parsed|] eqn:Hp.
  - rewrite (parse_plan_on_json output text parsed Hs Hp).
    destruct (plan_of_parsed_ok JSON_parse parsed) as (plan & -> & _). eauto.
  - rewrite (parse_plan_on_tags output text Hs Hp).
    destruct (parse_tagged_calls_ok JSON_parse output) as (plan & -> & _). eauto.
Qed.

End PlanPaths.

Lemma json_between_braces_wins_witness :
  parseToolCallPlan RefJson.parse SampleCascade.lone_call = Ok None.
Proof.
  apply (json_between_braces_wins RefJson.parse SampleCascade.lone_call
           (Js.quoted "{`path`:`a.txt`}") (JObject [("path", JString "a.txt")]));
    reflexivity.
Defined.

(** The tagged call of that output matches the pattern, and parses. *)
Example lone_call_is_tagged :
  tool_call_matches SampleCascade.lone_call
  = [("read_file", Js.quoted "{`path`:`a.txt`}")]
  /\ parse_tagged_calls RefJson.parse SampleCascade.lone_call
     = Ok (Some (PlanToolCall [ {| tc_name := JString "read_file";
                                   tc_arguments := JObject [("path", JString "a.txt")] |} ])).
Proof. split; vm_compute; reflexivity. Qed.

(* ================================================================== *)
(** * Requests and responses of the bridge *)
(* ================================================================== *)

(** X17.  The variant read from [providerOptions] is never the empty
    string, and the first candidate decides alone: when
    [providerOptions.windsurf.variant] is neither [null] nor [undefined]
    it is the variant if it is a non-empty string, and there is no variant
    otherwise, whatever the five other properties hold. *)
Theorem variant_first_candidate_decides (po : JValue) :
  (forall v, extractVariantFromProviderOptions po = Some v -> v <> EmptyString)
  /\ (forall x,
        Json.truthy po = true ->
        opt_get (Json.get po "windsurf") "variant" = x ->
        x <> JUndefined -> x <> JNull ->
        extractVariantFromProviderOptions po
        = match x with
          | JString s => if Js.is_empty s then None else Some s
          | _ => None
          end).
Proof.
  unfold extractVariantFromProviderOptions. split.
  - intros v. destruct (negb (Json.truthy po)); [discriminate|].
    match goal with
    | |- match ?c with _ => _ end = _ -> _ => destruct c as [| | | |s| |]; try discriminate
    end.
    destruct s; [discriminate|]. intros [= <-]. discriminate.
  - intros x Ht Hx Hu Hn. rewrite Ht. cbn [negb]. rewrite Hx.
    destruct x; try reflexivity; congruence.
Qed.

Example empty_variant_blocks_the_others :
  extractVariantFromProviderOptions
    (JObject [ ("windsurf", JObject [("variant", JString "")]);
               ("variant", JString "high") ])
  = None.
Proof. reflexivity. Qed.

Example later_candidate_is_read :
  extractVariantFromProviderOptions
    (JObject [ ("windsurf", JObject [("variant", JNull)]);
               ("variantId", JString "high") ])
  = Some "high".
Proof. reflexivity. Qed.

Section ResponseFacts.

Variable JSON_parse : string -> option JValue.
Variables JSON_stringify JSON_stringify_pretty : JValue -> string.
Variable toUpperCase : string -> string.
Variable cascade : WindsurfCredentials -> string -> string -> GeneratorRun.
Variable ALIAS_TO_CANONICAL : string -> option string.
Variable VARIANT_CATALOG : string -> option CatalogEntry.
Variable NAME_TO_ENUM : string -> option Z.
Variable is_canonical : string -> bool.
Variable getDefaultModel : string.

Let effective := effective_model ALIAS_TO_CANONICAL VARIANT_CATALOG NAME_TO_ENUM
                   is_canonical getDefaultModel.
Let plain_stream := createStreamingResponse cascade ALIAS_TO_CANONICAL VARIANT_CATALOG
                      NAME_TO_ENUM is_canonical getDefaultModel.
Let plain_response := createNonStreamingResponse cascade ALIAS_TO_CANONICAL
                        VARIANT_CATALOG NAME_TO_ENUM is_canonical getDefaultModel.
Let planner_stream := handleToolPlanningStream JSON_parse JSON_stringify
                        JSON_stringify_pretty toUpperCase cascade getDefaultModel.
Let planner_response := handleToolPlanning JSON_parse JSON_stringify
                          JSON_stringify_pretty toUpperCase cascade getDefaultModel.
Let plan := planToolCall JSON_parse JSON_stringify JSON_stringify_pretty toUpperCase
              cascade getDefaultModel.
Let prompt := tool_prompt JSON_stringify JSON_stringify_pretty toUpperCase.

(** The run of the generator a plain request starts, and the one a
    planner request starts, for a request whose messages are [msgs]. *)
Let plain_run credentials request msgs :=
  streamChatGenerator cascade credentials (effective request) (convert_messages msgs).
Let planner_run credentials request msgs :=
  streamChatGenerator cascade credentials (requested_model getDefaultModel request)
                      (planner_messages (prompt request msgs)).

Lemma plan_of_run credentials request :
  match messages request with
  | None => plan credentials request = Throw (JsError "TypeError")
  | Some msgs =>
      match thrown (planner_run credentials request msgs) with
      | Some e => plan credentials request = Throw e
      | None =>
          exists p,
            parseToolCallPlan JSON_parse
              (Js.join EmptyString (yielded (planner_run credentials request msgs)))
            = Ok p
            /\ plan credentials request
               = Ok (p,
                     Js.join EmptyString (yielded (planner_run credentials request msgs)),
                     requested_model getDefaultModel request)
      end
  end.
Proof.
  unfold plan, planToolCall, buildToolPrompt, messages_or_throw.
  destruct (messages request) as [msgs|]; [|reflexivity]. cbn [bind].
  unfold runWindsurfOnce. fold (prompt request msgs).
  fold (planner_run credentials request msgs).
  destruct (thrown (planner_run credentials request msgs)) as [e|]; [reflexivity|].
  cbn [bind].
  destruct (parse_plan_returns JSON_parse
              (Js.join EmptyString (yielded (planner_run credentials request msgs))))
    as (p & Hp).
  exists p. rewrite Hp. split; reflexivity.
Qed.

(** X20.  When the generator throws, the two streams end differently.
    The plain stream sends the chunks already yielded, then one event
    with the error message, and no [DONE]; the planner stream sends the
    error event and then [DONE].  A request without messages ends both
    streams the same way, with the event of a JavaScript error and before
    the generator is started. *)
Theorem streams_on_generator_error
        (ent : Entropy) (credentials : WindsurfCredentials)
        (request : ChatCompletionRequest) (e : Exn) :
  (forall msgs,
      messages request = Some msgs ->
      thrown (plain_run credentials request msgs) = Some e ->
      exists contents,
        plain_stream ent credentials request
        = (map SseData contents ++ [SseData (stream_error e)])%list
        /\ Forall2 is_content_chunk (yielded (plain_run credentials request msgs)) contents
        /\ ~ In SseDone (plain_stream ent credentials request))
  /\ (forall msgs,
        messages request = Some msgs ->
        thrown (planner_run credentials request msgs) = Some e ->
        planner_stream ent credentials request = [SseData (stream_error e); SseDone])
  /\ (messages request = None ->
      exists m,
        plain_stream ent credentials request = [SseData (stream_error (JsError m))]
        /\ planner_stream ent credentials request
           = [SseData (stream_error (JsError m)); SseDone]).
Proof.
  pose proof (plan_of_run credentials request) as Hplan.
  split; [|split].
  - intros msgs Hm He. unfold plain_stream, createStreamingResponse, messages_or_throw.
    fold effective. rewrite Hm. fold (plain_run credentials request msgs). rewrite He.
    rewrite map_indexed_events.
    eexists. split; [reflexivity|]. split.
    + apply content_chunks.
    + intros Hin. apply in_app_or in Hin. destruct Hin as [Hin|[Hin|[]]];
        [|discriminate].
      apply in_map_iff in Hin. destruct Hin as (chunk & Hc & _). discriminate.
  - intros msgs Hm He. unfold planner_stream, handleToolPlanningStream.
    rewrite Hm, He in Hplan. unfold plan in Hplan. rewrite Hplan. reflexivity.
  - intros Hm. eexists. split.
    + unfold plain_stream, createStreamingResponse, messages_or_throw.
      rewrite Hm. reflexivity.
    + unfold planner_stream, handleToolPlanningStream.
      rewrite Hm in Hplan. unfold plan in Hplan. rewrite Hplan. reflexivity.
Qed.


(** X23.  Every successful response names the model as the request
    gave it, [request.model || getDefaultModel()], whatever the resolver
    makes of that name: each chunk of the two streams that is not the
    error event, and the body of the two JSON responses, have it as
    [model]. *)
Theorem responses_echo_requested_model
        (ent : Entropy) (credentials : WindsurfCredentials)
        (request : ChatCompletionRequest) :
  Forall (echoes_model (requested_model getDefaultModel request))
         (plain_stream ent credentials request)
  /\ Forall (echoes_model (requested_model getDefaultModel request))
            (planner_stream ent credentials request)
  /\ (forall payload,
        plain_response ent credentials request = Ok payload ->
        Json.get payload "model" = JString (requested_model getDefaultModel request))
  /\ (forall r payload,
        planner_response ent credentials request = Ok r ->
        body r = JsonBody payload ->
        Json.get payload "model" = JString (requested_model getDefaultModel request)).
Proof.
  pose proof (plan_of_run credentials request) as Hplan.
  repeat split.
  - unfold plain_stream, createStreamingResponse, messages_or_throw.
    destruct (messages request) as [msgs|];
      [|apply Forall_cons; [left; eauto|constructor]].
    fold effective. fold (plain_run credentials request msgs).
    apply Forall_app. split.
    + rewrite map_indexed_events. apply Forall_map.
      generalize 0%nat. induction (yielded (plain_run credentials request msgs))
        as [|chunk chunks IH]; intros k; simpl; constructor; [|apply IH].
      right. reflexivity.
    + destruct (thrown (plain_run credentials request msgs)) as [e|].
      * apply Forall_cons; [left; eauto|constructor].
      * apply Forall_cons; [right; reflexivity|].
        apply Forall_cons; [exact I|constructor].
  - unfold planner_stream, handleToolPlanningStream. fold plan.
    destruct (messages request) as [msgs|].
    + destruct (thrown (planner_run credentials request msgs)) as [e|].
      * rewrite Hplan. apply Forall_cons; [left; eauto|].
        apply Forall_cons; [exact I|constructor].
      * destruct Hplan as (p & _ & ->).
        destruct p as [[c|calls]|];
          (apply Forall_cons; [right; reflexivity|];
           apply Forall_cons; [exact I|constructor]).
    + rewrite Hplan. apply Forall_cons; [left; eauto|].
      apply Forall_cons; [exact I|constructor].
  - intros payload. unfold plain_response, createNonStreamingResponse, messages_or_throw.
    destruct (messages request) as [msgs|]; [|discriminate]. cbn [bind].
    fold effective. fold (plain_run credentials request msgs).
    destruct (thrown (plain_run credentials request msgs)); [discriminate|].
    now intros [= <-].
  - intros r payload. unfold planner_response, handleToolPlanning. fold plan.
    destruct (messages request) as [msgs|]; [|rewrite Hplan; discriminate].
    destruct (thrown (planner_run credentials request msgs)) as [e|].
    + rewrite Hplan. discriminate.
    + destruct Hplan as (p & _ & ->). cbn [bind].
      destruct p as [[c|calls]|]; intros [= <-]; cbn [body]; now intros [= <-].
Qed.

End ResponseFacts.

(* ================================================================== *)
(** * From the language server to the HTTP response *)
(* ================================================================== *)

Section EndToEnd.

Variable JSON_parse : string -> option JValue.
Variables JSON_stringify JSON_stringify_pretty : JValue -> string.
Variable toUpperCase : string -> string.
Variable cascade : WindsurfCredentials -> string -> string -> GeneratorRun.
Variable ALIAS_TO_CANONICAL : string -> option string.
Variable VARIANT_CATALOG : string -> option CatalogEntry.
Variable NAME_TO_ENUM : string -> option Z.
Variable is_canonical : string -> bool.
Variable getDefaultModel : string.
Variable getCanonicalModels : list string.
Variable getModelVariants : string -> option (list (string * string)).

Variable Buffer_from_value : JValue -> Result (list Z).
Variable toString_utf8 : list Z -> string.
Variable gunzipSync : list Z -> option (list Z).
Variable getMetadataFields : MetadataFields.
Variables PROXY_SESSION_ID DEVICE_FINGERPRINT : string.
Variable modelUid_of : string -> string.
Variable grpcUnary : nat -> Z -> string -> string -> list Z -> UnaryOutcome.

Let effective := effective_model ALIAS_TO_CANONICAL VARIANT_CATALOG NAME_TO_ENUM
                   is_canonical getDefaultModel.
Let plain_stream := createStreamingResponse cascade ALIAS_TO_CANONICAL VARIANT_CATALOG
                      NAME_TO_ENUM is_canonical getDefaultModel.
Let run := streamChatGenerator_run Buffer_from_value toString_utf8 gunzipSync
             getMetadataFields PROXY_SESSION_ID DEVICE_FINGERPRINT modelUid_of
             grpcUnary.
Let serve := serve_chat JSON_parse JSON_stringify JSON_stringify_pretty toUpperCase
               cascade ALIAS_TO_CANONICAL VARIANT_CATALOG NAME_TO_ENUM is_canonical
               getDefaultModel.
Let route := fetch JSON_parse JSON_stringify JSON_stringify_pretty toUpperCase cascade
               ALIAS_TO_CANONICAL VARIANT_CATALOG NAME_TO_ENUM is_canonical
               getDefaultModel getCanonicalModels getModelVariants.


(** Every response of the chat route that is not an error has status
    200. *)
Lemma serve_chat_status w ent req response :
  serve w ent req = Ok response -> status response = 200%Z.
Proof.
  unfold serve, serve_chat.
  destruct (getCredentials JSON_parse w) as [credentials|]; [|discriminate].
  cbn [bind]. cbv zeta.
  destruct (uses_tool_planner (body_of req)); destruct (stream (body_of req)).
  - intros [= <-]. reflexivity.
  - unfold handleToolPlanning.
    destruct (planToolCall _ _ _ _ _ _ _ _) as [[[p text] model_name]|]; [|discriminate].
    cbn [bind]. intros [= <-]. reflexivity.
  - intros [= <-]. reflexivity.
  - destruct (createNonStreamingResponse _ _ _ _ _ _ _ _ _) as [data|]; [|discriminate].
    cbn [bind]. intros [= <-]. reflexivity.
Qed.

(** The status of a response, by the route that made it. *)
Lemma route_cases gate w ent req :
  ((pathname req = "/health" \/ pathname req = "/v1/models" \/ pathname req = "/models")
   /\ status (route gate w ent req) = 200%Z)
  \/ (is_chat_path (pathname req) = true /\ isWindsurfRunning gate = false
      /\ status (route gate w ent req) = 503%Z)
  \/ (is_chat_path (pathname req) = true /\ isWindsurfRunning gate = true
      /\ (status (route gate w ent req) = 200%Z \/ status (route gate w ent req) = 500%Z))
  \/ (~ In (pathname req) served_paths /\ is_chat_path (pathname req) = false
      /\ status (route gate w ent req) = 404%Z).
Proof.
  unfold route, fetch, served_paths, is_chat_path. cbv zeta.
  destruct (String.eqb_spec (pathname req) "/health") as [E1|N1]; [left; auto|].
  destruct (String.eqb_spec (pathname req) "/v1/models") as [E2|N2]; [left; auto|].
  destruct (String.eqb_spec (pathname req) "/models") as [E3|N3]; [left; auto|].
  cbn [orb].
  assert (Hchat : (isWindsurfRunning gate = false
                   /\ status (chat_completions JSON_parse JSON_stringify
                                JSON_stringify_pretty toUpperCase cascade ALIAS_TO_CANONICAL
                                VARIANT_CATALOG NAME_TO_ENUM is_canonical
                                getDefaultModel gate w ent req) = 503%Z)
                  \/ (isWindsurfRunning gate = true
                      /\ (status (chat_completions JSON_parse JSON_stringify
                                     JSON_stringify_pretty toUpperCase cascade ALIAS_TO_CANONICAL
                                     VARIANT_CATALOG NAME_TO_ENUM is_canonical
                                     getDefaultModel gate w ent req) = 200%Z
                          \/ status (chat_completions JSON_parse JSON_stringify
                                       JSON_stringify_pretty toUpperCase cascade ALIAS_TO_CANONICAL
                                       VARIANT_CATALOG NAME_TO_ENUM is_canonical
                                       getDefaultModel gate w ent req) = 500%Z))).
  { unfold chat_completions.
    destruct (isWindsurfRunning gate); cbn [negb]; [right|left; split; reflexivity].
    split; [reflexivity|].
    fold serve. destruct (serve w ent req) as [response|e] eqn:E.
    - left. now apply serve_chat_status in E.
    - right. reflexivity. }
  destruct (String.eqb (pathname req) "/v1/chat/completions"
            || String.eqb (pathname req) "/chat/completions") eqn:Echat.
  - right. destruct Hchat as [[Hr Hs]|[Hr Hs]]; [left|right; left]; auto.
  - right. right. right. apply orb_false_elim in Echat. destruct Echat as [E4 E5].
    apply String.eqb_neq in E4, E5. split; [|split; reflexivity].
    intros [H|[H|[H|[H|[H|[]]]]]]; congruence.
Qed.

Lemma chat_path_served p : is_chat_path p = true -> In p served_paths.
Proof.
  unfold is_chat_path, served_paths. intros H. apply orb_prop in H.
  destruct H as [H|H]; apply String.eqb_eq in H; subst; simpl; auto 6.
Qed.

Ltac status_case :=
  repeat split; intros;
  repeat match goal with H : _ /\ _ |- _ => destruct H end;
  try lia; try tauto; try congruence.

(** X26.  [fetch] answers 404 exactly for the paths it does not serve and
    503 exactly for a chat route when the readiness gate finds that
    Windsurf is not running; every other answer is 200 or 500, and /health
    and the model listing always answer 200, also when Windsurf is not
    running. *)
Theorem fetch_status_by_route (gate w : World) (ent : Entropy) (req : HttpRequest) :
  (status (route gate w ent req) = 404%Z <-> ~ In (pathname req) served_paths)
  /\ (status (route gate w ent req) = 503%Z
      <-> is_chat_path (pathname req) = true /\ isWindsurfRunning gate = false)
  /\ (status (route gate w ent req) = 200%Z \/ status (route gate w ent req) = 404%Z
      \/ status (route gate w ent req) = 500%Z \/ status (route gate w ent req) = 503%Z)
  /\ (pathname req = "/health" \/ pathname req = "/v1/models" \/ pathname req = "/models" ->
      status (route gate w ent req) = 200%Z).
Proof.
  assert (Hnamed : pathname req = "/health" \/ pathname req = "/v1/models"
                   \/ pathname req = "/models" ->
                   In (pathname req) served_paths /\ is_chat_path (pathname req) = false).
  { intros [H|[H|H]]; rewrite H; split; simpl; auto 6. }
  destruct (route_cases gate w ent req)
    as [[Hp Hs]|[(Hc & Hr & Hs)|[(Hc & Hr & Hs)|(Hn & Hc & Hs)]]].
  - destruct (Hnamed Hp) as [Hin Hc]. rewrite Hs. status_case.
  - pose proof (chat_path_served _ Hc) as Hin. rewrite Hs. status_case;
      match goal with
      | H : _ \/ _ |- _ => destruct (Hnamed H) as [_ H']; congruence
      end.
  - pose proof (chat_path_served _ Hc) as Hin.
    destruct Hs as [Hs|Hs]; rewrite Hs; status_case;
      match goal with
      | H : _ \/ _ |- _ => destruct (Hnamed H) as [_ H']; congruence
      end.
  - rewrite Hs. status_case;
      match goal with
      | H : _ \/ _ |- _ => destruct (Hnamed H) as [H' _]; contradiction
      end.
Qed.

End EndToEnd.


(* ================================================================== *)
(** * Tool calls in the response, and the start of the proxy *)
(* ================================================================== *)

Module IdFacts.

Lemma to_int_not_nil z :
  Z.to_int z <> Decimal.Pos Decimal.Nil /\ Z.to_int z <> Decimal.Neg Decimal.Nil.
Proof.
  pose proof (DecimalZ.to_of (Z.to_int z)) as H. rewrite DecimalZ.of_to in H.
  split; intros E; rewrite E in H; discriminate H.
Qed.

(** The decimal rendering of an integer determines it. *)
Lemma of_Z_inj a b : Js.of_Z a = Js.of_Z b -> a = b.
Proof.
  unfold Js.of_Z. intros H.
  destruct (to_int_not_nil a) as [Ha1 Ha2]. destruct (to_int_not_nil b) as [Hb1 Hb2].
  pose proof (NilZero.isi (Z.to_int a) Ha1 Ha2) as Ia.
  pose proof (NilZero.isi (Z.to_int b) Hb1 Hb2) as Ib.
  rewrite H in Ia. rewrite Ia in Ib. injection Ib as Hab.
  apply (f_equal Z.of_int) in Hab. now rewrite !DecimalZ.of_to in Hab.
Qed.

Lemma append_inv_head (p a b : string) : (p ++ a = p ++ b)%string -> a = b.
Proof. induction p as [|c p IH]; simpl; [auto|]. intros [= H]. auto. Qed.

(** A decimal rendering holds no underscore. *)
Lemma of_digits_plain u : every not_underscore (NilEmpty.string_of_uint u) = true.
Proof. induction u; simpl; [reflexivity|exact IHu ..]. Qed.

Lemma of_uint_plain u : every not_underscore (NilZero.string_of_uint u) = true.
Proof. destruct u; [reflexivity|apply (of_digits_plain (_ u)) ..]. Qed.

Lemma of_Z_plain z : every not_underscore (Js.of_Z z) = true.
Proof.
  unfold Js.of_Z. destruct (Z.to_int z) as [u|u]; simpl; apply of_uint_plain.
Qed.

Lemma underscore_inside a y : every not_underscore (a ++ String "_" y) = false.
Proof.
  induction a as [|c a IH]; [reflexivity|].
  change (not_underscore c && every not_underscore (a ++ String "_" y) = false).
  rewrite IH. apply andb_false_r.
Qed.

(** What follows the last underscore of a string is determined by the
    string. *)
Lemma after_last_underscore a : forall b x y,
  every not_underscore x = true -> every not_underscore y = true ->
  (a ++ String "_" x = b ++ String "_" y)%string -> x = y.
Proof.
  induction a as [|c a IH]; intros [|d b] x y Hx Hy H; cbn [append] in H.
  - now injection H.
  - injection H as _ H. rewrite H, underscore_inside in Hx. discriminate.
  - injection H as _ H. rewrite <- H, underscore_inside in Hy. discriminate.
  - injection H as _ H. exact (IH b x y Hx Hy H).
Qed.

(** The index of a call id is determined by the id, whatever the clock
    returned when it was made. *)
Lemma call_id_inj ent k l i j : call_id ent k i = call_id ent l j -> i = j.
Proof.
  unfold call_id. intros H. apply (append_inv_head "call_") in H.
  apply (after_last_underscore (Js.of_Z (date_now ent k)) (Js.of_Z (date_now ent l))
           (Js.of_Z (Z.of_nat i)) (Js.of_Z (Z.of_nat j))
           (of_Z_plain _) (of_Z_plain _)) in H.
  apply of_Z_inj in H. lia.
Qed.

Lemma map_indexed_map (A B C : Type) (f : A -> nat -> B) (g : B -> C) l : forall i,
  map g (map_indexed f i l) = map_indexed (fun a n => g (f a n)) i l.
Proof. induction l as [|a l IH]; intros i; simpl; [reflexivity|]. now rewrite IH. Qed.

Lemma map_indexed_index (A B : Type) (f : nat -> B) (l : list A) : forall i,
  map_indexed (fun _ n => f n) i l = map f (seq i (length l)).
Proof. induction l as [|a l IH]; intros i; simpl; [reflexivity|]. now rewrite IH. Qed.

Lemma map_indexed_elem (A B : Type) (f : A -> B) (l : list A) : forall i,
  map_indexed (fun a _ => f a) i l = map f l.
Proof. induction l as [|a l IH]; intros i; simpl; [reflexivity|]. now rewrite IH. Qed.

End IdFacts.

(** X22.  The tool calls of the planner's JSON response stand one for one,
    in order, for the calls of the plan: their names are the names of the
    plan; the id of the call at index [i] is [call_<t>_<i>], [t] being the
    clock as the callback of that call reads it; and the ids are pairwise
    distinct, whatever the clock returns. *)
Theorem tool_call_payload_matches_plan
        (JSON_stringify : JValue -> string) (ent : Entropy) (model_name : string)
        (toolCalls : list ToolCall) :
  let payload := buildToolCallPayload JSON_stringify ent model_name toolCalls in
  map (fun tc => Json.get (Json.get tc "function") "name") (tool_calls_of payload)
  = map tc_name toolCalls
  /\ map (fun tc => Json.get tc "id") (tool_calls_of payload)
     = map (fun i => JString ("call_" ++ Js.of_Z (date_now ent i) ++ "_"
                              ++ Js.of_Z (Z.of_nat i)))
           (seq 0 (length toolCalls))
  /\ NoDup (map (fun tc => Json.get tc "id") (tool_calls_of payload))
  /\ finish_reason_of payload = JString "tool_calls".
Proof.
  cbv zeta. unfold buildToolCallPayload, tool_calls_of, message_of, first_choice.
  cbn [Json.get Json.lookup String.eqb Ascii.eqb Bool.eqb].
  rewrite !IdFacts.map_indexed_map.
  cbn [Json.get Json.lookup String.eqb Ascii.eqb Bool.eqb function_of].
  assert (Hids : map_indexed (fun (_ : ToolCall) n => JString (call_id ent n n)) 0 toolCalls
                 = map (fun i => JString (call_id ent i i)) (seq 0 (length toolCalls)))
    by apply (IdFacts.map_indexed_index ToolCall JValue
                (fun n => JString (call_id ent n n))).
  split; [apply (IdFacts.map_indexed_elem ToolCall JValue tc_name)|].
  split; [exact Hids|]. split; [|reflexivity].
  rewrite Hids. apply Finite.Injective_map_NoDup; [|apply seq_NoDup].
  intros i j H.
  apply (f_equal (fun v => match v with JString s => s | _ => EmptyString end)) in H.
  now apply IdFacts.call_id_inj in H.
Qed.

(** With a clock that ticks between the calls, the ids carry different
    instants. *)
Example call_ids_follow_the_clock :
  map (fun tc => Json.get tc "id")
      (tool_calls_of
         (buildToolCallPayload RefStringify.stringify Sample.entropy "gpt-5.2"
            [ {| tc_name := JString "a"; tc_arguments := JNull |};
              {| tc_name := JString "b"; tc_arguments := JNull |} ]))
  = [ JString "call_1762041600123_0"; JString "call_1762041600124_1" ].
Proof. vm_compute. reflexivity. Qed.



Lemma filter_first (A : Type) (p : A -> bool) (l : list A) x rest :
  filter p l = x :: rest ->
  exists before after, l = (before ++ x :: after)%list
                       /\ p x = true /\ Forall (fun y => p y = false) before.
Proof.
  induction l as [|a l IH]; simpl; [discriminate|].
  destruct (p a) eqn:E.
  - intros [= <- _]. exists [], l. repeat split; [exact E|constructor].
  - intros H. destruct (IH H) as (before & after & -> & Hx & Hb).
    exists (a :: before), after. repeat split; [exact Hx|]. now constructor.
Qed.

(** X25.  [spawnProxyDaemon] spawns nothing when server.js is missing.
    Otherwise it runs server.js with the first candidate path of bun that
    exists, in the order $HOME/.bun/bin/bun, /usr/local/bin/bun,
    /usr/bin/bun, and with plain [bun] when none of them does. *)
Theorem spawned_with_first_bun_found
        (HOME : option string) (existsSync : string -> bool) (serverEntry : string) :
  (existsSync serverEntry = false ->
   spawnProxyDaemon HOME existsSync serverEntry = None)
  /\ (existsSync serverEntry = true ->
      exists bin,
        spawnProxyDaemon HOME existsSync serverEntry
        = Some {| bunBin := bin; spawn_args := [serverEntry] |}
        /\ ((bin = "bun"
             /\ Forall (fun c => existsSync c = false) (bunCandidates HOME))
            \/ (exists before after,
                   bunCandidates HOME = (before ++ bin :: after)%list
                   /\ existsSync bin = true
                   /\ Forall (fun c => existsSync c = false) before))).
Proof.
  unfold spawnProxyDaemon. split; intros ->; cbn [negb]; [reflexivity|].
  destruct (filter existsSync (bunCandidates HOME)) as [|candidate rest] eqn:E.
  - exists "bun". split; [reflexivity|]. left. split; [reflexivity|].
    apply Forall_forall. intros c Hc.
    destruct (existsSync c) eqn:Ec; [|reflexivity].
    assert (Hin : In c (filter existsSync (bunCandidates HOME)))
      by (apply filter_In; auto).
    rewrite E in Hin. destruct Hin.
  - exists candidate. split; [reflexivity|]. right. now apply filter_first in E.
Qed.
